(** * Gregory-method ECS notebook: a shallow embedding

    Source: demos/Lecture07_BigData/01_calculate_ECS_Gregory_method.ipynb.

    The notebook is a sequence of cells.  The ones embedded here are

    - the per-run loop that reduces every gridded field to a global-mean
      time series (cosine-latitude weights);
    - the three dictionary passes that keep the models having both a
      [piControl] and an [abrupt-4xCO2] run;
    - the per-model loop that forms annual anomalies against the control
      baseline, fits a line over [gregory_limits] and derives the ECS;
    - the final sort of the ECS mapping;
    - beside these, the cell that splits the reduced datasets themselves,
      the single-model example cell and the bin edges of the histogram
      cell.

    Numbers.  The notebook computes in IEEE binary64.  Every numeric
    definition below is written once, over an interface [Arith], and is
    instantiated twice: at [float] (the kernel's binary64, the arithmetic
    numpy runs) and at [Q] (exact rationals, the same formulas without
    rounding).  [np.polyfit] is a LAPACK routine: the cells take it as a
    parameter, and it is embedded only in exact arithmetic, as the
    least-squares line.  What it returns in binary64, rounding included, is
    not embedded.

    Python and xarray behaviour that matters to control flow is explicit:
    a dictionary is an insertion-ordered association list, a failed lookup
    raises [KeyError], [ds[k]] of a dimension without coordinate variable
    is its positions, [Dataset.rename] of an absent name raises
    [ValueError], [.squeeze()] makes a 0-d array of a one-step series and
    [groupby] of such an array raises [ValueError], [np.polyfit] of vectors
    of different length raises [TypeError], [sorted] is CPython's run
    detection and binary insertion. *)

From Stdlib Require Import List String Ascii Bool Arith ZArith QArith Qfield Qround Qpower.
From Stdlib Require Import Lia Lqa Floats Permutation Sorted Setoid Morphisms.
Import ListNotations.

Set Implicit Arguments.

(* ================================================================== *)
(** ** Python runtime: exceptions, dictionaries, strings               *)
(* ================================================================== *)

Module Py.

(** The exceptions the embedded cells can raise. *)
Inductive exn : Type :=
| KeyError | IndexError | ValueError | TypeError | LinAlgError.

(** A computation either returns or raises; an uncaught exception aborts
    the cell, hence every loop it is in. *)
Inductive result (A : Type) : Type :=
| Ok (a : A)
| Raise (e : exn).

Arguments Ok {A} a.
Arguments Raise {A} e.

Definition bind {A B : Type} (c : result A) (k : A -> result B) : result B :=
  match c with
  | Ok a => k a
  | Raise e => Raise e
  end.

(** [for x in xs: st = body x st], stopping at the first exception. *)
Fixpoint for_each {A S : Type} (body : A -> S -> result S) (xs : list A) (st : S)
  : result S :=
  match xs with
  | [] => Ok st
  | x :: rest => bind (body x st) (for_each body rest)
  end.

(** Dictionaries keep insertion order (Python 3.7); assigning to a key
    that is present replaces its value in place. *)
Definition dict (V : Type) : Type := list (string * V).

Fixpoint dict_get {V : Type} (k : string) (d : dict V) : option V :=
  match d with
  | [] => None
  | (k', v) :: rest => if String.eqb k k' then Some v else dict_get k rest
  end.

Fixpoint dict_set {V : Type} (k : string) (v : V) (d : dict V) : dict V :=
  match d with
  | [] => [(k, v)]
  | (k', v') :: rest =>
      if String.eqb k k' then (k, v) :: rest else (k', v') :: dict_set k v rest
  end.

Definition dict_keys {V : Type} (d : dict V) : list string := map fst d.

(** [k in d.keys()] *)
Definition dict_mem {V : Type} (k : string) (d : dict V) : bool :=
  match dict_get k d with Some _ => true | None => false end.

(** [d[k]] *)
Definition getitem {V : Type} (k : string) (d : dict V) : result V :=
  match dict_get k d with Some v => Ok v | None => Raise KeyError end.

(** [x in [..]] on a list of strings. *)
Definition str_in (k : string) (l : list string) : bool :=
  existsb (String.eqb k) l.

(** [sub in s]: substring test. *)
Fixpoint contains (sub s : string) : bool :=
  String.prefix sub s ||
  match s with
  | EmptyString => false
  | String _ rest => contains sub rest
  end.

(** [s.split(sep)] for a one-character separator. *)
Fixpoint split (sep : ascii) (s : string) : list string :=
  match s with
  | EmptyString => [EmptyString]
  | String c rest =>
      if Ascii.eqb c sep then EmptyString :: split sep rest
      else match split sep rest with
           | [] => [String c EmptyString]
           | w :: ws => String c w :: ws
           end
  end.

(** [l[i]] *)
Definition index {A : Type} (l : list A) (i : nat) : result A :=
  match nth_error l i with Some a => Ok a | None => Raise IndexError end.

(** [l[y0:y1]] for non-negative bounds. *)
Definition slice {A : Type} (y0 y1 : nat) (l : list A) : list A :=
  firstn (y1 - y0) (skipn y0 l).

End Py.

Import Py.

Declare Scope py_scope.
Notation "x <- c ;; k" := (bind c (fun x => k))
  (at level 61, c at next level, right associativity) : py_scope.
Notation "' pat <- c ;; k" := (bind c (fun x => match x with pat => k end))
  (at level 61, pat pattern, c at next level, right associativity) : py_scope.
Open Scope py_scope.
Open Scope string_scope.

(** [name.split(".")[2]]: the model identifier inside a catalogue key such
    as [CMIP.NCAR.CESM2.piControl.Amon.gn]. *)
Definition model_name_of (name : string) : result string :=
  index (split "."%char name) 2.

(** The number of occurrences of the character [c] in [s]. *)
Fixpoint count_char (c : ascii) (s : string) : nat :=
  match s with
  | EmptyString => 0
  | String c' rest => (if Ascii.eqb c' c then 1 else 0) + count_char c rest
  end.

(** [sep.join(ws)]: how a catalogue key is put together from its fields
    (activity, institution, model, experiment, table, grid). *)
Fixpoint join (sep : ascii) (ws : list string) : string :=
  match ws with
  | [] => EmptyString
  | w :: rest =>
      match rest with
      | [] => w
      | _ :: _ => w ++ String sep (join sep rest)
      end
  end.

(* ================================================================== *)
(** ** Arithmetic interface and its two instances                      *)
(* ================================================================== *)

Class Arith (F : Type) : Type := {
  fzero : F;
  fone : F;
  ftwo : F;                 (* the literal 2.0 *)
  fadd : F -> F -> F;
  fsub : F -> F -> F;
  fmul : F -> F -> F;
  fdiv : F -> F -> F;
  fopp : F -> F;
  of_count : nat -> F;      (* an element count used as a divisor *)
  fisnan : F -> bool;       (* np.isnan *)
  fltb : F -> F -> bool     (* x < y *)
}.

(** IEEE binary64, the arithmetic numpy runs. *)
#[export] Instance binary64 : Arith float := {|
  fzero := 0%float;
  fone := 1%float;
  ftwo := 2%float;
  fadd := PrimFloat.add;
  fsub := PrimFloat.sub;
  fmul := PrimFloat.mul;
  fdiv := PrimFloat.div;
  fopp := PrimFloat.opp;
  of_count := fun n => PrimFloat.of_uint63 (Uint63.of_Z (Z.of_nat n));
  fisnan := PrimFloat.is_nan;
  fltb := PrimFloat.ltb
|}.

(** Exact rational arithmetic: the same formulas without rounding, every
    result kept in lowest terms.  There is no NaN.  Division by zero is
    [0] in [Q], unlike IEEE; no theorem below rests on it. *)
#[export] Instance exact : Arith Q := {|
  fzero := 0%Q;
  fone := 1%Q;
  ftwo := 2%Q;
  fadd := fun x y => Qred (x + y);
  fsub := fun x y => Qred (x - y);
  fmul := fun x y => Qred (x * y);
  fdiv := fun x y => Qred (x / y);
  fopp := fun x => Qred (- x);
  of_count := fun n => inject_Z (Z.of_nat n);
  fisnan := fun _ => false;
  fltb := fun x y => negb (Qle_bool y x)
|}.

(* ================================================================== *)
(** ** xarray datasets and the notebook's cells                        *)
(* ================================================================== *)

Section Notebook.

Context {F : Type} {AF : Arith F}.

(** [np.cos(np.deg2rad(.))] is libm's; the embedding takes it as given. *)
Variable cosdeg : F -> F.

(** [np.polyfit(x, y, 1)], returning [(slope, intercept)] or raising. *)
Variable polyfit : list F -> list F -> result (F * F).

(** *** Reductions *)

(** [.sum(...)] of floating data: xarray skips NaN by default.  The
    summands are added left to right.  numpy and dask add in another order
    (pairwise, in blocks, chunk by chunk), which gives the same sum in
    exact arithmetic and can round differently in binary64; the binary64
    facts below evaluate sums of at most three summands, two of them equal,
    whose value does not depend on the order. *)
Definition fsum (l : list F) : F :=
  fold_left (fun acc x => if fisnan x then acc else fadd acc x) l fzero.

(** [.mean(...)]: the NaN-skipping sum over the number of valid entries. *)
Definition fmean (l : list F) : F :=
  fdiv (fsum l) (of_count (List.length (filter (fun x => negb (fisnan x)) l))).

(** *** Datasets *)

(** A global-mean series: one (calendar year, value) pair per time step. *)
Definition Series : Type := list (Z * F).

(** An [xarray.Dataset] of [time x row x column] fields.
    - [ds_dims]: its dimensions, each name with its size ([ds.dims]);
    - [ds_year]: the calendar year of each time step, what [time.year]
      yields once [xr.decode_cf] has decoded the time axis;
    - [ds_coords]: its coordinate variables (latitude and longitude in
      degrees, and whatever else the file carries, e.g. [height]);
    - [ds_vars]: its data variables, indexed by position. *)
Record Dataset : Type := mkDataset {
  ds_dims : dict nat;
  ds_year : list Z;
  ds_coords : dict (list F);
  ds_vars : dict (nat -> nat -> nat -> F)
}.

(** [ds.keys()]: data variables and coordinates. *)
Definition ds_keys (ds : Dataset) : list string :=
  dict_keys (ds_vars ds) ++ dict_keys (ds_coords ds).

(** [k in ds.dims] *)
Definition has_dim (k : string) (ds : Dataset) : bool := dict_mem k (ds_dims ds).

(** [ds[k]] for a grid axis: the coordinate variable of that name; for a
    dimension that has no coordinate variable xarray supplies the positions
    [0 .. n-1]; any other name raises [KeyError]. *)
Definition coordinate (k : string) (ds : Dataset) : result (list F) :=
  match dict_get k (ds_coords ds) with
  | Some c => Ok c
  | None =>
      match dict_get k (ds_dims ds) with
      | Some n => Ok (map of_count (seq 0 n))
      | None => Raise KeyError
      end
  end.

Definition rename_key (m : dict string) (k : string) : string :=
  match dict_get k m with Some k' => k' | None => k end.

(** No name occurs twice. *)
Fixpoint distinct (l : list string) : bool :=
  match l with
  | [] => true
  | k :: rest => negb (str_in k rest) && distinct rest
  end.

(** [ds.rename(m)]: xarray refuses a name that is neither a variable nor a
    dimension of the dataset ("cannot rename ..."), and a new name that
    collides with another variable ("the new name ... conflicts"); both
    are [ValueError]. *)
Definition rename (m : dict string) (ds : Dataset) : result Dataset :=
  if negb (forallb (fun k => str_in k (ds_keys ds) || has_dim k ds) (dict_keys m))
  then Raise ValueError
  else if negb (distinct (map (rename_key m) (ds_keys ds)))
  then Raise ValueError
  else Ok {| ds_dims := map (fun kv => (rename_key m (fst kv), snd kv)) (ds_dims ds);
             ds_year := ds_year ds;
             ds_coords := map (fun kv => (rename_key m (fst kv), snd kv)) (ds_coords ds);
             ds_vars := map (fun kv => (rename_key m (fst kv), snd kv)) (ds_vars ds) |}.

Definition spatial_renaming : dict string :=
  [("longitude", "lon"); ("latitude", "lat")].

(** The test guarding both renames: it reads the radiation dataset only. *)
Definition needs_rename (ds_rad : Dataset) : bool :=
  has_dim "longitude" ds_rad && has_dim "latitude" ds_rad.

(** "rename spatial dimensions if necessary" *)
Definition reconcile (ds_rad ds_tas : Dataset) : result (Dataset * Dataset) :=
  if needs_rename ds_rad then
    ds_rad' <- rename spatial_renaming ds_rad ;;
    ds_tas' <- rename spatial_renaming ds_tas ;;
    Ok (ds_rad', ds_tas')
  else Ok (ds_rad, ds_tas).

(** "drop redundant variables": every coordinate but lat, lon, time.
    Dropping a coordinate variable leaves the dimensions as they are. *)
Definition drop_redundant (ds : Dataset) : Dataset :=
  {| ds_dims := ds_dims ds;
     ds_year := ds_year ds;
     ds_coords := filter (fun kv => str_in (fst kv) ["lat"; "lon"; "time"]) (ds_coords ds);
     ds_vars := ds_vars ds |}.

(** *** Area-weighted global mean *)

(** The sum over both spatial dimensions of a [nlat x nlon] array. *)
Definition grid_sum (nlat nlon : nat) (a : nat -> nat -> F) : F :=
  fsum (flat_map (fun i => map (a i) (seq 0 nlon)) (seq 0 nlat)).

(** [np.cos(np.deg2rad(ds['lat'])) * xr.ones_like(ds['lon'])] *)
Definition cos_lat_2d (lat : list F) : nat -> nat -> F :=
  fun i _ => fmul (cosdeg (nth i lat fzero)) fone.

(** [(field * cos_lat_2d).sum(dim=['lat','lon']) / cos_lat_2d.sum(dim=['lat','lon'])]
    at time step [t]. *)
Definition global_mean (lat lon : list F) (field : nat -> nat -> nat -> F) (t : nat) : F :=
  fdiv (grid_sum (List.length lat) (List.length lon)
          (fun i j => fmul (field t i j) (cos_lat_2d lat i j)))
       (grid_sum (List.length lat) (List.length lon) (cos_lat_2d lat)).

(** The denominator alone: the weights summed over the grid. *)
Definition total_weight (lat lon : list F) : F :=
  grid_sum (List.length lat) (List.length lon) (cos_lat_2d lat).

Definition global_mean_series (years : list Z) (lat lon : list F)
    (field : nat -> nat -> nat -> F) : Series :=
  map (fun t => (nth t years 0%Z, global_mean lat lon field t)) (seq 0 (List.length years)).

(** [ds_rad['rsdt'] - ds_rad['rsut'] - ds_rad['rlut']], pointwise. *)
Definition net_toa (rsdt rsut rlut : nat -> nat -> nat -> F) : nat -> nat -> nat -> F :=
  fun t i j => fsub (fsub (rsdt t i j) (rsut t i j)) (rlut t i j).

(** The other order the specification allows, which the notebook does not
    take: reduce each flux, then combine the three means. *)
Definition net_toa_of_means (lat lon : list F)
    (rsdt rsut rlut : nat -> nat -> nat -> F) (t : nat) : F :=
  fsub (fsub (global_mean lat lon rsdt t) (global_mean lat lon rsut t))
       (global_mean lat lon rlut t).

(** *** Cell: global means of every run *)

Record Reduced : Type := mkReduced {
  ds_dict : dict Dataset;
  gmst_dict : dict Series;
  imbalance_dict : dict Series
}.

Definition has_fluxes (ds_rad : Dataset) : bool :=
  str_in "rsdt" (ds_keys ds_rad) && str_in "rsut" (ds_keys ds_rad)
  && str_in "rlut" (ds_keys ds_rad).

(** [.squeeze()] drops every dimension of length one.  A global-mean
    series has the one dimension [time], so squeezing changes the shape of
    a series of exactly one time step only: it becomes a 0-d array, its
    value and its year kept.  Values and years are untouched, so the list
    stays as it is; a stored series of one entry stands for the 0-d array
    ([is_0d] below), and [groupby_year] treats it as xarray treats one. *)
Definition squeeze (s : Series) : Series := s.

(** The spatial averaging of one run and the three assignments that end
    the loop body.  Both averages read the grid of their own dataset under
    the names [lat] and [lon]. *)
Definition spatial_averages (name : string) (ds_rad ds_tas : Dataset) (st : Reduced)
  : result Reduced :=
  lat_t <- coordinate "lat" ds_tas ;;
  lon_t <- coordinate "lon" ds_tas ;;
  tas <- getitem "tas" (ds_vars ds_tas) ;;
  let gmst := global_mean_series (ds_year ds_tas) lat_t lon_t tas in
  rsdt <- getitem "rsdt" (ds_vars ds_rad) ;;
  rsut <- getitem "rsut" (ds_vars ds_rad) ;;
  rlut <- getitem "rlut" (ds_vars ds_rad) ;;
  lat_r <- coordinate "lat" ds_rad ;;
  lon_r <- coordinate "lon" ds_rad ;;
  let imbalance :=
    global_mean_series (ds_year ds_rad) lat_r lon_r (net_toa rsdt rsut rlut) in
  Ok {| ds_dict := dict_set name ds_tas (ds_dict st);
        gmst_dict := dict_set name (squeeze gmst) (gmst_dict st);
        imbalance_dict := dict_set name (squeeze imbalance) (imbalance_dict st) |}.

(** The body of [for name, ds_rad in dset_dict_rad.items()].  The flux
    test reads [dset_dict_rad[name]], which is [ds_rad]. *)
Definition reduce_run (dset_dict_tas : dict Dataset)
    (item : string * Dataset) (st : Reduced) : result Reduced :=
  let name := fst item in
  let ds_rad := snd item in
  _ <- model_name_of name ;;
  if negb (has_fluxes ds_rad) then Ok st            (* continue *)
  else
    ds_tas <- getitem name dset_dict_tas ;;
    '(ds_rad, ds_tas) <- reconcile ds_rad ds_tas ;;
    spatial_averages name (drop_redundant ds_rad) (drop_redundant ds_tas) st.

Definition reduce_all (dset_dict_rad dset_dict_tas : dict Dataset) : result Reduced :=
  for_each (reduce_run dset_dict_tas) dset_dict_rad
    {| ds_dict := []; gmst_dict := []; imbalance_dict := [] |}.

(** The dataset carries its grid under the short names. *)
Definition has_grid (ds : Dataset) : bool :=
  dict_mem "lat" (ds_coords ds) && dict_mem "lon" (ds_coords ds).

(** A run that has what the loop body reads, under the short names: a key
    with a model component and, unless the run lacks a flux, no renaming
    to do, the three fluxes as data variables, a temperature dataset with
    the variable [tas], and the grid of both. *)
Definition reducible (dset_dict_tas : dict Dataset) (item : string * Dataset) : bool :=
  let name := fst item in
  let ds_rad := snd item in
  (2 <=? count_char "."%char name)%nat &&
  (negb (has_fluxes ds_rad) ||
   negb (needs_rename ds_rad) && has_grid ds_rad &&
   dict_mem "rsdt" (ds_vars ds_rad) && dict_mem "rsut" (ds_vars ds_rad) &&
   dict_mem "rlut" (ds_vars ds_rad) &&
   match dict_get name dset_dict_tas with
   | Some ds_tas => has_grid ds_tas && dict_mem "tas" (ds_vars ds_tas)
   | None => false
   end).

(** *** Cell: split the reduced datasets into [ctrl_dict] and [abrupt_dict] *)

(** The body of the two passes over [ds_dict.items()]. *)
Definition select_dataset (tag : string) (allowed : string -> bool)
    (item : string * Dataset) (acc : dict Dataset) : result (dict Dataset) :=
  let name := fst item in
  let ds := snd item in
  model_name <- model_name_of name ;;
  if negb (contains tag name) || negb (allowed model_name) then Ok acc   (* continue *)
  else Ok (dict_set model_name ds acc).

(** Control runs; then abrupt runs of models with a control run.  This
    cell has no third pass. *)
Definition split_datasets (ds_dict : dict Dataset) : result (dict Dataset * dict Dataset) :=
  ctrl_dict <- for_each (select_dataset "piControl" (fun _ => true)) ds_dict [] ;;
  abrupt_dict <- for_each (select_dataset "abrupt-4xCO2" (fun m => dict_mem m ctrl_dict))
                   ds_dict [] ;;
  Ok (ctrl_dict, abrupt_dict).

(** *** Cell: split the runs into [piControl] and [abrupt-4xCO2] *)

(** The body shared by the three passes over [gmst_dict.items()]: keep the
    run when its key contains [tag] and its model is [allowed]. *)
Definition select_run (tag : string) (allowed : string -> bool)
    (imbalance_dict : dict Series) (item : string * Series)
    (acc : dict Series * dict Series) : result (dict Series * dict Series) :=
  let name := fst item in
  let gmst := snd item in
  model_name <- model_name_of name ;;
  if negb (contains tag name) || negb (allowed model_name) then Ok acc   (* continue *)
  else
    imbalance <- getitem name imbalance_dict ;;
    Ok (dict_set model_name gmst (fst acc), dict_set model_name imbalance (snd acc)).

Definition select_runs (tag : string) (allowed : string -> bool)
    (gmst_dict imbalance_dict : dict Series) : result (dict Series * dict Series) :=
  for_each (select_run tag allowed imbalance_dict) gmst_dict ([], []).

Record Runs : Type := mkRuns {
  ctrl_gmst_dict : dict Series;
  ctrl_imbalance_dict : dict Series;
  abrupt_gmst_dict : dict Series;
  abrupt_imbalance_dict : dict Series
}.

(** Control runs; then abrupt runs of models with a control run; then,
    from scratch, control runs of models with an abrupt run. *)
Definition split_runs (gmst_dict imbalance_dict : dict Series) : result Runs :=
  ctrl0 <- select_runs "piControl" (fun _ => true) gmst_dict imbalance_dict ;;
  abrupt <- select_runs "abrupt-4xCO2" (fun m => dict_mem m (fst ctrl0))
              gmst_dict imbalance_dict ;;
  ctrl <- select_runs "piControl" (fun m => dict_mem m (fst abrupt))
            gmst_dict imbalance_dict ;;
  Ok {| ctrl_gmst_dict := fst ctrl; ctrl_imbalance_dict := snd ctrl;
        abrupt_gmst_dict := fst abrupt; abrupt_imbalance_dict := snd abrupt |}.

(** The collection holds a run of model [m] whose key contains [tag]: the
    notebook recognises an experiment by this substring test. *)
Definition has_run (tag : string) (gmst_dict : dict Series) (m : string) : Prop :=
  exists name, In name (dict_keys gmst_dict) /\ contains tag name = true /\
               model_name_of name = Ok m.

(** A model with both a control run and a quadrupling run. *)
Definition eligible (gmst_dict : dict Series) (m : string) : Prop :=
  has_run "piControl" gmst_dict m /\ has_run "abrupt-4xCO2" gmst_dict m.

(** *** Cell: annual means, anomalies, fit, ECS *)

(** The distinct years of a series in ascending order (the group labels
    of [groupby('time.year')]). *)
Fixpoint insert_year (y : Z) (ys : list Z) : list Z :=
  match ys with
  | [] => [y]
  | z :: rest =>
      if (y <? z)%Z then y :: ys
      else if (y =? z)%Z then ys
      else z :: insert_year y rest
  end.

Definition years_of (s : Series) : list Z :=
  fold_right insert_year [] (map fst s).

(** The annual means of a series: one value per calendar year, in
    ascending order of year. *)
Definition groupby_year_mean (s : Series) : list F :=
  map (fun y => fmean (map snd (filter (fun p => (fst p =? y)%Z) s))) (years_of s).

(** The stored series is a 0-d array: it had one time step, and [squeeze]
    has dropped its time dimension. *)
Definition is_0d (s : Series) : bool := (List.length s =? 1)%nat.

(** [s.groupby('time.year').mean(dim='time')].  xarray groups along a
    dimension: it raises [ValueError] for a 0-d array, which has none, and
    for a series without time steps. *)
Definition groupby_year (s : Series) : result (list F) :=
  if is_0d s then Raise ValueError
  else if (List.length s =? 0)%nat then Raise ValueError
  else Ok (groupby_year_mean s).

(** [abrupt - ctrl.isel(year=slice(y0, y1)).mean(dim='year')] *)
Definition anomaly (limits : nat * nat) (abrupt ctrl : list F) : list F :=
  let baseline := fmean (slice (fst limits) (snd limits) ctrl) in
  map (fun s => fsub s baseline) abrupt.

(** What [l.isel(year=slice(y0, y1))] holds, position by position: the
    entries [y0 .. y1-1] of [l], as far as [l] goes. *)
Definition is_window (y0 y1 : nat) (l w : list F) : Prop :=
  forall k, nth_error w k = if (k <? y1 - y0)%nat then nth_error l (y0 + k)%nat else None.

(** [b/(-a) / 2.0] *)
Definition ECS_of_fit (a b : F) : F :=
  fdiv (fdiv b (fopp a)) ftwo.

Record Results : Type := mkResults {
  ECS : dict F;
  ctrl_gmst : dict (list F);
  ctrl_imbalance : dict (list F);
  abrupt_gmst : dict (list F);
  abrupt_imbalance : dict (list F)
}.

Definition no_results : Results :=
  {| ECS := []; ctrl_gmst := []; ctrl_imbalance := [];
     abrupt_gmst := []; abrupt_imbalance := [] |}.

(** The body of [for name in ctrl_gmst_dict.keys()]. *)
Definition ecs_step (limits : nat * nat) (runs : Runs) (name : string)
    (res : Results) : result Results :=
  cg <- getitem name (ctrl_gmst_dict runs) ;;
  ctrl_g <- groupby_year cg ;;
  ci <- getitem name (ctrl_imbalance_dict runs) ;;
  ctrl_i <- groupby_year ci ;;
  ag <- getitem name (abrupt_gmst_dict runs) ;;
  abrupt_g <- groupby_year ag ;;
  let anom_g := anomaly limits abrupt_g ctrl_g in
  ai <- getitem name (abrupt_imbalance_dict runs) ;;
  abrupt_i <- groupby_year ai ;;
  let anom_i := anomaly limits abrupt_i ctrl_i in
  let res' :=
    {| ECS := ECS res;
       ctrl_gmst := dict_set name ctrl_g (ctrl_gmst res);
       ctrl_imbalance := dict_set name ctrl_i (ctrl_imbalance res);
       abrupt_gmst := dict_set name anom_g (abrupt_gmst res);
       abrupt_imbalance := dict_set name anom_i (abrupt_imbalance res) |} in
  if (snd limits <=? List.length anom_i)%nat then
    let y_data := slice (fst limits) (snd limits) anom_i in
    let x_data := slice (fst limits) (snd limits) anom_g in
    '(a, b) <- polyfit x_data y_data ;;
    Ok {| ECS := dict_set name (ECS_of_fit a b) (ECS res');
          ctrl_gmst := ctrl_gmst res';
          ctrl_imbalance := ctrl_imbalance res';
          abrupt_gmst := abrupt_gmst res';
          abrupt_imbalance := abrupt_imbalance res' |}
  else Ok res'.

Definition estimate_ecs (limits : nat * nat) (runs : Runs) : result Results :=
  for_each (ecs_step limits runs) (dict_keys (ctrl_gmst_dict runs)) no_results.

(** The four series of model [m] can be grouped by year: each has a time
    dimension, that is, at least two time steps. *)
Definition has_annual_series (runs : Runs) (m : string) : Prop :=
  forall s,
    dict_get m (ctrl_gmst_dict runs) = Some s \/
    dict_get m (ctrl_imbalance_dict runs) = Some s \/
    dict_get m (abrupt_gmst_dict runs) = Some s \/
    dict_get m (abrupt_imbalance_dict runs) = Some s ->
    (2 <= List.length s)%nat.

(** A series of model [m] that cannot be grouped by year: it has at most
    one time step. *)
Definition short_series (runs : Runs) (m : string) (s : Series) : Prop :=
  (dict_get m (ctrl_gmst_dict runs) = Some s \/
   dict_get m (ctrl_imbalance_dict runs) = Some s \/
   dict_get m (abrupt_gmst_dict runs) = Some s \/
   dict_get m (abrupt_imbalance_dict runs) = Some s) /\
  (List.length s <= 1)%nat.

(** The imbalance anomaly series of model [m] has at least [limits[1]]
    time steps: the condition the loop tests before fitting. *)
Definition long_enough (limits : nat * nat) (runs : Runs) (m : string) : Prop :=
  exists ai ci,
    dict_get m (abrupt_imbalance_dict runs) = Some ai /\
    dict_get m (ctrl_imbalance_dict runs) = Some ci /\
    (snd limits <=
     List.length (anomaly limits (groupby_year_mean ai) (groupby_year_mean ci)))%nat.

(** [np.polyfit] returns on the window of model [m]. *)
Definition fit_returns (limits : nat * nat) (runs : Runs) (m : string) : Prop :=
  forall cg ci ag ai,
    dict_get m (ctrl_gmst_dict runs) = Some cg ->
    dict_get m (ctrl_imbalance_dict runs) = Some ci ->
    dict_get m (abrupt_gmst_dict runs) = Some ag ->
    dict_get m (abrupt_imbalance_dict runs) = Some ai ->
    exists a b,
      polyfit
        (slice (fst limits) (snd limits)
           (anomaly limits (groupby_year_mean ag) (groupby_year_mean cg)))
        (slice (fst limits) (snd limits)
           (anomaly limits (groupby_year_mean ai) (groupby_year_mean ci))) = Ok (a, b).

(** What the loop has stored for model [m]: its two annual control
    series, its two anomaly series and, when its imbalance anomaly series
    has at least [limits[1]] time steps, the ECS derived from the fit over
    the window. *)
Definition stored_for (limits : nat * nat) (runs : Runs) (res : Results) (m : string)
  : Prop :=
  exists cg ci ag ai,
    dict_get m (ctrl_gmst_dict runs) = Some cg /\
    dict_get m (ctrl_imbalance_dict runs) = Some ci /\
    dict_get m (abrupt_gmst_dict runs) = Some ag /\
    dict_get m (abrupt_imbalance_dict runs) = Some ai /\
    dict_get m (ctrl_gmst res) = Some (groupby_year_mean cg) /\
    dict_get m (ctrl_imbalance res) = Some (groupby_year_mean ci) /\
    dict_get m (abrupt_gmst res)
      = Some (anomaly limits (groupby_year_mean ag) (groupby_year_mean cg)) /\
    dict_get m (abrupt_imbalance res)
      = Some (anomaly limits (groupby_year_mean ai) (groupby_year_mean ci)) /\
    ((snd limits <=
      List.length (anomaly limits (groupby_year_mean ai) (groupby_year_mean ci)))%nat ->
     exists a b,
       polyfit
         (slice (fst limits) (snd limits)
            (anomaly limits (groupby_year_mean ag) (groupby_year_mean cg)))
         (slice (fst limits) (snd limits)
            (anomaly limits (groupby_year_mean ai) (groupby_year_mean ci))) = Ok (a, b) /\
       dict_get m (ECS res) = Some (ECS_of_fit a b)).

(** The single-model example cell: the baseline is the mean of the whole
    annual control series. *)
Definition example_anomaly (abrupt ctrl : list F) : list F :=
  map (fun s => fsub s (fmean ctrl)) abrupt.

(** The four variables the example cell assigns. *)
Record Example : Type := mkExample {
  ex_ctrl_gmst : list F;
  ex_ctrl_imbalance : list F;
  ex_abrupt_gmst : list F;
  ex_abrupt_imbalance : list F
}.

(** The body of [for name in ctrl_gmst_dict.keys(): if model == name: ...];
    the state is [None] as long as the variables are unassigned. *)
Definition example_step (model : string) (runs : Runs) (name : string)
    (st : option Example) : result (option Example) :=
  if String.eqb model name then
    cg <- getitem name (ctrl_gmst_dict runs) ;;
    ctrl_g <- groupby_year cg ;;
    ci <- getitem name (ctrl_imbalance_dict runs) ;;
    ctrl_i <- groupby_year ci ;;
    ag <- getitem name (abrupt_gmst_dict runs) ;;
    abrupt_g <- groupby_year ag ;;
    ai <- getitem name (abrupt_imbalance_dict runs) ;;
    abrupt_i <- groupby_year ai ;;
    Ok (Some {| ex_ctrl_gmst := ctrl_g;
                ex_ctrl_imbalance := ctrl_i;
                ex_abrupt_gmst := example_anomaly abrupt_g ctrl_g;
                ex_abrupt_imbalance := example_anomaly abrupt_i ctrl_i |})
  else Ok st.

Definition example_cell (model : string) (runs : Runs) : result (option Example) :=
  for_each (example_step model runs) (dict_keys (ctrl_gmst_dict runs)) None.

(** The example's fit and the value it prints: [twoECS = b/(-a)], then
    [twoECS/2.].  There is no size test here. *)
Definition example_ecs (limits : nat * nat) (ex : Example) : result F :=
  let y_data := slice (fst limits) (snd limits) (ex_abrupt_imbalance ex) in
  let x_data := slice (fst limits) (snd limits) (ex_abrupt_gmst ex) in
  '(a, b) <- polyfit x_data y_data ;;
  let twoECS := fdiv b (fopp a) in
  Ok (fdiv twoECS ftwo).

(** *** Cell: order the models by ECS *)

(** [sorted(items, key=lambda x: x[1])] is CPython's [list.sort] (as of
    Python 3.7), which compares keys with [<] only.  A list of fewer than
    64 items, and the ECS mapping of a model ensemble is one, is sorted in
    two steps:
    - [count_run]: the run the list starts with is found, ascending (no
      item less than the one before it) or strictly descending, and a
      descending run is reversed;
    - [binarysort]: each later item is put into the sorted front part, at
      the position a bisection finds for it.
    A longer list is cut into runs sorted in this way, which are then
    merged; the merging is not embedded. *)

(** How many of the items [l] continue a run whose last key is [prev]. *)
Fixpoint run_tail (descending : bool) (prev : F) (l : list (string * F)) : nat :=
  match l with
  | [] => 0%nat
  | q :: rest =>
      if Bool.eqb (fltb (snd q) prev) descending
      then S (run_tail descending (snd q) rest)
      else 0%nat
  end.

(** The length of the initial run, and whether it descends. *)
Definition count_run (l : list (string * F)) : nat * bool :=
  match l with
  | [] => (0%nat, false)
  | p :: l' =>
      match l' with
      | [] => (1%nat, false)
      | q :: rest =>
          let descending := fltb (snd q) (snd p) in
          (S (S (run_tail descending (snd q) rest)), descending)
      end
  end.

(** The bisection: [while l < r: p = l + ((r - l) >> 1); if pivot < pre[p]:
    r = p else: l = p + 1].  It ends within [r - l] rounds. *)
Fixpoint bisect (rounds : nat) (pivot : F) (pre : list (string * F)) (l r : nat) : nat :=
  match rounds with
  | O => l
  | S rounds' =>
      if (l <? r)%nat then
        let p := (l + (r - l) / 2)%nat in
        match nth_error pre p with
        | Some q =>
            if fltb pivot (snd q) then bisect rounds' pivot pre l p
            else bisect rounds' pivot pre (S p) r
        | None => l
        end
      else l
  end.

(** One round of [binarysort]: the item [p] is moved into the sorted front
    part [pre]. *)
Definition binary_insert (pre : list (string * F)) (p : string * F) : list (string * F) :=
  let l := bisect (List.length pre) (snd p) pre 0 (List.length pre) in
  firstn l pre ++ p :: skipn l pre.

Definition binarysort (pre rest : list (string * F)) : list (string * F) :=
  fold_left binary_insert rest pre.

Definition sorted_by_value (items : list (string * F)) : list (string * F) :=
  let (n, descending) := count_run items in
  let run := firstn n items in
  binarysort (if descending then rev run else run) (skipn n items).

(** [{ pair[0]:pair[1] for pair in tmp }] *)
Definition dict_of_pairs (pairs : list (string * F)) : dict F :=
  fold_left (fun d p => dict_set (fst p) (snd p) d) pairs [].

Definition ordered_ECS (ecs : dict F) : dict F :=
  dict_of_pairs (sorted_by_value ecs).

(** *** Cell: histogram of the ECS values *)

(** [max(l)]: Python keeps the first item and replaces it by every later
    item that compares greater; [max] of an empty list raises
    [ValueError]. *)
Definition py_max (l : list F) : result F :=
  match l with
  | [] => Raise ValueError
  | x :: rest => Ok (fold_left (fun m y => if fltb m y then y else m) rest x)
  end.

(** *** The cells in sequence *)

Definition notebook (limits : nat * nat) (dset_dict_rad dset_dict_tas : dict Dataset)
  : result Results :=
  reduced <- reduce_all dset_dict_rad dset_dict_tas ;;
  runs <- split_runs (gmst_dict reduced) (imbalance_dict reduced) ;;
  estimate_ecs limits runs.

End Notebook.

Arguments Series F : clear implicits.
Arguments Dataset F : clear implicits.
Arguments Reduced F : clear implicits.
Arguments Runs F : clear implicits.
Arguments Results F : clear implicits.
Arguments Example F : clear implicits.

(** Ascending order of ECS value (exact arithmetic). *)
Definition value_le (p q : string * Q) : Prop := (snd p <= snd q)%Q.

(** Ascending order of ECS value, and the entries of a given value, in
    binary64: [<=] and [==] on floats. *)
Definition float_le (p q : string * float) : Prop :=
  PrimFloat.leb (snd p) (snd q) = true.

Definition has_float (v : float) (p : string * float) : bool :=
  PrimFloat.eqb (snd p) v.

(** The number a binary64 value stands for, in lowest terms; the
    infinities and NaN stand for none. *)
Definition float_value (x : float) : option Q :=
  match Prim2SF x with
  | S754_zero _ => Some 0%Q
  | S754_finite s m e =>
      Some (Qred (inject_Z (if s then Z.neg m else Z.pos m) * Qpower 2 e))%Q
  | S754_infinity _ | S754_nan => None
  end.

(** In any arithmetic, as the sort sees it: the entry [q] is not below the
    entry [p]; the entry [q] has the value [v], neither being less than the
    other. *)
Definition key_le {F : Type} {AF : Arith F} (p q : string * F) : Prop :=
  fltb (snd q) (snd p) = false.

Definition same_key {F : Type} {AF : Arith F} (v : F) (q : string * F) : bool :=
  negb (fltb (snd q) v) && negb (fltb v (snd q)).

(** Every value of the entries [l] is among the values [ok]. *)
Definition keys_ok {F : Type} (ok : F -> Prop) (l : list (string * F)) : Prop :=
  Forall (fun p => ok (snd p)) l.

(** The window set in the notebook's first cell. *)
Definition gregory_limits : nat * nat := (0, 150)%nat.

(** [np.arange(start, stop, step)] in exact arithmetic:
    [ceil((stop - start) / step)] values, [start + i * step]. *)
Definition arange_exact (start stop step : Q) : list Q :=
  map (fun i => (start + inject_Z (Z.of_nat i) * step)%Q)
      (seq 0 (Z.to_nat (Qceiling ((stop - start) / step)))).

(** The bin edges of the histogram cell:
    [np.arange(0, max(list(results['ECS'].values())) + 1.0, 1.0)]. *)
Definition hist_bins (ecs : dict Q) : result (list Q) :=
  m <- py_max (map snd ecs) ;;
  Ok (arange_exact 0 (m + 1) 1).

(* ================================================================== *)
(** ** [np.polyfit(x, y, 1)] in exact arithmetic                       *)
(* ================================================================== *)

Section ExactFit.

(** What comes back when every abscissa is 0 is left open: numpy divides
    the column of abscissae by its norm, here 0, and hands LAPACK a matrix
    of NaN. *)
Variable zero_abscissae : list Q -> list Q -> result (Q * Q).

(** numpy rejects an empty [x] and vectors of different length.  Otherwise
    it solves the least-squares problem for the two columns [x] and [1],
    each divided by its norm, and returns the coefficients, highest power
    first.
    - [x] takes two values: the minimiser is unique, the solution of the
      normal equations, with [d = n * sum x^2 - (sum x)^2].
    - Every abscissa is the same [c <> 0]: the two scaled columns are equal
      up to sign, numpy warns that the fit may be poorly conditioned, and
      LAPACK returns the minimiser of least norm in the scaled unknowns:
      slope [mean(y) / (2 c)], intercept [mean(y) / 2]. *)
Definition polyfit_exact (x y : list Q) : result (Q * Q) :=
  if (List.length x =? 0)%nat then Raise TypeError
  else if negb (List.length x =? List.length y)%nat then Raise TypeError
  else
    let n := of_count (List.length x) in
    let sx := fsum x in
    let sy := fsum y in
    let sxx := fsum (map (fun p => fmul (fst p) (snd p)) (combine x x)) in
    let sxy := fsum (map (fun p => fmul (fst p) (snd p)) (combine x y)) in
    let d := fsub (fmul n sxx) (fmul sx sx) in
    if Qeq_bool d 0 then
      let c := hd 0%Q x in
      if Qeq_bool c 0 then zero_abscissae x y
      else Ok (fdiv (fdiv sy n) (fmul ftwo c), fdiv (fdiv sy n) ftwo)
    else Ok (fdiv (fsub (fmul n sxy) (fmul sx sy)) d,
             fdiv (fsub (fmul sxx sy) (fmul sx sxy)) d).

(** The same sums as plain rational expressions, for stating facts. *)
Fixpoint Qsum (l : list Q) : Q :=
  match l with
  | [] => 0%Q
  | x :: rest => (x + Qsum rest)%Q
  end.

Definition dot (x y : list Q) : Q :=
  Qsum (map (fun p => (fst p * snd p)%Q) (combine x y)).

(** Determinant of the normal equations: [n * sum x^2 - (sum x)^2]. *)
Definition normal_det (x : list Q) : Q :=
  (inject_Z (Z.of_nat (List.length x)) * dot x x - Qsum x * Qsum x)%Q.

(** The number of points, as a rational. *)
Definition count (l : list Q) : Q := inject_Z (Z.of_nat (List.length l)).

(** Sum of the squared distances of the elements of [l] to [x]. *)
Definition spread (x : Q) (l : list Q) : Q :=
  Qsum (map (fun y => (y - x) * (y - x))%Q l).

(** The point [(x, y)] lies on the line of slope [a0] and intercept [b0]. *)
Definition on_line (a0 b0 x y : Q) : Prop := (y == a0 * x + b0)%Q.

(** Squared residual of the line [a * x + b]. *)
Definition sq_residual (a b : Q) (x y : list Q) : Q :=
  Qsum (map (fun p => (snd p - (a * fst p + b)) * (snd p - (a * fst p + b)))%Q
            (combine x y)).

End ExactFit.

(* ================================================================== *)
(** ** Concrete inputs                                                 *)
(* ================================================================== *)

(** Small inputs on which the cells are run below. *)
Module Demo.

Local Open Scope Q_scope.

(** Calendar years [0 .. n-1], one time step each. *)
Definition years (n : nat) : list Z := map Z.of_nat (seq 0 n).

Definition const (v : Q) : nat -> nat -> nat -> Q := fun _ _ _ => v.

(** [n] values going linearly from [a] to [b] (np.linspace). *)
Definition ramp (a b : Q) (n : nat) : nat -> nat -> nat -> Q :=
  fun t _ _ => a + (b - a) * (inject_Z (Z.of_nat t) / inject_Z (Z.of_nat (n - 1))).

(** A dataset on the one-cell grid at latitude 0, longitude 0. *)
Definition one_cell (n : nat) (vars : dict (nat -> nat -> nat -> Q)) : Dataset Q :=
  {| ds_dims := [("time", n); ("lat", 1%nat); ("lon", 1%nat)];
     ds_year := years n;
     ds_coords := [("lat", [0]); ("lon", [0])];
     ds_vars := vars |}.

(** The cosine of latitude 0 is 1; no other latitude occurs on [one_cell]. *)
Definition unit_cos : Q -> Q := fun _ => 1.

(** A fit on abscissae that are all 0, never reached by the runs below;
    taken to fail as LAPACK's singular value decomposition does on a matrix
    of NaN. *)
Definition no_fit : list Q -> list Q -> result (Q * Q) := fun _ _ => Raise LinAlgError.

(** *** The end-to-end scenario: control 600 years at T = 0 and imbalance
    5; abrupt 150 years, T from 0 to 4, imbalance from 8 to 0. *)

Definition ctrl_key : string := "CMIP.X.M.piControl.Amon.gn".
Definition abrupt_key : string := "CMIP.X.M.abrupt-4xCO2.Amon.gn".

Definition scenario_rad : dict (Dataset Q) :=
  [(ctrl_key, one_cell 600 [("rsdt", const 5); ("rsut", const 0); ("rlut", const 0)]);
   (abrupt_key, one_cell 150 [("rsdt", ramp 8 0 150); ("rsut", const 0); ("rlut", const 0)])].

Definition scenario_tas : dict (Dataset Q) :=
  [(ctrl_key, one_cell 600 [("tas", const 0)]);
   (abrupt_key, one_cell 150 [("tas", ramp 0 4 150)])].

Definition scenario_limits : nat * nat := (100, 150)%nat.

(** *** A temperature dataset is missing for the first of two runs. *)

Definition two_runs_rad : dict (Dataset Q) :=
  [("CMIP.X.A.piControl.Amon.gn",
    one_cell 2 [("rsdt", const 5); ("rsut", const 1); ("rlut", const 3)]);
   ("CMIP.X.B.piControl.Amon.gn",
    one_cell 2 [("rsdt", const 5); ("rsut", const 1); ("rlut", const 3)])].

Definition only_B_tas : dict (Dataset Q) :=
  [("CMIP.X.B.piControl.Amon.gn", one_cell 2 [("tas", const 0)])].

(** The same two runs, the first now lacking a flux and both having a
    temperature dataset. *)
Definition A_lacks_rlut_rad : dict (Dataset Q) :=
  [("CMIP.X.A.piControl.Amon.gn", one_cell 2 [("rsdt", const 5); ("rsut", const 1)]);
   ("CMIP.X.B.piControl.Amon.gn",
    one_cell 2 [("rsdt", const 5); ("rsut", const 1); ("rlut", const 3)])].

Definition both_tas : dict (Dataset Q) :=
  [("CMIP.X.A.piControl.Amon.gn", one_cell 2 [("tas", const 0)]);
   ("CMIP.X.B.piControl.Amon.gn", one_cell 2 [("tas", const 0)])].

(** *** Three models: A has a control run only; B has both runs but two
    years of quadrupling run; C has both and three years. *)

Definition fluxes (rsdt : nat -> nat -> nat -> Q) : dict (nat -> nat -> nat -> Q) :=
  [("rsdt", rsdt); ("rsut", const 0); ("rlut", const 0)].

Definition three_rad : dict (Dataset Q) :=
  [("CMIP.X.A.piControl.Amon.gn", one_cell 3 (fluxes (const 1)));
   ("CMIP.X.B.piControl.Amon.gn", one_cell 3 (fluxes (const 1)));
   ("CMIP.X.B.abrupt-4xCO2.Amon.gn", one_cell 2 (fluxes (ramp 7 5 2)));
   ("CMIP.X.C.piControl.Amon.gn", one_cell 3 (fluxes (const 1)));
   ("CMIP.X.C.abrupt-4xCO2.Amon.gn", one_cell 3 (fluxes (ramp 7 3 3)))].

Definition three_tas : dict (Dataset Q) :=
  [("CMIP.X.A.piControl.Amon.gn", one_cell 3 [("tas", const 0)]);
   ("CMIP.X.B.piControl.Amon.gn", one_cell 3 [("tas", const 0)]);
   ("CMIP.X.B.abrupt-4xCO2.Amon.gn", one_cell 2 [("tas", ramp 1 2 2)]);
   ("CMIP.X.C.piControl.Amon.gn", one_cell 3 [("tas", const 0)]);
   ("CMIP.X.C.abrupt-4xCO2.Amon.gn", one_cell 3 [("tas", ramp 1 3 3)])].

Definition three_reduced : Reduced Q :=
  Eval vm_compute in
    match reduce_all unit_cos three_rad three_tas with
    | Ok red => red
    | Raise _ => {| ds_dict := []; gmst_dict := []; imbalance_dict := [] |}
    end.

Definition three_limits : nat * nat := (0, 3)%nat.

Definition series (vs : list Q) : Series Q := combine (years (List.length vs)) vs.

(** The runs of model C alone, already split. *)
Definition runs_C : Runs Q :=
  {| ctrl_gmst_dict := [("C", series [0; 0; 0])];
     ctrl_imbalance_dict := [("C", series [1; 1; 1])];
     abrupt_gmst_dict := [("C", series [1; 2; 3])];
     abrupt_imbalance_dict := [("C", series [7; 5; 3])] |}.

Definition step_C : Results Q :=
  Eval vm_compute in
    match ecs_step (polyfit_exact no_fit) three_limits runs_C "C" no_results with
    | Ok res => res
    | Raise _ => no_results
    end.

(** Model C again, its temperature series one year shorter than its
    imbalance series. *)
Definition runs_short_tas : Runs Q :=
  {| ctrl_gmst_dict := [("C", series [0; 0; 0])];
     ctrl_imbalance_dict := [("C", series [1; 1; 1])];
     abrupt_gmst_dict := [("C", series [1; 2])];
     abrupt_imbalance_dict := [("C", series [7; 5; 3])] |}.

(** *** Points on the line [y = 8 - 2 x]. *)

Definition line_X : list Q := [0; 1; 2; 3].
Definition line_Y : list Q := [8; 6; 4; 2].

(** *** A three-latitude grid with uneven weights. *)

Definition lat3 : list Q := [-60; 0; 60].
Definition lon2 : list Q := [0; 180].
Definition rough_cos : Q -> Q := fun x => 1 - x * x / 8100.

(** A field that varies with latitude, longitude and time. *)
Definition tilted (base : Q) : nat -> nat -> nat -> Q :=
  fun t i j => base + inject_Z (Z.of_nat (t + 2 * i + 3 * j)).

(** *** Renaming: the radiation dataset uses the long names, the
    temperature dataset the short ones. *)

Definition rad_long_names : Dataset Q :=
  {| ds_dims := [("time", 1%nat); ("latitude", 1%nat); ("longitude", 1%nat)];
     ds_year := years 1;
     ds_coords := [("latitude", [0]); ("longitude", [0])];
     ds_vars := [("rsdt", const 5); ("rsut", const 1); ("rlut", const 3)] |}.


(** *** The ECS values of the sorting scenario. *)

Definition ecs_ABC : dict Q := [("A", 3.2); ("B", 1.1); ("C", 3.2)].

(** *** Both datasets on the long names, the temperature dataset with a
    [height] coordinate; and what renaming makes of them. *)

Definition tas_long_names : Dataset Q :=
  {| ds_dims := [("time", 1%nat); ("latitude", 1%nat); ("longitude", 1%nat)];
     ds_year := years 1;
     ds_coords := [("latitude", [0]); ("longitude", [0]); ("height", [2])];
     ds_vars := [("tas", const 0)] |}.

Definition rad_renamed : Dataset Q :=
  one_cell 1 [("rsdt", const 5); ("rsut", const 1); ("rlut", const 3)].

Definition tas_renamed : Dataset Q :=
  {| ds_dims := [("time", 1%nat); ("lat", 1%nat); ("lon", 1%nat)];
     ds_year := years 1;
     ds_coords := [("lat", [0]); ("lon", [0]); ("height", [2])];
     ds_vars := [("tas", const 0)] |}.

(** *** One model with two control runs, on two grids, and a quadrupling
    run. *)

Definition twice_gmst : dict (Series Q) :=
  [("CMIP.X.M.piControl.Amon.gn", series [0; 0]);
   ("CMIP.X.M.piControl.Amon.gr", series [5; 5]);
   ("CMIP.X.M.abrupt-4xCO2.Amon.gn", series [1; 2])].

Definition twice_imbalance : dict (Series Q) :=
  [("CMIP.X.M.piControl.Amon.gn", series [1; 1]);
   ("CMIP.X.M.piControl.Amon.gr", series [6; 6]);
   ("CMIP.X.M.abrupt-4xCO2.Amon.gn", series [7; 5])].

Definition twice_runs : Runs Q :=
  {| ctrl_gmst_dict := [("M", series [5; 5])];
     ctrl_imbalance_dict := [("M", series [6; 6])];
     abrupt_gmst_dict := [("M", series [1; 2])];
     abrupt_imbalance_dict := [("M", series [7; 5])] |}.

(** *** A run whose temperature dataset has two years and whose radiation
    dataset has three. *)

Definition uneven_key : string := "CMIP.X.C.abrupt-4xCO2.Amon.gn".

Definition uneven_rad : Dataset Q := one_cell 3 (fluxes (ramp 7 3 3)).

Definition uneven_tas : dict (Dataset Q) :=
  [(uneven_key, one_cell 2 [("tas", ramp 1 2 2)])].

Definition nothing_reduced : Reduced Q :=
  {| ds_dict := []; gmst_dict := []; imbalance_dict := [] |}.

Definition uneven_reduced : Reduced Q :=
  Eval vm_compute in
    match reduce_run unit_cos uneven_tas (uneven_key, uneven_rad) nothing_reduced with
    | Ok red => red
    | Raise _ => nothing_reduced
    end.

(** *** A window without years. *)

Definition empty_limits : nat * nat := (2, 2)%nat.

(** *** A control run that drifts, and a window inside it. *)

Definition inner_limits : nat * nat := (1, 3)%nat.

Definition runs_W : Runs Q :=
  {| ctrl_gmst_dict := [("W", series [0; 10; 20; 60])];
     ctrl_imbalance_dict := [("W", series [1; 3; 5; 11])];
     abrupt_gmst_dict := [("W", series [1; 2; 3; 4])];
     abrupt_imbalance_dict := [("W", series [7; 5; 3; 1])] |}.

Definition step_W : Results Q :=
  Eval vm_compute in
    match ecs_step (polyfit_exact no_fit) inner_limits runs_W "W" no_results with
    | Ok res => res
    | Raise _ => no_results
    end.

(** Points on the line [y = 8 - 2 x] inside the window [1, 3) only. *)
Definition bent_X : list Q := [5; 1; 2; 9].
Definition bent_Y : list Q := [0; 6; 4; 7].

(** *** Three models with both runs; the quadrupling run of the second
    has a single time step. *)

Definition one_step_rad : dict (Dataset Q) :=
  [("CMIP.X.C.piControl.Amon.gn", one_cell 3 (fluxes (const 1)));
   ("CMIP.X.C.abrupt-4xCO2.Amon.gn", one_cell 3 (fluxes (ramp 7 3 3)));
   ("CMIP.X.S.piControl.Amon.gn", one_cell 3 (fluxes (const 1)));
   ("CMIP.X.S.abrupt-4xCO2.Amon.gn", one_cell 1 (fluxes (const 7)));
   ("CMIP.X.D.piControl.Amon.gn", one_cell 3 (fluxes (const 1)));
   ("CMIP.X.D.abrupt-4xCO2.Amon.gn", one_cell 3 (fluxes (ramp 7 3 3)))].

Definition one_step_tas : dict (Dataset Q) :=
  [("CMIP.X.C.piControl.Amon.gn", one_cell 3 [("tas", const 0)]);
   ("CMIP.X.C.abrupt-4xCO2.Amon.gn", one_cell 3 [("tas", ramp 1 3 3)]);
   ("CMIP.X.S.piControl.Amon.gn", one_cell 3 [("tas", const 0)]);
   ("CMIP.X.S.abrupt-4xCO2.Amon.gn", one_cell 1 [("tas", const 1)]);
   ("CMIP.X.D.piControl.Amon.gn", one_cell 3 [("tas", const 0)]);
   ("CMIP.X.D.abrupt-4xCO2.Amon.gn", one_cell 3 [("tas", ramp 1 3 3)])].

Definition no_runs : Runs Q :=
  {| ctrl_gmst_dict := []; ctrl_imbalance_dict := [];
     abrupt_gmst_dict := []; abrupt_imbalance_dict := [] |}.

(** The series of the three models, reduced and split. *)
Definition one_step_runs : Runs Q :=
  Eval vm_compute in
    match reduce_all unit_cos one_step_rad one_step_tas with
    | Ok red =>
        match split_runs (gmst_dict red) (imbalance_dict red) with
        | Ok runs => runs
        | Raise _ => no_runs
        end
    | Raise _ => no_runs
    end.

(** What the loop holds after model C. *)
Definition one_step_after_C : Results Q :=
  Eval vm_compute in
    match ecs_step (polyfit_exact no_fit) three_limits one_step_runs "C" no_results with
    | Ok res => res
    | Raise _ => no_results
    end.

(** *** Radiation on [lat]/[lon], temperature on [latitude]/[longitude]. *)



End Demo.

(** The same kind of inputs in binary64.  A decimal literal denotes the
    nearest binary64 value, as it does in Python. *)
Set Warnings "-inexact-float".

Module Demo64.

Local Open Scope float_scope.

(** Latitude 0 only, so every weight is [cos 0 = 1]. *)
Definition unit_cos : float -> float := fun _ => 1.

Definition equator : list float := [0].
Definition lon3 : list float := [0; 120; 240].
Definition lon2 : list float := [0; 180].

Definition tenth : nat -> nat -> nat -> float := fun _ _ _ => 0.1.

(** Fluxes in W/m2 at the two grid points. *)
Definition at_lon (v0 v1 : float) : nat -> nat -> nat -> float :=
  fun _ _ j => match j with O => v0 | _ => v1 end.

Definition rsdt2 := at_lon 340.1 340.3.
Definition rsut2 := at_lon 100.2 99.7.
Definition rlut2 := at_lon 239.6 240.1.

Definition ecs_ABC : dict float := [("A", 3.2); ("B", 1.1); ("C", 3.2)].

(** An ECS mapping with a NaN in it (a fit that returned [a = 0, b = 0]). *)
Definition ecs_nan : dict float := [("A", 3); ("B", nan); ("C", 1)].

Definition series (vs : list float) : Series float :=
  combine (map Z.of_nat (seq 0 (List.length vs))) vs.

End Demo64.

(* ================================================================== *)
(** * Properties                                                       *)
(* ================================================================== *)

(** ** Dictionaries *)

Section DictFacts.

Variable V : Type.
Implicit Types (d : dict V) (k : string) (v : V).

Lemma dict_get_set_eq k v d : dict_get k (dict_set k v d) = Some v.
Proof.
  induction d as [|[k' v'] d IH]; simpl.
  - now rewrite String.eqb_refl.
  - destruct (String.eqb k k') eqn:E; simpl.
    + now rewrite String.eqb_refl.
    + now rewrite E.
Qed.

Lemma dict_get_set_neq k k' v d :
  k <> k' -> dict_get k' (dict_set k v d) = dict_get k' d.
Proof.
  intros Hne. induction d as [|[k0 v0] d IH]; simpl.
  - destruct (String.eqb_spec k' k); congruence.
  - destruct (String.eqb_spec k k0) as [->|Hk]; simpl.
    + destruct (String.eqb_spec k' k0); congruence.
    + destruct (String.eqb_spec k' k0); congruence.
Qed.

Lemma dict_keys_set k k' v d :
  In k' (dict_keys (dict_set k v d)) <-> k' = k \/ In k' (dict_keys d).
Proof.
  unfold dict_keys. induction d as [|[k0 v0] d IH]; simpl.
  - intuition.
  - destruct (String.eqb_spec k k0) as [->|Hk]; simpl; intuition.
Qed.

Lemma dict_get_some_key k d v : dict_get k d = Some v -> In k (dict_keys d).
Proof.
  unfold dict_keys. induction d as [|[k0 v0] d IH]; simpl; [discriminate|].
  destruct (String.eqb_spec k k0); auto.
Qed.

Lemma dict_key_get k d : In k (dict_keys d) -> exists v, dict_get k d = Some v.
Proof.
  unfold dict_keys. induction d as [|[k0 v0] d IH]; simpl; [intros []|].
  intros [->|Hin].
  - rewrite String.eqb_refl; eauto.
  - destruct (String.eqb k k0); eauto.
Qed.

Lemma dict_mem_keys k d : dict_mem k d = true <-> In k (dict_keys d).
Proof.
  unfold dict_mem. split.
  - destruct (dict_get k d) eqn:E; [intros _; eapply dict_get_some_key; eauto | discriminate].
  - intros H. destruct (dict_key_get _ _ H) as [v ->]. reflexivity.
Qed.

Lemma dict_set_NoDup k v d : NoDup (dict_keys d) -> NoDup (dict_keys (dict_set k v d)).
Proof.
  unfold dict_keys. induction d as [|[k0 v0] d IH]; simpl; intros Hnd.
  - constructor; [tauto | constructor].
  - inversion Hnd as [|? ? Hnotin Hnd']; subst.
    destruct (String.eqb_spec k k0) as [->|Hk]; simpl.
    + now constructor.
    + constructor; auto.
      intros Hin. apply (dict_keys_set k k0 v d) in Hin.
      destruct Hin as [Heq|Hin]; [congruence | exact (Hnotin Hin)].
Qed.

Lemma getitem_ok k d v : getitem k d = Ok v <-> dict_get k d = Some v.
Proof.
  unfold getitem. destruct (dict_get k d); split; intros H; inversion H; reflexivity.
Qed.

End DictFacts.

(** The keys after an assignment depend on the keys before it only. *)
Lemma dict_keys_set_same_keys (V W : Type) k (v : V) (w : W) (d : dict V) (e : dict W) :
  dict_keys d = dict_keys e ->
  dict_keys (dict_set k v d) = dict_keys (dict_set k w e).
Proof.
  unfold dict_keys. revert e.
  induction d as [|[k1 v1] d IH]; intros [|[k2 w2] e] Hk; simpl in *;
    try discriminate; [reflexivity|].
  injection Hk as -> Hk.
  destruct (String.eqb k k2); simpl; [now rewrite Hk | f_equal; now apply IH].
Qed.

Lemma bind_ok {A B : Type} (c : result A) (k : A -> result B) (b : B) :
  bind c k = Ok b -> exists a, c = Ok a /\ k a = Ok b.
Proof. destruct c; simpl; [eauto | discriminate]. Qed.

(** ** The per-model step, inverted *)

Section StepFacts.

Context {F : Type} {AF : Arith F}.
Variable polyfit : list F -> list F -> result (F * F).

Lemma groupby_year_ok (s : Series F) (l : list F) :
  groupby_year s = Ok l <-> (2 <= List.length s)%nat /\ l = groupby_year_mean s.
Proof.
  unfold groupby_year, is_0d.
  destruct (List.length s) as [|[|n]]; simpl; split;
    try discriminate; try (intros [H _]; lia).
  - injection 1 as <-. split; [lia | reflexivity].
  - intros [_ ->]. reflexivity.
Qed.

Lemma groupby_year_long (s : Series F) :
  (2 <= List.length s)%nat -> groupby_year s = Ok (groupby_year_mean s).
Proof. intros H. now apply groupby_year_ok. Qed.

Lemma groupby_year_raises (s : Series F) e :
  groupby_year s = Raise e -> e = ValueError /\ (List.length s <= 1)%nat.
Proof.
  unfold groupby_year, is_0d. destruct (List.length s) as [|[|n]]; simpl;
    try discriminate; injection 1 as <-; split; auto.
Qed.

(** The step of a model whose four series can be grouped, written with the
    annual means. *)
Lemma ecs_step_annual limits (runs : Runs F) name (res : Results F) cg ci ag ai :
  dict_get name (ctrl_gmst_dict runs) = Some cg ->
  dict_get name (ctrl_imbalance_dict runs) = Some ci ->
  dict_get name (abrupt_gmst_dict runs) = Some ag ->
  dict_get name (abrupt_imbalance_dict runs) = Some ai ->
  has_annual_series runs name ->
  ecs_step polyfit limits runs name res =
  let ctrl_g := groupby_year_mean cg in
  let ctrl_i := groupby_year_mean ci in
  let anom_g := anomaly limits (groupby_year_mean ag) ctrl_g in
  let anom_i := anomaly limits (groupby_year_mean ai) ctrl_i in
  let res' :=
    {| ECS := ECS res;
       ctrl_gmst := dict_set name ctrl_g (ctrl_gmst res);
       ctrl_imbalance := dict_set name ctrl_i (ctrl_imbalance res);
       abrupt_gmst := dict_set name anom_g (abrupt_gmst res);
       abrupt_imbalance := dict_set name anom_i (abrupt_imbalance res) |} in
  if (snd limits <=? List.length anom_i)%nat then
    '(a, b) <- polyfit (slice (fst limits) (snd limits) anom_g)
                       (slice (fst limits) (snd limits) anom_i) ;;
    Ok {| ECS := dict_set name (ECS_of_fit a b) (ECS res');
          ctrl_gmst := ctrl_gmst res';
          ctrl_imbalance := ctrl_imbalance res';
          abrupt_gmst := abrupt_gmst res';
          abrupt_imbalance := abrupt_imbalance res' |}
  else Ok res'.
Proof.
  intros Hcg Hci Hag Hai Hall. unfold ecs_step, getitem.
  rewrite Hcg, Hci, Hag, Hai. cbn [bind].
  rewrite (groupby_year_long cg) by (apply Hall; auto). cbn [bind].
  rewrite (groupby_year_long ci) by (apply Hall; auto). cbn [bind].
  rewrite (groupby_year_long ag) by (apply Hall; auto). cbn [bind].
  rewrite (groupby_year_long ai) by (apply Hall; auto). cbn [bind].
  reflexivity.
Qed.

(** What a step that returns has read, stored and decided. *)
Lemma ecs_step_inv limits (runs : Runs F) name (res res' : Results F) :
  ecs_step polyfit limits runs name res = Ok res' ->
  exists cg ci ag ai,
    dict_get name (ctrl_gmst_dict runs) = Some cg /\
    dict_get name (ctrl_imbalance_dict runs) = Some ci /\
    dict_get name (abrupt_gmst_dict runs) = Some ag /\
    dict_get name (abrupt_imbalance_dict runs) = Some ai /\
    let ctrl_g := groupby_year_mean cg in
    let ctrl_i := groupby_year_mean ci in
    let anom_g := anomaly limits (groupby_year_mean ag) ctrl_g in
    let anom_i := anomaly limits (groupby_year_mean ai) ctrl_i in
    ctrl_gmst res' = dict_set name ctrl_g (ctrl_gmst res) /\
    ctrl_imbalance res' = dict_set name ctrl_i (ctrl_imbalance res) /\
    abrupt_gmst res' = dict_set name anom_g (abrupt_gmst res) /\
    abrupt_imbalance res' = dict_set name anom_i (abrupt_imbalance res) /\
    (((snd limits <=? List.length anom_i)%nat = true /\
      exists a b,
        polyfit (slice (fst limits) (snd limits) anom_g)
                (slice (fst limits) (snd limits) anom_i) = Ok (a, b) /\
        ECS res' = dict_set name (ECS_of_fit a b) (ECS res))
     \/
     ((snd limits <=? List.length anom_i)%nat = false /\ ECS res' = ECS res)).
Proof.
  unfold ecs_step. intros H.
  apply bind_ok in H as (cg & Hcg & H). apply getitem_ok in Hcg.
  apply bind_ok in H as (? & Hg & H). apply groupby_year_ok in Hg as [_ ->].
  apply bind_ok in H as (ci & Hci & H). apply getitem_ok in Hci.
  apply bind_ok in H as (? & Hg & H). apply groupby_year_ok in Hg as [_ ->].
  apply bind_ok in H as (ag & Hag & H). apply getitem_ok in Hag.
  apply bind_ok in H as (? & Hg & H). apply groupby_year_ok in Hg as [_ ->].
  apply bind_ok in H as (ai & Hai & H). apply getitem_ok in Hai.
  apply bind_ok in H as (? & Hg & H). apply groupby_year_ok in Hg as [_ ->].
  exists cg, ci, ag, ai. repeat (split; [assumption|]). cbv zeta.
  destruct (snd limits <=? _)%nat eqn:Hguard.
  - apply bind_ok in H as ([a b] & Hfit & H). inversion H; subst; clear H. simpl.
    repeat (split; [reflexivity|]). left. split; [reflexivity|]. now exists a, b.
  - inversion H; subst; clear H. simpl.
    repeat (split; [reflexivity|]). right. now split.
Qed.

(** A step returns only for a model whose series can be grouped. *)
Lemma ecs_step_grouped limits (runs : Runs F) name (res res' : Results F) :
  ecs_step polyfit limits runs name res = Ok res' -> has_annual_series runs name.
Proof.
  unfold ecs_step. intros H.
  apply bind_ok in H as (cg & Hcg & H). apply getitem_ok in Hcg.
  apply bind_ok in H as (? & Hg & H). apply groupby_year_ok in Hg as [Hlcg _].
  apply bind_ok in H as (ci & Hci & H). apply getitem_ok in Hci.
  apply bind_ok in H as (? & Hg & H). apply groupby_year_ok in Hg as [Hlci _].
  apply bind_ok in H as (ag & Hag & H). apply getitem_ok in Hag.
  apply bind_ok in H as (? & Hg & H). apply groupby_year_ok in Hg as [Hlag _].
  apply bind_ok in H as (ai & Hai & H). apply getitem_ok in Hai.
  apply bind_ok in H as (? & Hg & _). apply groupby_year_ok in Hg as [Hlai _].
  intros s [Hs|[Hs|[Hs|Hs]]]; congruence.
Qed.

Lemma anomaly_nth_error limits (abrupt ctrl : list F) t :
  nth_error (anomaly limits abrupt ctrl) t =
  option_map (fun s => fsub s (fmean (slice (fst limits) (snd limits) ctrl)))
             (nth_error abrupt t).
Proof. unfold anomaly. apply nth_error_map. Qed.

Lemma anomaly_length limits (abrupt ctrl : list F) :
  List.length (anomaly limits abrupt ctrl) = List.length abrupt.
Proof. unfold anomaly. apply length_map. Qed.

Lemma nth_error_slice (A : Type) (y0 y1 : nat) (l : list A) (k : nat) :
  nth_error (slice y0 y1 l) k =
  if (k <? y1 - y0)%nat then nth_error l (y0 + k)%nat else None.
Proof.
  unfold slice. rewrite nth_error_firstn.
  destruct (k <? y1 - y0)%nat; [apply nth_error_skipn | reflexivity].
Qed.

(** C4, in the per-model loop.  The anomaly stored for a model is, at
    every time step [t], the annual quadrupling-run value minus one scalar,
    the same for every [t]: the mean of the entries of the annual control
    series at the positions [limits[0] .. limits[1]-1].  The temperature
    anomaly and the imbalance anomaly take these positions from the same
    [limits], each in its own control series. *)
Theorem baseline_differencing limits (runs : Runs F) name (res res' : Results F) :
  ecs_step polyfit limits runs name res = Ok res' ->
  exists cg ci ag ai anom_g anom_i window_g window_i,
    dict_get name (ctrl_gmst_dict runs) = Some cg /\
    dict_get name (ctrl_imbalance_dict runs) = Some ci /\
    dict_get name (abrupt_gmst_dict runs) = Some ag /\
    dict_get name (abrupt_imbalance_dict runs) = Some ai /\
    dict_get name (abrupt_gmst res') = Some anom_g /\
    dict_get name (abrupt_imbalance res') = Some anom_i /\
    is_window (fst limits) (snd limits) (groupby_year_mean cg) window_g /\
    is_window (fst limits) (snd limits) (groupby_year_mean ci) window_i /\
    forall t,
      nth_error anom_g t =
        option_map (fun s => fsub s (fmean window_g)) (nth_error (groupby_year_mean ag) t) /\
      nth_error anom_i t =
        option_map (fun s => fsub s (fmean window_i)) (nth_error (groupby_year_mean ai) t).
Proof.
  intros H. apply ecs_step_inv in H as (cg & ci & ag & ai & Hcg & Hci & Hag & Hai & H).
  cbv zeta in H. destruct H as (_ & _ & Hg & Hi & _).
  exists cg, ci, ag, ai. eexists. eexists.
  exists (slice (fst limits) (snd limits) (groupby_year_mean cg)).
  exists (slice (fst limits) (snd limits) (groupby_year_mean ci)).
  repeat (split; [eassumption|]).
  split; [rewrite Hg; apply dict_get_set_eq|].
  split; [rewrite Hi; apply dict_get_set_eq|].
  split; [intros k; apply nth_error_slice|].
  split; [intros k; apply nth_error_slice|].
  intros t. split; apply anomaly_nth_error.
Qed.

(** X3.  The example cell is the same differencing with the window widened
    to the whole control series. *)
Theorem example_anomaly_full_window (abrupt ctrl : list F) :
  example_anomaly abrupt ctrl = anomaly (0, List.length ctrl)%nat abrupt ctrl.
Proof.
  unfold example_anomaly, anomaly, slice. simpl.
  now rewrite Nat.sub_0_r, firstn_all.
Qed.

(** A step whose lookups succeed and whose series is too short for the
    window stores the series and leaves the ECS mapping alone. *)
Lemma ecs_step_skip limits (runs : Runs F) name (res : Results F) cg ci ag ai :
  dict_get name (ctrl_gmst_dict runs) = Some cg ->
  dict_get name (ctrl_imbalance_dict runs) = Some ci ->
  dict_get name (abrupt_gmst_dict runs) = Some ag ->
  dict_get name (abrupt_imbalance_dict runs) = Some ai ->
  has_annual_series runs name ->
  (List.length (anomaly limits (groupby_year_mean ai) (groupby_year_mean ci)) < snd limits)%nat ->
  exists res', ecs_step polyfit limits runs name res = Ok res' /\ ECS res' = ECS res.
Proof.
  intros Hcg Hci Hag Hai Hall Hshort.
  rewrite (ecs_step_annual limits res Hcg Hci Hag Hai Hall). cbv zeta.
  apply Nat.leb_gt in Hshort. rewrite Hshort.
  eexists. split; reflexivity.
Qed.

(** A step whose lookups succeed, whose series is long enough and whose
    fit returns stores the derived ECS under the model's name. *)
Lemma ecs_step_fit limits (runs : Runs F) name (res : Results F) cg ci ag ai a b :
  dict_get name (ctrl_gmst_dict runs) = Some cg ->
  dict_get name (ctrl_imbalance_dict runs) = Some ci ->
  dict_get name (abrupt_gmst_dict runs) = Some ag ->
  dict_get name (abrupt_imbalance_dict runs) = Some ai ->
  has_annual_series runs name ->
  (snd limits <= List.length (anomaly limits (groupby_year_mean ai) (groupby_year_mean ci)))%nat ->
  polyfit
    (slice (fst limits) (snd limits)
       (anomaly limits (groupby_year_mean ag) (groupby_year_mean cg)))
    (slice (fst limits) (snd limits)
       (anomaly limits (groupby_year_mean ai) (groupby_year_mean ci))) = Ok (a, b) ->
  exists res', ecs_step polyfit limits runs name res = Ok res' /\
               dict_get name (ECS res') = Some (ECS_of_fit a b).
Proof.
  intros Hcg Hci Hag Hai Hall Hlong Hfit.
  rewrite (ecs_step_annual limits res Hcg Hci Hag Hai Hall). cbv zeta.
  apply Nat.leb_le in Hlong. rewrite Hlong, Hfit. simpl.
  eexists. split; [reflexivity|]. simpl. apply dict_get_set_eq.
Qed.

End StepFacts.

(** ** Sums in exact arithmetic *)

(** Expose the rational operation under each operation of the [exact]
    instance and drop the reductions to lowest terms. *)
Ltac exact_ops :=
  cbv beta;
  repeat match goal with
    | |- context [@fadd Q exact ?a ?b] => change (@fadd Q exact a b) with (Qred (a + b)%Q)
    | |- context [@fsub Q exact ?a ?b] => change (@fsub Q exact a b) with (Qred (a - b)%Q)
    | |- context [@fmul Q exact ?a ?b] => change (@fmul Q exact a b) with (Qred (a * b)%Q)
    | |- context [@fdiv Q exact ?a ?b] => change (@fdiv Q exact a b) with (Qred (a / b)%Q)
    | |- context [@fopp Q exact ?a] => change (@fopp Q exact a) with (Qred (- a)%Q)
    end;
  change (@fzero Q exact) with 0%Q;
  change (@fone Q exact) with 1%Q;
  change (@ftwo Q exact) with 2%Q;
  rewrite ?Qred_correct.

Section ExactSums.

Local Open Scope Q_scope.

Lemma Qsum_app (l1 l2 : list Q) : Qsum (l1 ++ l2) == Qsum l1 + Qsum l2.
Proof.
  induction l1 as [|x l1 IH]; simpl; [ring | rewrite IH; ring].
Qed.

Lemma fsum_exact_from (l : list Q) (acc : Q) :
  fold_left (fun a x => if fisnan x then a else fadd a x) l acc == acc + Qsum l.
Proof.
  revert acc. induction l as [|x l IH]; intros acc; cbn [fold_left Qsum]; [ring|].
  change (fisnan x) with false. cbv iota.
  change (fadd acc x) with (Qred (acc + x)).
  rewrite IH, Qred_correct. ring.
Qed.

(** Without NaN the skipping sum is the plain sum. *)
Lemma fsum_exact (l : list Q) : fsum l == Qsum l.
Proof. unfold fsum. rewrite fsum_exact_from. change fzero with 0. ring. Qed.

Lemma Qsum_rows_ext (f g : nat -> nat -> Q) (rows cols : list nat) :
  (forall i j, In i rows -> In j cols -> f i j == g i j) ->
  Qsum (flat_map (fun i => map (f i) cols) rows) ==
  Qsum (flat_map (fun i => map (g i) cols) rows).
Proof.
  induction rows as [|i rows IH]; intros Hfg; simpl; [reflexivity|].
  rewrite !Qsum_app, IH by (intros; apply Hfg; simpl; auto).
  apply Qplus_comp; [|reflexivity].
  assert (Hrow : forall j, In j cols -> f i j == g i j) by (intros; apply Hfg; simpl; auto).
  clear -Hrow. induction cols as [|j cols IHc]; simpl; [reflexivity|].
  rewrite IHc by (intros; apply Hrow; simpl; auto).
  rewrite (Hrow j) by (simpl; auto). reflexivity.
Qed.

Lemma Qsum_rows_scale (c : Q) (f : nat -> nat -> Q) (rows cols : list nat) :
  Qsum (flat_map (fun i => map (fun j => c * f i j) cols) rows) ==
  c * Qsum (flat_map (fun i => map (f i) cols) rows).
Proof.
  induction rows as [|i rows IH]; simpl; [ring|].
  rewrite !Qsum_app, IH.
  assert (Hrow : Qsum (map (fun j => c * f i j) cols) == c * Qsum (map (f i) cols)).
  { clear. induction cols as [|j cols IHc]; simpl; [ring | rewrite IHc; ring]. }
  rewrite Hrow. ring.
Qed.

Lemma Qsum_rows_sub (f g : nat -> nat -> Q) (rows cols : list nat) :
  Qsum (flat_map (fun i => map (fun j => f i j - g i j) cols) rows) ==
  Qsum (flat_map (fun i => map (f i) cols) rows) -
  Qsum (flat_map (fun i => map (g i) cols) rows).
Proof.
  induction rows as [|i rows IH]; simpl; [ring|].
  rewrite !Qsum_app, IH.
  assert (Hrow : Qsum (map (fun j => f i j - g i j) cols) ==
                 Qsum (map (f i) cols) - Qsum (map (g i) cols)).
  { clear. induction cols as [|j cols IHc]; simpl; [ring | rewrite IHc; ring]. }
  rewrite Hrow. ring.
Qed.

Lemma grid_sum_exact (nlat nlon : nat) (a : nat -> nat -> Q) :
  grid_sum nlat nlon a == Qsum (flat_map (fun i => map (a i) (seq 0 nlon)) (seq 0 nlat)).
Proof. unfold grid_sum. apply fsum_exact. Qed.

Lemma grid_sum_ext nlat nlon (f g : nat -> nat -> Q) :
  (forall i j, (i < nlat)%nat -> (j < nlon)%nat -> f i j == g i j) ->
  grid_sum nlat nlon f == grid_sum nlat nlon g.
Proof.
  intros H. rewrite !grid_sum_exact. apply Qsum_rows_ext.
  intros i j Hi Hj. apply in_seq in Hi, Hj. apply H; lia.
Qed.

Lemma grid_sum_scale nlat nlon (c : Q) (f : nat -> nat -> Q) :
  grid_sum nlat nlon (fun i j => c * f i j) == c * grid_sum nlat nlon f.
Proof. rewrite !grid_sum_exact. apply Qsum_rows_scale. Qed.

Lemma grid_sum_sub nlat nlon (f g : nat -> nat -> Q) :
  grid_sum nlat nlon (fun i j => f i j - g i j) ==
  grid_sum nlat nlon f - grid_sum nlat nlon g.
Proof. rewrite !grid_sum_exact. apply Qsum_rows_sub. Qed.

End ExactSums.

(** ** Area-weighted global mean *)

Section GlobalMeanExact.

Local Open Scope Q_scope.

Variable cosdeg : Q -> Q.

(** C7, in exact arithmetic.  Whatever the weight given to each latitude,
    if the weights do not sum to zero, the area-weighted mean of a field
    that is [v] at every grid point of time step [t] is [v]. *)
Theorem constant_field_mean_exact (lat lon : list Q)
    (field : nat -> nat -> nat -> Q) (v : Q) (t : nat) :
  (forall i j, (i < List.length lat)%nat -> (j < List.length lon)%nat ->
               field t i j == v) ->
  ~ total_weight cosdeg lat lon == 0 ->
  global_mean cosdeg lat lon field t == v.
Proof.
  intros Hconst Hw. unfold global_mean. fold (total_weight cosdeg lat lon).
  assert (Hnum : grid_sum (List.length lat) (List.length lon)
                   (fun i j => fmul (field t i j) (cos_lat_2d cosdeg lat i j))
                 == v * total_weight cosdeg lat lon).
  { unfold total_weight. rewrite <- grid_sum_scale. apply grid_sum_ext.
    intros i j Hi Hj. exact_ops. now rewrite (Hconst i j Hi Hj). }
  exact_ops. rewrite Hnum. now field.
Qed.

(** C8, in exact arithmetic.  On a grid whose weights do not sum to zero,
    reducing the pointwise combination [rsdt - rsut - rlut] (what the
    notebook does) gives the combination of the three reductions. *)
Theorem net_toa_mean_linear_exact (lat lon : list Q)
    (rsdt rsut rlut : nat -> nat -> nat -> Q) (t : nat) :
  ~ total_weight cosdeg lat lon == 0 ->
  global_mean cosdeg lat lon (net_toa rsdt rsut rlut) t ==
  net_toa_of_means cosdeg lat lon rsdt rsut rlut t.
Proof.
  intros Hw. unfold net_toa_of_means, global_mean. fold (total_weight cosdeg lat lon).
  set (W := cos_lat_2d cosdeg lat).
  assert (Hone : forall field,
            grid_sum (List.length lat) (List.length lon)
              (fun i j => fmul (field t i j) (W i j))
            == grid_sum (List.length lat) (List.length lon) (fun i j => field t i j * W i j)).
  { intros field. apply grid_sum_ext. intros i j _ _. exact_ops. reflexivity. }
  assert (Hnum : grid_sum (List.length lat) (List.length lon)
                   (fun i j => fmul (net_toa rsdt rsut rlut t i j) (W i j))
                 == grid_sum (List.length lat) (List.length lon) (fun i j => rsdt t i j * W i j)
                    - grid_sum (List.length lat) (List.length lon) (fun i j => rsut t i j * W i j)
                    - grid_sum (List.length lat) (List.length lon) (fun i j => rlut t i j * W i j)).
  { rewrite <- !grid_sum_sub. apply grid_sum_ext. intros i j _ _.
    unfold net_toa. exact_ops. ring. }
  exact_ops. rewrite Hnum, !Hone. now field.
Qed.

End GlobalMeanExact.

(** ** The least-squares line in exact arithmetic *)

Section ExactFitFacts.

Local Open Scope Q_scope.

Variable zero_abscissae : list Q -> list Q -> result (Q * Q).

Lemma count_cons (x : Q) (l : list Q) : count (x :: l) == count l + 1.
Proof.
  unfold count. simpl List.length. rewrite Nat2Z.inj_succ, <- Z.add_1_r.
  rewrite inject_Z_plus. reflexivity.
Qed.

Lemma count_nonneg (l : list Q) : 0 <= count l.
Proof.
  unfold count. change 0 with (inject_Z 0). rewrite <- Zle_Qle. lia.
Qed.

Lemma Qsquare_nonneg (z : Q) : 0 <= z * z.
Proof.
  destruct (Qlt_le_dec z 0) as [Hneg|Hpos].
  - setoid_replace (z * z) with ((- z) * (- z)) by ring.
    apply Qmult_le_0_compat; lra.
  - now apply Qmult_le_0_compat.
Qed.

Lemma Qsquare_zero (z : Q) : z * z == 0 -> z == 0.
Proof. intros H. destruct (Qmult_integral _ _ H); assumption. Qed.

Lemma spread_expand (x : Q) (l : list Q) :
  spread x l == dot l l - 2 * x * Qsum l + count l * x * x.
Proof.
  unfold spread, dot. induction l as [|y l IH]; simpl.
  - unfold count; simpl. ring.
  - rewrite IH, count_cons. simpl. ring.
Qed.

Lemma spread_nonneg (x : Q) (l : list Q) : 0 <= spread x l.
Proof.
  unfold spread. induction l as [|y l IH]; simpl; [lra|].
  pose proof (Qsquare_nonneg (y - x)). lra.
Qed.

Lemma spread_zero (x : Q) (l : list Q) :
  spread x l == 0 -> forall y, In y l -> y == x.
Proof.
  unfold spread. induction l as [|z l IH]; simpl; intros H y Hy; [tauto|].
  pose proof (spread_nonneg x l) as Hs. unfold spread in Hs.
  pose proof (Qsquare_nonneg (z - x)) as Hz.
  destruct Hy as [<-|Hy].
  - assert (Hz0 : (z - x) * (z - x) == 0) by lra.
    apply Qsquare_zero in Hz0. lra.
  - apply IH; [lra | assumption].
Qed.

Lemma normal_det_cons (x : Q) (l : list Q) :
  normal_det (x :: l) == normal_det l + spread x l.
Proof.
  rewrite spread_expand. unfold normal_det. fold (count (x :: l)). fold (count l).
  rewrite count_cons. unfold dot. simpl. ring.
Qed.

Lemma normal_det_nonneg (l : list Q) : 0 <= normal_det l.
Proof.
  induction l as [|x l IH].
  - unfold normal_det, dot; simpl. lra.
  - rewrite normal_det_cons. pose proof (spread_nonneg x l). lra.
Qed.

(** The determinant vanishes only when all abscissae are equal. *)
Lemma normal_det_zero (l : list Q) :
  normal_det l == 0 -> forall u v, In u l -> In v l -> u == v.
Proof.
  induction l as [|x l IH]; intros H u v Hu Hv; [destruct Hu|].
  rewrite normal_det_cons in H.
  pose proof (normal_det_nonneg l) as Hd. pose proof (spread_nonneg x l) as Hs.
  assert (Hd0 : normal_det l == 0) by lra.
  assert (Hs0 : spread x l == 0) by lra.
  pose proof (@spread_zero x l Hs0) as Hall.
  destruct Hu as [<-|Hu], Hv as [<-|Hv].
  - reflexivity.
  - symmetry. now apply Hall.
  - now apply Hall.
  - now apply IH.
Qed.

Lemma on_line_sums (a0 b0 : Q) (x y : list Q) :
  Forall2 (on_line a0 b0) x y ->
  List.length x = List.length y /\
  Qsum y == a0 * Qsum x + count x * b0 /\
  dot x y == a0 * dot x x + b0 * Qsum x.
Proof.
  unfold dot. induction 1 as [|xi yi x y Hxy _ (IHlen & IHs & IHd)].
  - unfold count; simpl. repeat split; ring.
  - unfold on_line in Hxy. simpl. rewrite count_cons, IHs, IHd, Hxy.
    repeat split; [now f_equal | ring | ring].
Qed.

Lemma fsum_products (x y : list Q) :
  fsum (map (fun p => fmul (fst p) (snd p)) (combine x y)) == dot x y.
Proof.
  rewrite fsum_exact. unfold dot.
  induction (combine x y) as [|p l IH]; cbn [map Qsum]; [reflexivity|].
  rewrite IH. exact_ops. reflexivity.
Qed.

(** A full-rank fit of points lying on a line returns that line. *)
Lemma polyfit_exact_on_line (a0 b0 : Q) (x y : list Q) :
  Forall2 (on_line a0 b0) x y ->
  (exists u v, In u x /\ In v x /\ ~ u == v) ->
  exists a b, polyfit_exact zero_abscissae x y = Ok (a, b) /\ a == a0 /\ b == b0.
Proof.
  intros Hline (u & v & Hu & Hv & Huv).
  destruct (on_line_sums Hline) as (Hlen & Hs & Hd).
  assert (Hdet : ~ normal_det x == 0).
  { intros H0. apply Huv. now apply (@normal_det_zero x H0). }
  unfold polyfit_exact.
  destruct x as [|x0 x]; [destruct Hu|].
  rewrite <- Hlen, Nat.eqb_refl.
  change (List.length (x0 :: x) =? 0)%nat with false. cbv iota. simpl negb. cbv iota zeta.
  set (xs := x0 :: x) in *.
  assert (Hdet' : fsub (fmul (of_count (List.length xs))
                          (fsum (map (fun p => fmul (fst p) (snd p)) (combine xs xs))))
                       (fmul (fsum xs) (fsum xs)) == normal_det xs).
  { exact_ops. rewrite fsum_products, !fsum_exact. reflexivity. }
  match type of Hdet' with
  | ?D == _ => destruct (Qeq_bool D 0) eqn:E
  end.
  { apply Qeq_bool_eq in E. rewrite Hdet' in E. contradiction. }
  do 2 eexists. split; [reflexivity|].
  exact_ops. rewrite !fsum_products, !fsum_exact.
  change (of_count (List.length xs)) with (count xs).
  rewrite Hs, Hd. unfold normal_det in Hdet. fold (count xs) in Hdet.
  split; field; assumption.
Qed.

Lemma polyfit_exact_length_mismatch (x y : list Q) :
  List.length x <> List.length y ->
  polyfit_exact zero_abscissae x y = Raise TypeError.
Proof.
  intros Hne. unfold polyfit_exact.
  destruct (List.length x =? 0)%nat; [reflexivity|].
  apply Nat.eqb_neq in Hne. now rewrite Hne.
Qed.

Lemma slice_length (A : Type) (y0 y1 : nat) (l : list A) :
  List.length (slice y0 y1 l) = Nat.min (y1 - y0) (List.length l - y0).
Proof. unfold slice. now rewrite length_firstn, length_skipn. Qed.

(** X1.  The guard looks at the imbalance series only.  A model (its
    series having a time dimension) whose annual temperature series stops
    before [limits[1]] while its imbalance series does not passes the
    guard, and the fit raises [TypeError]: the vectors differ in length. *)
Theorem short_temperature_series_raises limits (runs : Runs Q) name (res : Results Q)
    cg ci ag ai :
  dict_get name (ctrl_gmst_dict runs) = Some cg ->
  dict_get name (ctrl_imbalance_dict runs) = Some ci ->
  dict_get name (abrupt_gmst_dict runs) = Some ag ->
  dict_get name (abrupt_imbalance_dict runs) = Some ai ->
  has_annual_series runs name ->
  (fst limits < snd limits)%nat ->
  (snd limits <= List.length (groupby_year_mean ai))%nat ->
  (List.length (groupby_year_mean ag) < snd limits)%nat ->
  ecs_step (polyfit_exact zero_abscissae) limits runs name res = Raise TypeError.
Proof.
  intros Hcg Hci Hag Hai Hall Hwin Hlong Hshort.
  rewrite (ecs_step_annual _ limits res Hcg Hci Hag Hai Hall). cbv zeta.
  rewrite anomaly_length.
  apply Nat.leb_le in Hlong as Hguard. rewrite Hguard.
  rewrite polyfit_exact_length_mismatch; [reflexivity|].
  rewrite !slice_length, !anomaly_length. lia.
Qed.

Lemma sq_residual_expand (a b : Q) (x y : list Q) :
  List.length x = List.length y ->
  sq_residual a b x y ==
  dot y y - 2 * a * dot x y - 2 * b * Qsum y
  + a * a * dot x x + 2 * a * b * Qsum x + count x * b * b.
Proof.
  unfold sq_residual, dot. revert y.
  induction x as [|xi x IH]; intros [|yi y] Hlen; try discriminate Hlen.
  - unfold count. simpl. ring.
  - injection Hlen as Hlen. cbn [combine map Qsum fst snd].
    rewrite (IH y Hlen), count_cons. ring.
Qed.

Lemma count_pos (x : Q) (l : list Q) : 0 < count (x :: l).
Proof. rewrite count_cons. pose proof (count_nonneg l). lra. Qed.

(** In the full-rank case the line [polyfit_exact] returns is the
    least-squares line: no other line has a smaller squared residual. *)
Theorem polyfit_exact_least_squares (x y : list Q) (a0 b0 : Q) :
  ~ normal_det x == 0 ->
  polyfit_exact zero_abscissae x y = Ok (a0, b0) ->
  forall a' b', sq_residual a0 b0 x y <= sq_residual a' b' x y.
Proof.
  intros Hdet Hfit a' b'. unfold polyfit_exact in Hfit.
  destruct x as [|x0 x]; [discriminate Hfit|].
  change (List.length (x0 :: x) =? 0)%nat with false in Hfit. cbv iota in Hfit.
  destruct (List.length (x0 :: x) =? List.length y)%nat eqn:Hlen;
    [|discriminate Hfit].
  apply Nat.eqb_eq in Hlen. simpl negb in Hfit. cbv iota zeta in Hfit.
  set (xs := x0 :: x) in *.
  assert (Hdet' : fsub (fmul (of_count (List.length xs))
                          (fsum (map (fun p => fmul (fst p) (snd p)) (combine xs xs))))
                       (fmul (fsum xs) (fsum xs)) == normal_det xs).
  { exact_ops. rewrite fsum_products, !fsum_exact. reflexivity. }
  match type of Hdet' with
  | ?D == _ => destruct (Qeq_bool D 0) eqn:E in Hfit
  end.
  { apply Qeq_bool_eq in E. rewrite Hdet' in E. contradiction. }
  match type of Hfit with
  | context [Ok (?A, ?B)] => remember A as qa eqn:Ha; remember B as qb eqn:Hb
  end.
  injection Hfit as <- <-.
  assert (Ha' : qa == (count xs * dot xs y - Qsum xs * Qsum y) / normal_det xs).
  { rewrite Ha. exact_ops. rewrite !fsum_products, !fsum_exact. reflexivity. }
  assert (Hb' : qb == (dot xs xs * Qsum y - Qsum xs * dot xs y) / normal_det xs).
  { rewrite Hb. exact_ops. rewrite !fsum_products, !fsum_exact. reflexivity. }
  clear Ha Hb E Hdet'. revert Ha' Hb'. generalize qa as a, qb as b. intros a b Ha' Hb'.
  rewrite !(sq_residual_expand _ _ xs y Hlen).
  pose proof (normal_det_nonneg xs) as Hd0.
  pose proof (count_pos x0 x) as Hn. fold xs in Hn.
  unfold normal_det in *. fold (count xs) in *.
  set (n := count xs) in *. set (sx := Qsum xs) in *. set (sy := Qsum y) in *.
  set (sxx := dot xs xs) in *. set (sxy := dot xs y) in *. set (syy := dot y y).
  set (D := n * sxx - sx * sx) in *.
  (* the two normal equations *)
  assert (Hn1 : a * sxx + b * sx == sxy) by (rewrite Ha', Hb'; unfold D; field; exact Hdet).
  assert (Hn2 : a * sx + n * b == sy) by (rewrite Ha', Hb'; unfold D; field; exact Hdet).
  (* the gap is a non-negative quadratic form in (a' - a, b' - b) *)
  set (da := a' - a). set (db := b' - b).
  assert (Hgap : (syy - 2 * a' * sxy - 2 * b' * sy + a' * a' * sxx + 2 * a' * b' * sx
                  + n * b' * b')
                 - (syy - 2 * a * sxy - 2 * b * sy + a * a * sxx + 2 * a * b * sx
                    + n * b * b)
                 == sxx * da * da + 2 * sx * da * db + n * db * db).
  { rewrite <- Hn1, <- Hn2. unfold da, db. ring. }
  assert (Hform : n * (sxx * da * da + 2 * sx * da * db + n * db * db)
                  == (n * db + sx * da) * (n * db + sx * da) + D * (da * da))
    by (unfold D; ring).
  assert (Hpos : 0 <= n * (sxx * da * da + 2 * sx * da * db + n * db * db)).
  { rewrite Hform.
    pose proof (Qsquare_nonneg (n * db + sx * da)).
    pose proof (Qmult_le_0_compat _ _ Hd0 (Qsquare_nonneg da)). lra. }
  assert (Hq : 0 <= sxx * da * da + 2 * sx * da * db + n * db * db).
  { destruct (Qlt_le_dec (sxx * da * da + 2 * sx * da * db + n * db * db) 0)
      as [Hneg|]; [|assumption].
    exfalso.
    assert (Hlt : n * (sxx * da * da + 2 * sx * da * db + n * db * db) < 0).
    { setoid_replace 0 with (n * 0) by ring. now apply Qmult_lt_l. }
    lra. }
  lra.
Qed.

End ExactFitFacts.

Lemma Forall2_of_nth_error (A B : Type) (R : A -> B -> Prop) (l1 : list A) (l2 : list B) :
  List.length l1 = List.length l2 ->
  (forall k a b, nth_error l1 k = Some a -> nth_error l2 k = Some b -> R a b) ->
  Forall2 R l1 l2.
Proof.
  revert l2. induction l1 as [|a l1 IH]; intros [|b l2] Hlen H; try discriminate Hlen.
  - constructor.
  - constructor; [now apply (H 0%nat)|].
    apply IH; [now injection Hlen|]. intros k. exact (H (S k)).
Qed.

(** C3, in exact arithmetic.  Let the anomaly series have at least
    [limits[1]] time steps, let [Y(t) = a0 * X(t) + b0] at every [t] of the
    window (outside it the series may be anything), and let [X] take two
    different values inside the window.  Then the degree-1 fit of
    [Y[y0:y1]] against [X[y0:y1]] returns slope [a0] and intercept [b0],
    and, the slope not being zero, the ECS derived from it is
    [b0 / (-a0) / 2]. *)
Theorem linear_data_fit_recovered
    (zero_abscissae : list Q -> list Q -> result (Q * Q))
    (limits : nat * nat) (X Y : list Q) (a0 b0 : Q) :
  (snd limits <= List.length X)%nat ->
  (snd limits <= List.length Y)%nat ->
  (forall t x y, (fst limits <= t < snd limits)%nat ->
     nth_error X t = Some x -> nth_error Y t = Some y -> on_line a0 b0 x y) ->
  (exists t t' x x',
     (fst limits <= t < snd limits)%nat /\ (fst limits <= t' < snd limits)%nat /\
     nth_error X t = Some x /\ nth_error X t' = Some x' /\ ~ x == x') ->
  exists a b,
    polyfit_exact zero_abscissae
      (slice (fst limits) (snd limits) X) (slice (fst limits) (snd limits) Y) = Ok (a, b) /\
    a == a0 /\ b == b0 /\
    (~ a0 == 0 -> ECS_of_fit a b == (b0 / (- a0) / 2)%Q).
Proof.
  intros HX HY Hline (t & t' & x & x' & Ht & Ht' & Hx & Hx' & Hne).
  assert (Hwin : Forall2 (on_line a0 b0)
                   (slice (fst limits) (snd limits) X) (slice (fst limits) (snd limits) Y)).
  { apply Forall2_of_nth_error; [rewrite !slice_length; lia|].
    intros k u v. rewrite !nth_error_slice.
    destruct (Nat.ltb_spec k (snd limits - fst limits)); [|discriminate].
    apply Hline. lia. }
  assert (Hin : forall k u, (fst limits <= k < snd limits)%nat -> nth_error X k = Some u ->
                            In u (slice (fst limits) (snd limits) X)).
  { intros k u Hk Hu. apply nth_error_In with (n := (k - fst limits)%nat).
    rewrite nth_error_slice.
    destruct (Nat.ltb_spec (k - fst limits) (snd limits - fst limits)); [|lia].
    now replace (fst limits + (k - fst limits))%nat with k by lia. }
  destruct (@polyfit_exact_on_line zero_abscissae a0 b0 _ _ Hwin) as (a & b & Hfit & Ha & Hb).
  { exists x, x'. repeat split; [now apply (Hin t) | now apply (Hin t') | exact Hne]. }
  exists a, b. repeat split; try assumption.
  intros _. unfold ECS_of_fit. exact_ops. now rewrite Ha, Hb.
Qed.

(** No power of two is a multiple of three, so [-1/3] is not of the form
    [z * 2^e]. *)
Lemma pow2_not_multiple_of_3 (n : Z) : (0 <= n)%Z -> (2 ^ n mod 3 <> 0)%Z.
Proof.
  intros Hn. pattern n. apply natlike_ind; [discriminate | | exact Hn].
  intros k Hk IH. rewrite Z.pow_succ_r by exact Hk.
  rewrite Z.mul_mod by discriminate.
  pose proof (Z.mod_pos_bound (2 ^ k) 3 eq_refl) as Hb.
  assert (Hcases : (2 ^ k mod 3 = 1 \/ 2 ^ k mod 3 = 2)%Z) by lia.
  destruct Hcases as [-> | ->]; discriminate.
Qed.

Lemma third_not_dyadic (z : Z) (e : Z) : ~ (inject_Z z * Qpower 2 e == - 1 # 3)%Q.
Proof.
  intros H. destruct (Z_lt_le_dec e 0) as [Hneg|Hpos].
  - assert (Hn : (0 <= - e)%Z) by lia.
    assert (Hp : (Qpower 2 e == / inject_Z (2 ^ (- e)))%Q).
    { replace e with (- - e)%Z at 1 by lia. rewrite Qpower_opp.
      apply Qinv_comp. replace 2%Q with (inject_Z 2) by reflexivity.
      symmetry. now apply Zpower_Qpower. }
    rewrite Hp in H.
    assert (Hpos2 : (0 < 2 ^ (- e))%Z) by (apply Z.pow_pos_nonneg; lia).
    pose proof (@pow2_not_multiple_of_3 (- e)%Z Hn) as Hmod.
    remember (2 ^ (- e))%Z as P eqn:EP. clear EP Hp.
    assert (Hz : (inject_Z z == (- 1 # 3) * inject_Z P)%Q).
    { rewrite <- H. field. intros H0.
      assert (HP0 : P = 0%Z) by (apply inject_Z_injective; exact H0).
      clear - HP0 Hpos2. lia. }
    assert (Hint : (z * 3 = - P)%Z).
    { apply inject_Z_injective. rewrite inject_Z_mult, inject_Z_opp, Hz.
      change (inject_Z 3) with 3. field. }
    apply Hmod.
    replace P with ((- z) * 3)%Z by lia.
    apply Z.mod_mul. discriminate.
  - assert (Hp : (Qpower 2 e == inject_Z (2 ^ e))%Q).
    { replace 2%Q with (inject_Z 2) by reflexivity. symmetry. now apply Zpower_Qpower. }
    rewrite Hp, <- inject_Z_mult in H.
    remember (z * 2 ^ e)%Z as P eqn:EP. clear EP.
    assert (Hint : (P * 3 = - 1)%Z).
    { apply inject_Z_injective. rewrite inject_Z_mult, H. reflexivity. }
    lia.
Qed.

(** C3 as stated fails in binary64, whatever [np.polyfit] computes: the
    binary64 points [(3, 0)] and [(6, -1)] lie on the line of slope [-1/3]
    and intercept [1], and no binary64 value is [-1/3], so no fit returns
    that slope. *)
Lemma slope_a_third_not_binary64 :
  float_value 3 = Some 3 /\ float_value 6 = Some 6 /\
  float_value 0 = Some 0 /\ float_value (-1) = Some (-1) /\
  Forall2 (on_line (- 1 # 3) 1) [3; 6] [0; -1] /\
  forall (a : float) (q : Q), float_value a = Some q -> ~ q == - 1 # 3.
Proof.
  repeat (split; [vm_compute; reflexivity|]).
  split; [repeat constructor; vm_compute; reflexivity|].
  intros a q Hq. unfold float_value in Hq.
  destruct (Prim2SF a) as [s|s| |s m e]; try discriminate Hq; injection Hq as <-.
  - discriminate.
  - intros H. eapply third_not_dyadic.
    eapply Qeq_trans; [symmetry; apply Qred_correct | exact H].
Qed.

(** ** The ECS derivation in binary64 *)

Section Binary64Facts.

Lemma is_finite_of_nan (r : float) : Prim2SF r = S754_nan -> PrimFloat.is_finite r = false.
Proof.
  intros H. unfold PrimFloat.is_finite, PrimFloat.is_nan.
  rewrite FloatAxioms.eqb_spec, H. reflexivity.
Qed.

Lemma is_finite_of_infinity (r : float) (s : bool) :
  Prim2SF r = S754_infinity s -> PrimFloat.is_finite r = false.
Proof.
  intros H. unfold PrimFloat.is_finite, PrimFloat.is_nan, PrimFloat.is_infinity.
  rewrite !FloatAxioms.eqb_spec, abs_spec, H.
  change (Prim2SF infinity) with (S754_infinity false).
  destruct s; reflexivity.
Qed.

(** [a == 0.0] holds of the two zeros only. *)
Lemma eqb_zero_inv (a : float) :
  PrimFloat.eqb a 0%float = true -> exists s, Prim2SF a = S754_zero s.
Proof.
  rewrite FloatAxioms.eqb_spec. change (Prim2SF 0%float) with (S754_zero false).
  destruct (Prim2SF a) as [s|[]| |[] m e]; simpl; try discriminate; eauto.
Qed.

(** X30.  The ECS derivation at a flat line, in binary64.  When the slope
    compares equal to zero (it is one of the two zeros), [b/(-a)/2.0] is an
    infinity or NaN whatever the intercept: dividing by a zero gives an
    infinity or NaN, and halving keeps it so.  The operations of binary64
    return; none of them raises. *)
Theorem ECS_of_fit_zero_slope (a b : float) :
  PrimFloat.eqb a 0%float = true ->
  PrimFloat.is_finite (ECS_of_fit a b) = false.
Proof.
  intros Ha. destruct (eqb_zero_inv Ha) as [s Hs].
  unfold ECS_of_fit. simpl.
  assert (Hq : Prim2SF (b / - a)%float = S754_nan \/
               exists s', Prim2SF (b / - a)%float = S754_infinity s').
  { rewrite div_spec, opp_spec, Hs. unfold SF64div, SFdiv. simpl SFopp.
    destruct (Prim2SF b); eauto. }
  destruct Hq as [Hq|[s' Hq]].
  - apply is_finite_of_nan. rewrite div_spec, Hq. reflexivity.
  - apply is_finite_of_infinity with (s := s').
    rewrite div_spec, Hq. destruct s'; reflexivity.
Qed.

Example ECS_of_flat_fits :
  ECS_of_fit 0%float 8%float = neg_infinity /\
  ECS_of_fit (-0)%float 8%float = infinity /\
  ECS_of_fit 0%float 0%float = nan.
Proof. repeat split; vm_compute; reflexivity. Qed.

End Binary64Facts.

(** ** The first loop: missing fields and renaming *)

Section ReduceFacts.

Context {F : Type} {AF : Arith F}.
Variable cosdeg : F -> F.

(** X2.  A run that lacks one of the three fluxes is passed over: the
    state is returned untouched, whatever the temperature collection
    holds. *)
Theorem reduce_run_missing_flux (dset_dict_tas : dict (Dataset F)) name
    (ds_rad : Dataset F) (st : Reduced F) m :
  model_name_of name = Ok m ->
  has_fluxes ds_rad = false ->
  reduce_run cosdeg dset_dict_tas (name, ds_rad) st = Ok st.
Proof.
  intros Hm Hflux. unfold reduce_run. simpl fst. simpl snd.
  rewrite Hm, Hflux. reflexivity.
Qed.

(** A run that has the three fluxes but no temperature dataset raises
    [KeyError] at [dset_dict_tas[name]]. *)
Lemma reduce_run_missing_tas (dset_dict_tas : dict (Dataset F)) name
    (ds_rad : Dataset F) (st : Reduced F) m :
  model_name_of name = Ok m ->
  has_fluxes ds_rad = true ->
  dict_get name dset_dict_tas = None ->
  reduce_run cosdeg dset_dict_tas (name, ds_rad) st = Raise KeyError.
Proof.
  intros Hm Hflux Htas. unfold reduce_run, getitem. simpl fst. simpl snd.
  rewrite Hm, Hflux, Htas. reflexivity.
Qed.

(** An exception in one iteration ends the loop: what comes after it is
    not run. *)
Lemma for_each_raises (A S : Type) (body : A -> S -> result S)
    before x rest (st0 st : S) e :
  for_each body before st0 = Ok st ->
  body x st = Raise e ->
  for_each body (before ++ x :: rest)%list st0 = Raise e.
Proof.
  revert st0. induction before as [|y before IH]; intros st0 Hbefore Hx; simpl in *.
  - injection Hbefore as ->. now rewrite Hx.
  - destruct (body y st0) as [st1|]; simpl in *; [eauto | discriminate].
Qed.

(** C6, where the code departs from it.  Let a run have the three fluxes
    and no temperature dataset.  Wherever it stands in the collection, once
    the runs before it are reduced the loop raises [KeyError]: the run is
    not skipped, and the runs after it are never reduced. *)
Theorem missing_temperature_aborts (tas : dict (Dataset F))
    (before : dict (Dataset F)) name (ds_rad : Dataset F) (rest : dict (Dataset F))
    (m : string) (red : Reduced F) :
  reduce_all cosdeg before tas = Ok red ->
  model_name_of name = Ok m ->
  has_fluxes ds_rad = true ->
  dict_get name tas = None ->
  reduce_all cosdeg (before ++ (name, ds_rad) :: rest)%list tas = Raise KeyError.
Proof.
  intros Hbefore Hm Hflux Htas. unfold reduce_all in *.
  eapply for_each_raises; [exact Hbefore|].
  eapply reduce_run_missing_tas; eassumption.
Qed.

(** What a run that returns has done to the state. *)
Lemma reduce_run_inv (dset_dict_tas : dict (Dataset F)) name (ds_rad : Dataset F)
    (st st' : Reduced F) :
  reduce_run cosdeg dset_dict_tas (name, ds_rad) st = Ok st' ->
  (exists m, model_name_of name = Ok m) /\
  ((has_fluxes ds_rad = false /\ st' = st) \/
   (has_fluxes ds_rad = true /\ dict_mem name dset_dict_tas = true /\
    exists ds gmst imbalance,
      st' = {| ds_dict := dict_set name ds (ds_dict st);
               gmst_dict := dict_set name gmst (gmst_dict st);
               imbalance_dict := dict_set name imbalance (imbalance_dict st) |})).
Proof.
  unfold reduce_run. simpl fst. simpl snd. intros H.
  apply bind_ok in H as (m & Hm & H). split; [eauto|].
  destruct (has_fluxes ds_rad); simpl negb in H; cbv iota in H.
  - right. split; [reflexivity|].
    apply bind_ok in H as (ds_tas & Htas & H).
    apply bind_ok in H as ([ds_rad' ds_tas'] & _ & H).
    repeat (apply bind_ok in H as (? & _ & H)).
    split.
    + unfold dict_mem. apply getitem_ok in Htas. now rewrite Htas.
    + injection H as <-. eauto.
  - left. split; [reflexivity|]. now injection H.
Qed.

Lemma for_each_invariant (A S : Type) (body : A -> S -> result S)
    (P : S -> Prop) (Q : A -> Prop) :
  (forall x st st', Q x -> P st -> body x st = Ok st' -> P st') ->
  forall xs st st', Forall Q xs -> P st -> for_each body xs st = Ok st' -> P st'.
Proof.
  intros Hstep xs. induction xs as [|x xs IH]; intros st st' HQ HP H; simpl in H.
  - now injection H as <-.
  - inversion HQ as [|? ? Hx Hxs]; subst.
    apply bind_ok in H as (st1 & Hb1 & Hb2). eauto.
Qed.

(** What the first loop leaves: a temperature and an imbalance series
    under the same keys, each key that of a run with the three fluxes and
    a temperature dataset, and with a model component. *)
Lemma reduce_all_series (rad tas : dict (Dataset F)) (red : Reduced F) :
  reduce_all cosdeg rad tas = Ok red ->
  dict_keys (gmst_dict red) = dict_keys (imbalance_dict red) /\
  forall name, In name (dict_keys (gmst_dict red)) ->
    (exists m, model_name_of name = Ok m) /\
    exists ds_rad, In (name, ds_rad) rad /\ has_fluxes ds_rad = true /\
                   dict_mem name tas = true.
Proof.
  unfold reduce_all.
  apply (@for_each_invariant _ _ (reduce_run cosdeg tas)
           (fun st =>
              dict_keys (gmst_dict st) = dict_keys (imbalance_dict st) /\
              forall name, In name (dict_keys (gmst_dict st)) ->
                (exists m, model_name_of name = Ok m) /\
                exists ds_rad, In (name, ds_rad) rad /\ has_fluxes ds_rad = true /\
                               dict_mem name tas = true)
           (fun item => In item rad)).
  - intros [name ds_rad] st st' Hin [Hkeys Hall] Hrun.
    apply reduce_run_inv in Hrun
      as (Hm & [[_ ->]|(Hflux & Htas & ds & gmst & imbalance & ->)]); [now split|].
    simpl. split; [now apply dict_keys_set_same_keys|].
    intros n Hn. apply dict_keys_set in Hn as [->|Hn]; [|now apply Hall].
    split; [assumption|]. now exists ds_rad.
  - apply Forall_forall. auto.
  - simpl. split; [reflexivity | intros ? []].
Qed.

End ReduceFacts.

(** The failing input: two runs with all three fluxes, the first without
    a temperature dataset.  Neither run is reduced. *)
Example missing_temperature_aborts_two_runs :
  reduce_all Demo.unit_cos Demo.two_runs_rad Demo.only_B_tas = Raise KeyError.
Proof. reflexivity. Qed.

(** The sibling case: the first run lacks a flux instead; it is skipped
    and the second run is reduced. *)
Lemma missing_flux_skipped :
  exists red,
    reduce_all Demo.unit_cos Demo.A_lacks_rlut_rad Demo.both_tas = Ok red /\
    dict_keys (gmst_dict red) = ["CMIP.X.B.piControl.Amon.gn"].
Proof. eexists. split; reflexivity. Qed.

(** ** Which models get an ECS *)

Section Orchestration.

Context {F : Type} {AF : Arith F}.
Variable polyfit : list F -> list F -> result (F * F).

(** One pass over the runs: it returns when every key is well formed and
    has an imbalance series, and keeps the models its test lets through. *)
Lemma select_runs_spec tag allowed (imb : dict (Series F))
    (items : list (string * Series F)) (acc : dict (Series F) * dict (Series F)) :
  (forall name, In name (map fst items) ->
     In name (dict_keys imb) /\ exists m, model_name_of name = Ok m) ->
  dict_keys (fst acc) = dict_keys (snd acc) ->
  exists acc',
    for_each (select_run tag allowed imb) items acc = Ok acc' /\
    dict_keys (fst acc') = dict_keys (snd acc') /\
    forall m, In m (dict_keys (fst acc')) <->
              In m (dict_keys (fst acc)) \/
              exists name, In name (map fst items) /\ contains tag name = true /\
                           model_name_of name = Ok m /\ allowed m = true.
Proof.
  revert acc. induction items as [|[name gmst] items IH]; intros acc Hwf Hkeys.
  - exists acc. simpl. repeat split; auto.
    + intros [H|(n & [] & _)]; assumption.
  - destruct (Hwf name (or_introl eq_refl)) as (Himb & m0 & Hm0).
    destruct (dict_key_get _ _ Himb) as (imbalance & Hget).
    simpl for_each. unfold select_run at 1. simpl fst. simpl snd. rewrite Hm0. simpl bind.
    destruct (negb (contains tag name) || negb (allowed m0)) eqn:Hskip.
    + simpl bind.
      destruct (IH acc (fun n Hn => Hwf n (or_intror Hn)) Hkeys) as (acc' & Hrun & Hk' & Hchar).
      exists acc'. repeat split; auto.
      * intros Hm. apply Hchar in Hm as [Hm|(n & Hn & Ht & Hmn & Ha)]; auto.
        right. exists n. simpl. auto.
      * intros [Hm|(n & [<-|Hn] & Ht & Hmn & Ha)]; apply Hchar; auto.
        -- cbn [fst] in *. rewrite Hm0 in Hmn. injection Hmn as <-.
           rewrite Ht, Ha in Hskip. discriminate.
        -- right. exists n. auto.
    + unfold getitem. rewrite Hget. simpl bind.
      apply orb_false_elim in Hskip as [Ht Ha].
      apply negb_false_iff in Ht, Ha.
      set (acc1 := (dict_set m0 gmst (fst acc), dict_set m0 imbalance (snd acc))).
      assert (Hk1 : dict_keys (fst acc1) = dict_keys (snd acc1))
        by (apply dict_keys_set_same_keys; assumption).
      destruct (IH acc1 (fun n Hn => Hwf n (or_intror Hn)) Hk1) as (acc' & Hrun & Hk' & Hchar).
      exists acc'. repeat split; auto.
      * intros Hm. apply Hchar in Hm as [Hm|(n & Hn & Ht' & Hmn & Ha')].
        -- simpl in Hm. apply dict_keys_set in Hm as [->|Hm]; auto.
           right. exists name. simpl. auto.
        -- right. exists n. simpl. auto.
      * intros [Hm|(n & [<-|Hn] & Ht' & Hmn & Ha')]; apply Hchar.
        -- left. simpl. apply dict_keys_set. auto.
        -- left. cbn [fst] in *. apply dict_keys_set. left.
           rewrite Hm0 in Hmn. now injection Hmn.
        -- right. exists n. auto.
Qed.

(** The splitting cell: it returns, and the models it hands to the ECS
    loop are exactly the eligible ones; each has its four series. *)
Lemma split_runs_spec (g imb : dict (Series F)) :
  dict_keys g = dict_keys imb ->
  (forall name, In name (dict_keys g) -> exists m, model_name_of name = Ok m) ->
  exists runs,
    split_runs g imb = Ok runs /\
    (forall m, In m (dict_keys (ctrl_gmst_dict runs)) <-> eligible g m) /\
    dict_keys (ctrl_imbalance_dict runs) = dict_keys (ctrl_gmst_dict runs) /\
    dict_keys (abrupt_imbalance_dict runs) = dict_keys (abrupt_gmst_dict runs) /\
    (forall m, In m (dict_keys (ctrl_gmst_dict runs)) ->
               In m (dict_keys (abrupt_gmst_dict runs))).
Proof.
  intros Hkeys Hwf.
  assert (Hwf' : forall name, In name (map fst g) ->
            In name (dict_keys imb) /\ exists m, model_name_of name = Ok m).
  { intros n Hn. split; [rewrite <- Hkeys; exact Hn | apply Hwf; exact Hn]. }
  unfold split_runs, select_runs.
  destruct (select_runs_spec "piControl" (fun _ => true) imb g ([], []) Hwf' eq_refl)
    as (c0 & -> & Hk0 & Hc0). simpl bind.
  destruct (select_runs_spec "abrupt-4xCO2" (fun m => dict_mem m (fst c0)) imb g ([], [])
              Hwf' eq_refl) as (ab & -> & Hkab & Hab). simpl bind.
  destruct (select_runs_spec "piControl" (fun m => dict_mem m (fst ab)) imb g ([], [])
              Hwf' eq_refl) as (c & -> & Hkc & Hc). simpl bind.
  eexists. split; [reflexivity|]. simpl.
  assert (Habrupt : forall m, In m (dict_keys (fst ab)) <-> eligible g m).
  { intros m. rewrite Hab. unfold eligible, has_run. split.
    - intros [[]|(n & Hn & Ht & Hm & Ha)].
      apply dict_mem_keys, Hc0 in Ha as [[]|(n' & Hn' & Ht' & Hm' & _)].
      split; [exists n' | exists n]; auto.
    - intros [(n' & Hn' & Ht' & Hm') (n & Hn & Ht & Hm)].
      right. exists n. repeat split; auto.
      apply dict_mem_keys, Hc0. right. exists n'. auto. }
  split; [|split; [|split]]; [| | |].
  - intros m. split.
    + intros Hm. apply Hc in Hm as [[]|(n & Hn & Ht & Hm & Ha)].
      now apply Habrupt, dict_mem_keys.
    + intros [(n & Hn & Ht & Hm) Hab']. apply Hc. right. exists n. repeat split; auto.
      apply dict_mem_keys, Habrupt. split; [exists n; auto | exact Hab'].
  - now symmetry.
  - now symmetry.
  - intros m Hm. apply Hc in Hm as [[]|(n & Hn & Ht & Hm & Ha)].
    now apply dict_mem_keys.
Qed.

End Orchestration.

Section EcsLoop.

Context {F : Type} {AF : Arith F}.
Variable polyfit : list F -> list F -> result (F * F).
Variable limits : nat * nat.
Variable runs : Runs F.

(** One step adds the processed model to the ECS mapping exactly when its
    series is long enough, and touches no other entry's presence. *)
Lemma ecs_step_keys name (res res' : Results F) :
  ecs_step polyfit limits runs name res = Ok res' ->
  forall m, In m (dict_keys (ECS res')) <->
            In m (dict_keys (ECS res)) \/ (m = name /\ long_enough limits runs m).
Proof.
  intros H m.
  apply ecs_step_inv in H as (cg & ci & ag & ai & Hcg & Hci & Hag & Hai & H).
  cbv zeta in H. destruct H as (_ & _ & _ & _ & [(Hguard & a & b & _ & HE)|(Hguard & HE)]).
  - rewrite HE, dict_keys_set. apply Nat.leb_le in Hguard.
    assert (Hlong : long_enough limits runs name) by (exists ai, ci; auto).
    split; [intros [->|Hm]; auto | intros [Hm|[-> _]]; auto].
  - rewrite HE. apply Nat.leb_gt in Hguard.
    split; [auto | intros [Hm|[-> (ai' & ci' & Hai' & Hci' & Hlen)]]; auto].
    rewrite Hai in Hai'. rewrite Hci in Hci'.
    injection Hai' as <-. injection Hci' as <-. lia.
Qed.

Lemma estimate_loop_keys (keys : list string) (res0 res : Results F) :
  for_each (ecs_step polyfit limits runs) keys res0 = Ok res ->
  forall m, In m (dict_keys (ECS res)) <->
            In m (dict_keys (ECS res0)) \/ (In m keys /\ long_enough limits runs m).
Proof.
  revert res0. induction keys as [|k keys IH]; intros res0 H m; simpl in H.
  - injection H as <-. simpl. tauto.
  - apply bind_ok in H as (res1 & Hstep & Hrest).
    rewrite (IH _ Hrest m), (ecs_step_keys _ _ Hstep m). simpl.
    split.
    + intros [[Hm|[-> Hl]]|[Hm Hl]]; auto.
    + intros [Hm|[[<-|Hm] Hl]]; auto.
Qed.

(** The loop returns as soon as every model it visits has its four
    series, each with a time dimension, and the fit returns for the models
    that reach it. *)
Lemma estimate_loop_returns (keys : list string) (res0 : Results F) :
  (forall m, In m keys ->
     In m (dict_keys (ctrl_gmst_dict runs)) /\
     In m (dict_keys (ctrl_imbalance_dict runs)) /\
     In m (dict_keys (abrupt_gmst_dict runs)) /\
     In m (dict_keys (abrupt_imbalance_dict runs))) ->
  (forall m, In m keys -> has_annual_series runs m) ->
  (forall m, In m keys -> long_enough limits runs m -> fit_returns polyfit limits runs m) ->
  exists res, for_each (ecs_step polyfit limits runs) keys res0 = Ok res.
Proof.
  revert res0. induction keys as [|k keys IH]; intros res0 Hseries Hgroup Hfit; simpl.
  - now exists res0.
  - destruct (Hseries k (or_introl eq_refl)) as (H1 & H2 & H3 & H4).
    apply dict_key_get in H1 as (cg & Hcg). apply dict_key_get in H2 as (ci & Hci).
    apply dict_key_get in H3 as (ag & Hag). apply dict_key_get in H4 as (ai & Hai).
    pose proof (Hgroup k (or_introl eq_refl)) as Hall.
    assert (Hstep : exists res1, ecs_step polyfit limits runs k res0 = Ok res1).
    { destruct (le_lt_dec (snd limits)
                  (List.length (anomaly limits (groupby_year_mean ai) (groupby_year_mean ci))))
        as [Hlong|Hshort].
      - assert (Hl : long_enough limits runs k) by (exists ai, ci; auto).
        destruct (Hfit k (or_introl eq_refl) Hl cg ci ag ai Hcg Hci Hag Hai) as (a & b & Hab).
        destruct (ecs_step_fit polyfit limits res0 Hcg Hci Hag Hai Hall Hlong Hab)
          as (res1 & Hres1 & _).
        now exists res1.
      - destruct (ecs_step_skip polyfit limits res0 Hcg Hci Hag Hai Hall Hshort)
          as (res1 & Hres1 & _).
        now exists res1. }
    destruct Hstep as (res1 & ->). simpl.
    apply IH; intros; [apply Hseries | apply Hgroup | apply Hfit]; simpl; auto.
Qed.

(** A step of a model one of whose series cannot be grouped raises
    [ValueError], whatever the other series and the window. *)
Lemma ecs_step_short name (res : Results F) (s : Series F) :
  In name (dict_keys (ctrl_gmst_dict runs)) ->
  In name (dict_keys (ctrl_imbalance_dict runs)) ->
  In name (dict_keys (abrupt_gmst_dict runs)) ->
  In name (dict_keys (abrupt_imbalance_dict runs)) ->
  short_series runs name s ->
  ecs_step polyfit limits runs name res = Raise ValueError.
Proof.
  intros H1 H2 H3 H4 [Hs Hlen].
  apply dict_key_get in H1 as (cg & Hcg). apply dict_key_get in H2 as (ci & Hci).
  apply dict_key_get in H3 as (ag & Hag). apply dict_key_get in H4 as (ai & Hai).
  unfold ecs_step, getitem. rewrite Hcg, Hci, Hag, Hai. cbn [bind].
  destruct (groupby_year cg) as [ctrl_g|e] eqn:G1; cbn [bind];
    [|now apply groupby_year_raises in G1 as [-> _]].
  destruct (groupby_year ci) as [ctrl_i|e] eqn:G2; cbn [bind];
    [|now apply groupby_year_raises in G2 as [-> _]].
  destruct (groupby_year ag) as [abrupt_g|e] eqn:G3; cbn [bind];
    [|now apply groupby_year_raises in G3 as [-> _]].
  destruct (groupby_year ai) as [abrupt_i|e] eqn:G4; cbn [bind];
    [|now apply groupby_year_raises in G4 as [-> _]].
  exfalso.
  apply groupby_year_ok in G1 as [L1 _]. apply groupby_year_ok in G2 as [L2 _].
  apply groupby_year_ok in G3 as [L3 _]. apply groupby_year_ok in G4 as [L4 _].
  destruct Hs as [Hs|[Hs|[Hs|Hs]]];
    [rewrite Hcg in Hs | rewrite Hci in Hs | rewrite Hag in Hs | rewrite Hai in Hs];
    injection Hs as <-; lia.
Qed.

(** C5, where the code departs from it.  Let a model have its four
    series, one of them with at most one time step: a run of a single time
    step, stored as a 0-d array.  The series is shorter than any window the
    size test could let through, yet the model is not skipped.  Wherever it
    stands among the models with both runs, once the models before it are
    processed the ECS loop raises [ValueError], and the models after it are
    never fitted. *)
Theorem one_step_series_aborts (before rest : list string) name (res : Results F)
    (s : Series F) :
  dict_keys (ctrl_gmst_dict runs) = (before ++ name :: rest)%list ->
  for_each (ecs_step polyfit limits runs) before no_results = Ok res ->
  In name (dict_keys (ctrl_imbalance_dict runs)) ->
  In name (dict_keys (abrupt_gmst_dict runs)) ->
  In name (dict_keys (abrupt_imbalance_dict runs)) ->
  short_series runs name s ->
  estimate_ecs polyfit limits runs = Raise ValueError.
Proof.
  intros Hkeys Hbefore H2 H3 H4 Hs. unfold estimate_ecs. rewrite Hkeys.
  eapply for_each_raises; [exact Hbefore|].
  apply ecs_step_short with (s := s); try assumption.
  rewrite Hkeys. apply in_or_app. right. now left.
Qed.

End EcsLoop.

(** The splitting cell and the ECS loop, on collections of series stored
    under the same keys, every key with a model component. *)
Lemma eligible_series_get_ecs (F : Type) (AF : Arith F)
    (polyfit : list F -> list F -> result (F * F)) (limits : nat * nat)
    (g imb : dict (Series F)) :
  dict_keys g = dict_keys imb ->
  (forall name, In name (dict_keys g) -> exists m, model_name_of name = Ok m) ->
  exists runs,
    split_runs g imb = Ok runs /\
    (forall m, In m (dict_keys (ctrl_gmst_dict runs)) <-> eligible g m) /\
    (forall res, estimate_ecs polyfit limits runs = Ok res ->
       forall m, In m (dict_keys (ECS res)) <->
                 eligible g m /\ long_enough limits runs m) /\
    ((forall m, eligible g m -> has_annual_series runs m) ->
     (forall m, eligible g m -> long_enough limits runs m ->
                fit_returns polyfit limits runs m) ->
     exists res, estimate_ecs polyfit limits runs = Ok res).
Proof.
  intros Hkeys Hwf.
  destruct (split_runs_spec g imb Hkeys Hwf) as (runs & Hsplit & Helig & Hci & Hai & Hsub).
  exists runs. split; [assumption|]. split; [assumption|]. split.
  - intros res Hres m. unfold estimate_ecs in Hres.
    pose proof (@estimate_loop_keys F AF polyfit limits runs _ _ _ Hres m) as Hk.
    simpl in Hk. rewrite Hk, Helig. tauto.
  - intros Hgroup Hfit. unfold estimate_ecs. apply estimate_loop_returns.
    + intros m Hm. rewrite Hci, Hai. auto.
    + intros m Hm. apply Hgroup. now apply Helig.
    + intros m Hm. apply Hfit. now apply Helig.
Qed.

(** X31.  Let the first loop return.  Every series it leaves belongs to a
    run that had the three fluxes and a temperature dataset.  The
    splitting cell then returns and hands the ECS loop exactly the models
    having both a control and a quadrupling run among those series.
    Whenever the ECS loop returns, a model has an ECS entry if and only if
    it is such a model and its quadrupling-run imbalance anomaly series has
    at least [limits[1]] time steps.  The ECS loop returns as soon as the
    series of every such model have a time dimension and the fit returns
    for the models that pass the size test. *)
Theorem ecs_only_for_eligible_models (F : Type) (AF : Arith F)
    (cosdeg : F -> F) (polyfit : list F -> list F -> result (F * F))
    (limits : nat * nat) (rad tas : dict (Dataset F)) (red : Reduced F) :
  reduce_all cosdeg rad tas = Ok red ->
  (forall name, In name (dict_keys (gmst_dict red)) ->
     exists ds_rad, In (name, ds_rad) rad /\ has_fluxes ds_rad = true /\
                    dict_mem name tas = true) /\
  exists runs,
    split_runs (gmst_dict red) (imbalance_dict red) = Ok runs /\
    (forall m, In m (dict_keys (ctrl_gmst_dict runs)) <-> eligible (gmst_dict red) m) /\
    (forall res, estimate_ecs polyfit limits runs = Ok res ->
       forall m, In m (dict_keys (ECS res)) <->
                 eligible (gmst_dict red) m /\ long_enough limits runs m) /\
    ((forall m, eligible (gmst_dict red) m -> has_annual_series runs m) ->
     (forall m, eligible (gmst_dict red) m -> long_enough limits runs m ->
                fit_returns polyfit limits runs m) ->
     exists res, estimate_ecs polyfit limits runs = Ok res).
Proof.
  intros Hred. destruct (reduce_all_series cosdeg rad tas Hred) as (Hkeys & Hall).
  split; [intros name Hn; now apply Hall|].
  apply eligible_series_get_ecs; [assumption|].
  intros name Hn. now apply Hall.
Qed.

(** The batch of three models run through the whole notebook: A (control
    only) and B (two years for a window of three) are passed over, C gets
    its ECS, and nothing raises. *)
Example three_models_run :
  exists res,
    notebook Demo.unit_cos (polyfit_exact Demo.no_fit) Demo.three_limits
      Demo.three_rad Demo.three_tas = Ok res /\
    ECS res = [("C", 2%Q)].
Proof. eexists. split; vm_compute; reflexivity. Qed.

(** C5's failing input run through the whole notebook: three models with
    both runs, the quadrupling run of the second with one time step.  The
    batch ends with [ValueError]; without that model it returns. *)
Example one_step_batch_aborts :
  notebook Demo.unit_cos (polyfit_exact Demo.no_fit) Demo.three_limits
    Demo.one_step_rad Demo.one_step_tas = Raise ValueError.
Proof. vm_compute. reflexivity. Qed.

(** ** The end-to-end scenario *)

Section EndToEnd.

Local Open Scope Q_scope.

(** The scenario's run, reduced to what is compared: the ECS mapping has
    the single key [M], and its value is 3/4 in lowest terms. *)
Lemma scenario_run (zero_abscissae : list Q -> list Q -> result (Q * Q)) :
  match notebook Demo.unit_cos (polyfit_exact zero_abscissae) Demo.scenario_limits
          Demo.scenario_rad Demo.scenario_tas with
  | Ok res =>
      match ECS res with
      | [(k, q)] => String.eqb k "M" && Z.eqb (Qnum q) 3 && Pos.eqb (Qden q) 4
      | _ => false
      end
  | Raise _ => false
  end = true.
Proof. vm_compute. reflexivity. Qed.

(** C1, as the code computes it.  On the scenario's inputs, with the window
    [100, 150), the notebook returns one ECS entry.  The imbalance anomaly
    is taken against the control mean 5, so the fitted line has slope -2
    and intercept 8 - 5 = 3, and the ECS is 3/2/2 = 3/4.  (Exact
    arithmetic.) *)
Theorem end_to_end_scenario (zero_abscissae : list Q -> list Q -> result (Q * Q)) :
  exists res,
    notebook Demo.unit_cos (polyfit_exact zero_abscissae) Demo.scenario_limits
      Demo.scenario_rad Demo.scenario_tas = Ok res /\
    ECS res = [("M", 3 # 4)] /\
    3 # 4 == (8 - 5) / 2 / 2.
Proof.
  pose proof (scenario_run zero_abscissae) as H.
  destruct (notebook _ _ _ _ _) as [res|e]; [|discriminate H].
  destruct (ECS res) as [|[k [qn qd]] [|]] eqn:E; try discriminate H.
  apply andb_prop in H as [H Hd]. apply andb_prop in H as [Hk Hn].
  apply String.eqb_eq in Hk as ->. apply Z.eqb_eq in Hn. apply Pos.eqb_eq in Hd.
  simpl in Hn, Hd. subst qn qd.
  exists res. rewrite E. repeat split.
Qed.

(** C1 as stated fails: the value the scenario is said to yield,
    8/2/2 = 2, is not what the notebook returns on it. *)
Lemma end_to_end_scenario_not_two :
  ~ (forall zero_abscissae : list Q -> list Q -> result (Q * Q),
       exists res q,
         notebook Demo.unit_cos (polyfit_exact zero_abscissae) Demo.scenario_limits
           Demo.scenario_rad Demo.scenario_tas = Ok res /\
         dict_get "M" (ECS res) = Some q /\
         q == 8 / 2 / 2).
Proof.
  intros H. destruct (H Demo.no_fit) as (res & q & Hrun & Hget & Hq).
  pose proof (scenario_run Demo.no_fit) as Hr. rewrite Hrun in Hr.
  destruct (ECS res) as [|[k [qn qd]] [|]]; try discriminate Hr.
  apply andb_prop in Hr as [Hr Hd]. apply andb_prop in Hr as [Hk Hn].
  apply String.eqb_eq in Hk as ->. apply Z.eqb_eq in Hn. apply Pos.eqb_eq in Hd.
  simpl in Hn, Hd. subst qn qd.
  simpl in Hget. injection Hget as <-.
  discriminate Hq.
Qed.

End EndToEnd.

(** ** Global means in binary64 *)

Section GlobalMeanBinary64.

Example tenth_mean_binary64 :
  global_mean Demo64.unit_cos Demo64.equator Demo64.lon3 Demo64.tenth 0
  = 0.10000000000000002%float.
Proof. vm_compute. reflexivity. Qed.

Example net_toa_two_ways_binary64 :
  global_mean Demo64.unit_cos Demo64.equator Demo64.lon2
    (net_toa Demo64.rsdt2 Demo64.rsut2 Demo64.rlut2) 0
  = 0.40000000000003411%float /\
  net_toa_of_means Demo64.unit_cos Demo64.equator Demo64.lon2
    Demo64.rsdt2 Demo64.rsut2 Demo64.rlut2 0
  = 0.40000000000006253%float.
Proof. split; vm_compute; reflexivity. Qed.

(** C7 as stated fails in binary64: the mean of a constant field need not
    be the constant.  Three cells at the equator holding 0.1 average to
    0.10000000000000002. *)
Lemma constant_field_mean_binary64_inexact :
  ~ (forall (cosdeg : float -> float) (lat lon : list float)
            (field : nat -> nat -> nat -> float) (v : float) (t : nat),
       (forall i j, (i < List.length lat)%nat -> (j < List.length lon)%nat ->
                    field t i j = v) ->
       PrimFloat.eqb (total_weight cosdeg lat lon) 0%float = false ->
       PrimFloat.eqb (global_mean cosdeg lat lon field t) v = true).
Proof.
  intros H.
  specialize (H Demo64.unit_cos Demo64.equator Demo64.lon3 Demo64.tenth 0.1%float 0%nat).
  assert (Hno : PrimFloat.eqb (global_mean Demo64.unit_cos Demo64.equator Demo64.lon3
                                 Demo64.tenth 0) 0.1%float = false)
    by (vm_compute; reflexivity).
  rewrite H in Hno; [discriminate Hno | reflexivity | vm_compute; reflexivity].
Qed.

(** C8 as stated fails in binary64: reducing the combined field and
    combining the reduced fields round differently, 0.40000000000003411
    against 0.40000000000006253 on two cells at the equator. *)
Lemma net_toa_mean_binary64_inexact :
  ~ (forall (cosdeg : float -> float) (lat lon : list float)
            (rsdt rsut rlut : nat -> nat -> nat -> float) (t : nat),
       PrimFloat.eqb (total_weight cosdeg lat lon) 0%float = false ->
       PrimFloat.eqb
         (global_mean cosdeg lat lon (net_toa rsdt rsut rlut) t)
         (net_toa_of_means cosdeg lat lon rsdt rsut rlut t) = true).
Proof.
  intros H.
  specialize (H Demo64.unit_cos Demo64.equator Demo64.lon2
                Demo64.rsdt2 Demo64.rsut2 Demo64.rlut2 0%nat).
  assert (Hno : PrimFloat.eqb
                  (global_mean Demo64.unit_cos Demo64.equator Demo64.lon2
                     (net_toa Demo64.rsdt2 Demo64.rsut2 Demo64.rlut2) 0)
                  (net_toa_of_means Demo64.unit_cos Demo64.equator Demo64.lon2
                     Demo64.rsdt2 Demo64.rsut2 Demo64.rlut2 0) = false)
    by (vm_compute; reflexivity).
  rewrite H in Hno; [discriminate Hno | vm_compute; reflexivity].
Qed.

End GlobalMeanBinary64.

(** ** The ordering of the ECS mapping *)

Lemma StronglySorted_nth (A : Type) (R : A -> A -> Prop) (l : list A) :
  StronglySorted R l ->
  forall i j a b, (i < j)%nat -> nth_error l i = Some a -> nth_error l j = Some b -> R a b.
Proof.
  induction 1 as [|x l Hs IH Hall]; intros i j a b Hij Hi Hj.
  - destruct i; discriminate.
  - destruct j as [|j]; [lia|]. simpl in Hj. destruct i as [|i]; simpl in Hi.
    + injection Hi as <-. rewrite Forall_forall in Hall. apply Hall.
      eapply nth_error_In; eauto.
    + apply (IH i j); [lia | assumption | assumption].
Qed.

Lemma StronglySorted_insert (A : Type) (R : A -> A -> Prop) (a : list A) x (b : list A) :
  StronglySorted R (a ++ b) -> Forall (fun u => R u x) a -> Forall (R x) b ->
  StronglySorted R (a ++ x :: b).
Proof.
  induction a as [|y a IH]; simpl; intros Hs Ha Hb.
  - now constructor.
  - inversion Hs as [|? ? Hs' Hy]; subst. inversion Ha as [|? ? Hyx Ha']; subst.
    constructor; [now apply IH|].
    apply Forall_app in Hy as [Hy1 Hy2]. apply Forall_app. split; [assumption|].
    now constructor.
Qed.

Lemma filter_none (A : Type) (f : A -> bool) (l : list A) :
  Forall (fun x => f x = false) l -> filter f l = [].
Proof. induction 1 as [|x l Hx _ IH]; simpl; [reflexivity | now rewrite Hx]. Qed.

Lemma Forall_firstn_of (A : Type) (P : A -> Prop) n (l : list A) :
  Forall P l -> Forall P (firstn n l).
Proof.
  intros H. rewrite <- (firstn_skipn n l) in H. now apply Forall_app in H as [H _].
Qed.

Lemma Forall_skipn_of (A : Type) (P : A -> Prop) n (l : list A) :
  Forall P l -> Forall P (skipn n l).
Proof.
  intros H. rewrite <- (firstn_skipn n l) in H. now apply Forall_app in H as [_ H].
Qed.

Section SortRuns.

Context {F : Type} {AF : Arith F}.

Lemma binary_insert_perm (pre : list (string * F)) p :
  Permutation (binary_insert pre p) (p :: pre).
Proof.
  unfold binary_insert.
  set (l := bisect _ _ _ _ _).
  transitivity (p :: firstn l pre ++ skipn l pre)%list;
    [symmetry; apply Permutation_middle | now rewrite firstn_skipn].
Qed.

Lemma binarysort_perm (rest pre : list (string * F)) :
  Permutation (binarysort pre rest) (pre ++ rest).
Proof.
  unfold binarysort. revert pre. induction rest as [|p rest IH]; intros pre; simpl.
  - now rewrite app_nil_r.
  - rewrite IH, binary_insert_perm. simpl. apply Permutation_middle.
Qed.

Lemma sorted_by_value_perm_any (l : list (string * F)) :
  Permutation (sorted_by_value l) l.
Proof.
  unfold sorted_by_value. destruct (count_run l) as [n d].
  rewrite binarysort_perm.
  transitivity (firstn n l ++ skipn n l)%list; [|now rewrite firstn_skipn].
  apply Permutation_app_tail.
  destruct d; [symmetry; apply Permutation_rev | reflexivity].
Qed.

(** The initial run of a list seen from its first item. *)
Lemma count_run_cons (p : string * F) (l : list (string * F)) :
  exists d, count_run (p :: l) = (S (run_tail d (snd p) l), d) /\
            (d = true -> exists q rest, l = q :: rest /\ fltb (snd q) (snd p) = true).
Proof.
  destruct l as [|q rest]; simpl.
  - exists false. split; [reflexivity | discriminate].
  - exists (fltb (snd q) (snd p)). rewrite Bool.eqb_reflx. split; [reflexivity|].
    intros H. now exists q, rest.
Qed.

(** A list no item of which is less than the one before it is one run. *)
Lemma run_tail_sorted (p : string * F) (l : list (string * F)) :
  Sorted key_le (p :: l) -> run_tail false (snd p) l = List.length l.
Proof.
  revert p. induction l as [|q l IH]; intros p H; simpl; [reflexivity|].
  inversion H as [|? ? Hs Hhd]; subst. inversion Hhd as [|? ? Hpq]; subst.
  unfold key_le in Hpq. rewrite Hpq. simpl. f_equal. now apply IH.
Qed.

Lemma sorted_by_value_fixes (l : list (string * F)) :
  Sorted key_le l -> sorted_by_value l = l.
Proof.
  intros H. unfold sorted_by_value.
  destruct l as [|p l]; [reflexivity|].
  destruct (count_run_cons p l) as (d & Hc & Hd). rewrite Hc.
  assert (d = false) as ->.
  { destruct d; [|reflexivity]. destruct (Hd eq_refl) as (q & rest & -> & Hlt).
    inversion H as [|? ? _ Hhd]; subst. inversion Hhd as [|? ? Hpq]; subst.
    unfold key_le in Hpq. congruence. }
  rewrite (run_tail_sorted H).
  change (S (List.length l)) with (List.length (p :: l)).
  rewrite firstn_all, skipn_all. reflexivity.
Qed.

End SortRuns.

Section SortOrder.

Context {F : Type} {AF : Arith F}.

(** The keys that compare as numbers do. *)
Variable ok : F -> Prop.
Hypothesis lt_asym : forall x y, ok x -> ok y -> fltb x y = true -> fltb y x = false.
Hypothesis lt_ntrans : forall x y z, ok x -> ok y -> ok z ->
  fltb x y = false -> fltb y z = false -> fltb x z = false.

Lemma lt_trans x y z : ok x -> ok y -> ok z ->
  fltb x y = true -> fltb y z = true -> fltb x z = true.
Proof.
  intros Hx Hy Hz Hxy Hyz. destruct (fltb x z) eqn:E; [reflexivity|].
  pose proof (lt_asym Hy Hz Hyz) as Hzy.
  pose proof (lt_ntrans Hx Hz Hy E Hzy). congruence.
Qed.

Lemma key_le_trans p q r : ok (snd p) -> ok (snd q) -> ok (snd r) ->
  key_le p q -> key_le q r -> key_le p r.
Proof. unfold key_le. intros Hp Hq Hr Hpq Hqr. exact (lt_ntrans Hr Hq Hp Hqr Hpq). Qed.

Lemma keys_ok_nth (l : list (string * F)) i q :
  keys_ok ok l -> nth_error l i = Some q -> ok (snd q).
Proof.
  intros H Hq. unfold keys_ok in H. rewrite Forall_forall in H.
  apply H. eapply nth_error_In; eauto.
Qed.

Lemma bisect_spec (pivot : F) (pre : list (string * F)) :
  ok pivot -> keys_ok ok pre -> StronglySorted key_le pre ->
  forall rounds l r,
    (l <= r <= List.length pre)%nat -> (r - l <= rounds)%nat ->
    (forall i q, (i < l)%nat -> nth_error pre i = Some q -> fltb pivot (snd q) = false) ->
    (forall i q, (r <= i)%nat -> nth_error pre i = Some q -> fltb pivot (snd q) = true) ->
    (forall i q, (i < bisect rounds pivot pre l r)%nat ->
                 nth_error pre i = Some q -> fltb pivot (snd q) = false) /\
    (forall i q, (bisect rounds pivot pre l r <= i)%nat ->
                 nth_error pre i = Some q -> fltb pivot (snd q) = true).
Proof.
  intros Hp Hok Hs. induction rounds as [|n IH]; intros l r Hlr Hn Hlo Hhi; cbn [bisect]; cbv zeta.
  - assert (l = r) by lia. subst. split; assumption.
  - destruct (Nat.ltb_spec l r) as [Hlt|Hge].
    + assert (Hhalf : ((r - l) / 2 < r - l)%nat) by (apply Nat.div_lt; lia).
      set (p := (l + (r - l) / 2)%nat) in *.
      assert (Hpl : (l <= p < r)%nat) by (unfold p; lia).
      destruct (nth_error pre p) as [q|] eqn:Eq; [|apply nth_error_None in Eq; lia].
      pose proof (@keys_ok_nth _ _ _ Hok Eq) as Hq.
      destruct (fltb pivot (snd q)) eqn:Ec.
      * apply (IH l p); [lia | lia | exact Hlo |].
        intros i q' Hi Hq'. destruct (Nat.eq_dec i p) as [->|Hne]; [congruence|].
        assert (Hle : key_le q q') by (apply (@StronglySorted_nth _ _ _ Hs p i); [lia|auto..]).
        destruct (fltb pivot (snd q')) eqn:E'; [reflexivity|]. exfalso.
        pose proof (lt_ntrans Hp (@keys_ok_nth _ _ _ Hok Hq') Hq E' Hle). congruence.
      * apply (IH (S p) r); [lia | lia | | exact Hhi].
        intros i q' Hi Hq'. destruct (Nat.eq_dec i p) as [->|Hne]; [congruence|].
        assert (Hle : key_le q' q) by (apply (@StronglySorted_nth _ _ _ Hs i p); [lia|auto..]).
        exact (lt_ntrans Hp Hq (@keys_ok_nth _ _ _ Hok Hq') Ec Hle).
    + assert (l = r) by lia. subst. split; assumption.
Qed.

(** Where the bisection puts an item: behind the items it is not less
    than, before the items it is less than. *)
Lemma binary_insert_split (pre : list (string * F)) (p : string * F) :
  ok (snd p) -> keys_ok ok pre -> StronglySorted key_le pre ->
  exists a b,
    pre = (a ++ b)%list /\ binary_insert pre p = (a ++ p :: b)%list /\
    Forall (fun q => fltb (snd p) (snd q) = false) a /\
    Forall (fun q => fltb (snd p) (snd q) = true) b.
Proof.
  intros Hp Hok Hs. unfold binary_insert.
  destruct (@bisect_spec (snd p) pre Hp Hok Hs (List.length pre) 0 (List.length pre))
    as [Hlo Hhi]; [lia | lia | intros; lia | |].
  { intros i q Hi Hq. assert (nth_error pre i = None) by now apply nth_error_None.
    congruence. }
  set (k := bisect _ _ _ _ _) in *.
  exists (firstn k pre), (skipn k pre).
  split; [symmetry; apply firstn_skipn|]. split; [reflexivity|].
  split; apply Forall_forall; intros q Hin; apply In_nth_error in Hin as [i Hi].
  - rewrite nth_error_firstn in Hi. destruct (Nat.ltb_spec i k); [|discriminate].
    now apply (Hlo i).
  - rewrite nth_error_skipn in Hi. apply (Hhi (k + i)%nat); [lia | assumption].
Qed.

Lemma binary_insert_ok (pre : list (string * F)) (p : string * F) :
  ok (snd p) -> keys_ok ok pre -> keys_ok ok (binary_insert pre p).
Proof.
  intros Hp Hok. unfold keys_ok.
  rewrite (binary_insert_perm pre p). now constructor.
Qed.

Lemma binary_insert_sorted (pre : list (string * F)) (p : string * F) :
  ok (snd p) -> keys_ok ok pre -> StronglySorted key_le pre ->
  StronglySorted key_le (binary_insert pre p).
Proof.
  intros Hp Hok Hs.
  destruct (@binary_insert_split pre p Hp Hok Hs) as (a & b & Hpre & -> & Ha & Hb).
  subst pre. apply StronglySorted_insert; [assumption | exact Ha |].
  apply Forall_app in Hok as [_ Hokb]. unfold keys_ok in Hokb.
  rewrite Forall_forall in *. intros q Hq. unfold key_le.
  apply lt_asym; auto.
Qed.

Lemma binary_insert_filter (v : F) (pre : list (string * F)) (p : string * F) :
  ok v -> ok (snd p) -> keys_ok ok pre -> StronglySorted key_le pre ->
  filter (same_key v) (binary_insert pre p) = filter (same_key v) (pre ++ [p]).
Proof.
  intros Hv Hp Hok Hs.
  destruct (@binary_insert_split pre p Hp Hok Hs) as (a & b & Hpre & -> & Ha & Hb).
  subst pre. rewrite <- app_assoc, !filter_app. f_equal. simpl.
  destruct (same_key v p) eqn:Ep; [|now rewrite app_nil_r].
  rewrite filter_none; [reflexivity|].
  apply Forall_app in Hok as [_ Hokb]. unfold keys_ok in Hokb.
  rewrite Forall_forall in *. intros q Hq.
  destruct (same_key v q) eqn:Eq; [|reflexivity]. exfalso.
  unfold same_key in Ep, Eq.
  apply andb_prop in Ep as [Ep1 Ep2]. apply andb_prop in Eq as [Eq1 Eq2].
  apply negb_true_iff in Ep1, Ep2, Eq1, Eq2.
  pose proof (lt_ntrans Hp Hv (Hokb q Hq) Ep1 Eq2) as H.
  rewrite (Hb q Hq) in H. discriminate.
Qed.

Lemma binarysort_sorted (rest pre : list (string * F)) :
  keys_ok ok pre -> keys_ok ok rest -> StronglySorted key_le pre ->
  StronglySorted key_le (binarysort pre rest).
Proof.
  unfold binarysort. revert pre.
  induction rest as [|p rest IH]; intros pre Hpre Hrest Hs; simpl; [assumption|].
  inversion Hrest as [|? ? Hp Hrest']; subst.
  apply IH; [now apply binary_insert_ok | assumption | now apply binary_insert_sorted].
Qed.

Lemma binarysort_filter (v : F) (rest pre : list (string * F)) :
  ok v -> keys_ok ok pre -> keys_ok ok rest -> StronglySorted key_le pre ->
  filter (same_key v) (binarysort pre rest) = filter (same_key v) (pre ++ rest).
Proof.
  intros Hv. unfold binarysort. revert pre.
  induction rest as [|p rest IH]; intros pre Hpre Hrest Hs; simpl.
  - now rewrite app_nil_r.
  - inversion Hrest as [|? ? Hp Hrest']; subst.
    rewrite IH; [| now apply binary_insert_ok | assumption | now apply binary_insert_sorted].
    rewrite !filter_app, binary_insert_filter by assumption.
    rewrite filter_app, <- app_assoc. f_equal. simpl.
    destruct (same_key v p); reflexivity.
Qed.

(** An ascending run is in order. *)
Lemma ascending_run (l : list (string * F)) :
  forall p, ok (snd p) -> keys_ok ok l ->
    StronglySorted key_le (p :: firstn (run_tail false (snd p) l) l).
Proof.
  induction l as [|q l IH]; intros p Hp Hok; simpl.
  - repeat constructor.
  - inversion Hok as [|? ? Hq Hok']; subst.
    destruct (fltb (snd q) (snd p)) eqn:E; simpl; [repeat constructor|].
    specialize (IH q Hq Hok'). constructor; [assumption|].
    inversion IH as [|? ? _ Hall]; subst. constructor; [exact E|].
    pose proof (@Forall_firstn_of _ _ (run_tail false (snd q) l) _ Hok') as Hokf.
    rewrite Forall_forall in *. intros r Hr.
    apply (@key_le_trans p q r); auto.
Qed.

(** A descending run is strictly so. *)
Lemma descending_run (l : list (string * F)) :
  forall p, ok (snd p) -> keys_ok ok l ->
    StronglySorted (fun a b => fltb (snd b) (snd a) = true)
      (p :: firstn (run_tail true (snd p) l) l).
Proof.
  induction l as [|q l IH]; intros p Hp Hok; simpl.
  - repeat constructor.
  - inversion Hok as [|? ? Hq Hok']; subst.
    destruct (fltb (snd q) (snd p)) eqn:E; simpl; [|repeat constructor].
    specialize (IH q Hq Hok'). constructor; [assumption|].
    inversion IH as [|? ? _ Hall]; subst. constructor; [exact E|].
    pose proof (@Forall_firstn_of _ _ (run_tail true (snd q) l) _ Hok') as Hokf.
    rewrite Forall_forall in *. intros r Hr.
    apply (@lt_trans (snd r) (snd q) (snd p)); auto.
Qed.

(** Reversed, a strictly descending run is in order, and for each value
    it holds at most one entry. *)
Lemma descending_run_rev (l : list (string * F)) :
  keys_ok ok l -> StronglySorted (fun a b => fltb (snd b) (snd a) = true) l ->
  StronglySorted key_le (rev l) /\
  forall v, ok v -> filter (same_key v) (rev l) = filter (same_key v) l.
Proof.
  intros Hok Hs. induction Hs as [|p l Hs IH Hall].
  - split; [constructor | reflexivity].
  - inversion Hok as [|? ? Hp Hok']; subst.
    destruct (IH Hok') as [IH1 IH2]. simpl rev.
    unfold keys_ok in Hok'. rewrite Forall_forall in Hall, Hok'. split.
    + rewrite <- (app_nil_r (rev l)) in IH1.
      apply StronglySorted_insert; [exact IH1 | | constructor].
      apply Forall_forall. intros q Hq. apply in_rev in Hq. unfold key_le.
      apply lt_asym; auto.
    + intros v Hv. rewrite filter_app, IH2 by assumption. simpl.
      destruct (same_key v p) eqn:Ep; [|now rewrite app_nil_r].
      rewrite filter_none; [reflexivity|].
      apply Forall_forall. intros q Hq.
      destruct (same_key v q) eqn:Eq; [|reflexivity]. exfalso.
      unfold same_key in Ep, Eq.
      apply andb_prop in Ep as [Ep1 Ep2]. apply andb_prop in Eq as [Eq1 Eq2].
      apply negb_true_iff in Ep1, Ep2, Eq1, Eq2.
      pose proof (lt_ntrans (Hok' q Hq) Hv Hp Eq1 Ep2) as H.
      rewrite (Hall q Hq) in H. discriminate.
Qed.

(** The initial run, reversed when it descends, is in order and keeps the
    entries of each value in their order. *)
Lemma initial_run_sorted (l : list (string * F)) n d :
  keys_ok ok l -> count_run l = (n, d) ->
  let run := firstn n l in
  StronglySorted key_le (if d then rev run else run) /\
  forall v, ok v ->
    filter (same_key v) (if d then rev run else run) = filter (same_key v) run.
Proof.
  intros Hok Hc. destruct l as [|p l].
  - simpl in Hc. injection Hc as <- <-. simpl. split; [constructor | reflexivity].
  - inversion Hok as [|? ? Hp Hok']; subst.
    destruct (count_run_cons p l) as (d' & Hc' & _). rewrite Hc' in Hc.
    injection Hc as <- <-. cbv zeta. rewrite firstn_cons.
    destruct d'.
    + apply descending_run_rev.
      * constructor; [assumption | now apply Forall_firstn_of].
      * now apply descending_run.
    + split; [now apply ascending_run | reflexivity].
Qed.

Lemma sorted_by_value_sorted_ok (l : list (string * F)) :
  keys_ok ok l -> StronglySorted key_le (sorted_by_value l).
Proof.
  intros Hok. unfold sorted_by_value. destruct (count_run l) as [n d] eqn:Hc.
  destruct (initial_run_sorted Hok Hc) as [Hs _].
  apply binarysort_sorted; [| now apply Forall_skipn_of | exact Hs].
  pose proof (@Forall_firstn_of _ _ n _ Hok) as Hf.
  destruct d; [now apply Forall_rev | assumption].
Qed.

Lemma sorted_by_value_stable_ok (v : F) (l : list (string * F)) :
  ok v -> keys_ok ok l ->
  filter (same_key v) (sorted_by_value l) = filter (same_key v) l.
Proof.
  intros Hv Hok. unfold sorted_by_value. destruct (count_run l) as [n d] eqn:Hc.
  destruct (initial_run_sorted Hok Hc) as [Hs Hf].
  pose proof (@Forall_firstn_of _ _ n _ Hok) as Hokf.
  rewrite binarysort_filter; [| assumption | | now apply Forall_skipn_of | exact Hs].
  - rewrite filter_app, (Hf v Hv), <- filter_app, firstn_skipn. reflexivity.
  - destruct d; [now apply Forall_rev | assumption].
Qed.

End SortOrder.

(** *** Binary64 values other than NaN compare as numbers do *)

Section Binary64Order.

Ltac compare_cases :=
  change (Pos.compare_cont Eq) with Pos.compare in *;
  repeat match goal with
    | H : context [Z.compare ?a ?b] |- _ => destruct (Z.compare_spec a b)
    | |- context [Z.compare ?a ?b] => destruct (Z.compare_spec a b)
    | H : context [Pos.compare ?a ?b] |- _ => destruct (Pos.compare_spec a b)
    | |- context [Pos.compare ?a ?b] => destruct (Pos.compare_spec a b)
    end;
  simpl in *; try reflexivity; try discriminate; try lia.

Lemma SFltb_asym (x y : spec_float) : SFltb x y = true -> SFltb y x = false.
Proof.
  unfold SFltb, SFcompare.
  destruct x as [sx|sx| |sx mx ex], y as [sy|sy| |sy my ey];
    try discriminate; try reflexivity;
    repeat match goal with s : bool |- _ => destruct s end;
    try discriminate; try reflexivity; intros H; compare_cases.
Qed.

Lemma SFltb_ntrans (x y z : spec_float) :
  y <> S754_nan ->
  SFltb x y = false -> SFltb y z = false -> SFltb x z = false.
Proof.
  unfold SFltb, SFcompare.
  destruct x as [sx|sx| |sx mx ex], y as [sy|sy| |sy my ey], z as [sz|sz| |sz mz ez];
    try congruence; try reflexivity; intros _;
    repeat match goal with s : bool |- _ => destruct s end;
    try discriminate; try reflexivity; intros H1 H2; compare_cases.
Qed.

Lemma SFeqb_same (x y : spec_float) :
  x <> S754_nan -> y <> S754_nan ->
  SFeqb x y = negb (SFltb x y) && negb (SFltb y x).
Proof.
  unfold SFeqb, SFltb, SFcompare.
  destruct x as [sx|sx| |sx mx ex], y as [sy|sy| |sy my ey];
    try congruence; try reflexivity; intros _ _;
    repeat match goal with s : bool |- _ => destruct s end;
    try reflexivity; compare_cases.
Qed.

Lemma SFleb_not_below (x y : spec_float) :
  x <> S754_nan -> y <> S754_nan -> SFleb x y = negb (SFltb y x).
Proof.
  unfold SFleb, SFltb, SFcompare.
  destruct x as [sx|sx| |sx mx ex], y as [sy|sy| |sy my ey];
    try congruence; try reflexivity; intros _ _;
    repeat match goal with s : bool |- _ => destruct s end;
    try reflexivity; compare_cases.
Qed.

Lemma not_nan_spec (x : float) : PrimFloat.is_nan x = false -> Prim2SF x <> S754_nan.
Proof.
  unfold PrimFloat.is_nan. rewrite FloatAxioms.eqb_spec. intros H E.
  rewrite E in H. discriminate H.
Qed.

Lemma ltb_asym (x y : float) : PrimFloat.ltb x y = true -> PrimFloat.ltb y x = false.
Proof. rewrite !ltb_spec. apply SFltb_asym. Qed.

Lemma ltb_ntrans (x y z : float) :
  PrimFloat.is_nan y = false ->
  PrimFloat.ltb x y = false -> PrimFloat.ltb y z = false -> PrimFloat.ltb x z = false.
Proof. intros Hy. rewrite !ltb_spec. apply SFltb_ntrans. now apply not_nan_spec. Qed.

Lemma eqb_same (x y : float) :
  PrimFloat.is_nan x = false -> PrimFloat.is_nan y = false ->
  PrimFloat.eqb x y = negb (PrimFloat.ltb x y) && negb (PrimFloat.ltb y x).
Proof.
  intros Hx Hy. rewrite eqb_spec, !ltb_spec. apply SFeqb_same; now apply not_nan_spec.
Qed.

Lemma leb_not_below (x y : float) :
  PrimFloat.is_nan x = false -> PrimFloat.is_nan y = false ->
  PrimFloat.leb x y = negb (PrimFloat.ltb y x).
Proof.
  intros Hx Hy. rewrite leb_spec, !ltb_spec. apply SFleb_not_below; now apply not_nan_spec.
Qed.

Lemma eqb_nan_r (x v : float) : PrimFloat.is_nan v = true -> PrimFloat.eqb x v = false.
Proof.
  unfold PrimFloat.is_nan. rewrite !eqb_spec. intros H.
  unfold SFeqb, SFcompare in *.
  destruct (Prim2SF v) as [sv|sv| |sv mv ev]; try (destruct (Prim2SF x); reflexivity).
  - discriminate H.
  - destruct sv; discriminate H.
  - exfalso. destruct sv; simpl in H; rewrite Z.compare_refl in H;
      change (Pos.compare_cont Eq mv mv) with (Pos.compare mv mv) in H;
      rewrite Pos.compare_refl in H; discriminate H.
Qed.

End Binary64Order.

(** *** The ordered mapping *)

Section SortFacts.

Local Open Scope Q_scope.

Lemma StronglySorted_among (A : Type) (R R' : A -> A -> Prop) (l : list A) :
  (forall a b, In a l -> In b l -> R a b -> R' a b) ->
  StronglySorted R l -> StronglySorted R' l.
Proof.
  intros Himp Hs. induction Hs as [|x l Hs IH Hall]; constructor.
  - apply IH. intros a b Ha Hb. apply Himp; now right.
  - rewrite Forall_forall in *. intros y Hy. apply Himp; [now left | now right | auto].
Qed.

Lemma dict_set_fresh (V : Type) k (v : V) (d : dict V) :
  ~ In k (dict_keys d) -> dict_set k v d = (d ++ [(k, v)])%list.
Proof.
  unfold dict_keys. induction d as [|[k' v'] d IH]; simpl; intros Hk; [reflexivity|].
  destruct (String.eqb_spec k k') as [->|Hne]; [tauto|].
  f_equal. apply IH. tauto.
Qed.

(** Rebuilding a dictionary from pairs with distinct keys keeps the list. *)
Lemma dict_of_pairs_distinct (F : Type) (l acc : list (string * F)) :
  NoDup (dict_keys (acc ++ l)%list) ->
  fold_left (fun d p => dict_set (fst p) (snd p) d) l acc = (acc ++ l)%list.
Proof.
  revert acc. induction l as [|[k v] l IH]; intros acc Hnd; simpl.
  - now rewrite app_nil_r.
  - rewrite dict_set_fresh.
    + rewrite IH; rewrite <- app_assoc; [reflexivity | exact Hnd].
    + unfold dict_keys in *. rewrite map_app in Hnd. simpl in Hnd.
      apply NoDup_remove_2 in Hnd. intros Hin. apply Hnd.
      apply in_or_app. now left.
Qed.

Lemma ordered_ECS_sorted_items (F : Type) {AF : Arith F} (ecs : dict F) :
  NoDup (dict_keys ecs) -> ordered_ECS ecs = sorted_by_value ecs.
Proof.
  intros Hnd. unfold ordered_ECS, dict_of_pairs.
  rewrite dict_of_pairs_distinct; [reflexivity|]. simpl.
  unfold dict_keys in *.
  eapply Permutation_NoDup; [|exact Hnd].
  apply Permutation_map. symmetry. apply sorted_by_value_perm_any.
Qed.

(** Exact values compare as numbers do. *)
Lemma key_le_value_le (p q : string * Q) : key_le p q <-> value_le p q.
Proof.
  unfold key_le, value_le.
  change (fltb (snd q) (snd p)) with (negb (Qle_bool (snd p) (snd q))).
  rewrite negb_false_iff. apply Qle_bool_iff.
Qed.

Lemma Qlt_asym_bool (x y : Q) : fltb x y = true -> fltb y x = false.
Proof.
  change (fltb x y) with (negb (Qle_bool y x)).
  change (fltb y x) with (negb (Qle_bool x y)).
  rewrite negb_true_iff, negb_false_iff. intros H.
  apply Qle_bool_iff. destruct (Qlt_le_dec x y) as [Hlt|Hle]; [now apply Qlt_le_weak|].
  apply Qle_bool_iff in Hle. congruence.
Qed.

Lemma Qlt_ntrans_bool (x y z : Q) :
  fltb x y = false -> fltb y z = false -> fltb x z = false.
Proof.
  change (fltb x y) with (negb (Qle_bool y x)).
  change (fltb y z) with (negb (Qle_bool z y)).
  change (fltb x z) with (negb (Qle_bool z x)).
  rewrite !negb_false_iff, !Qle_bool_iff. intros Hyx Hzy. now apply Qle_trans with y.
Qed.

Lemma sorted_by_value_perm (l : list (string * Q)) :
  Permutation (sorted_by_value l) l.
Proof. apply sorted_by_value_perm_any. Qed.

Lemma sorted_by_value_sorted (l : list (string * Q)) :
  Sorted value_le (sorted_by_value l).
Proof.
  apply StronglySorted_Sorted.
  apply StronglySorted_among with (R := key_le);
    [intros a b _ _; apply key_le_value_le|].
  apply sorted_by_value_sorted_ok with (ok := fun _ => True).
  - intros x y _ _. apply Qlt_asym_bool.
  - intros x y z _ _ _. apply Qlt_ntrans_bool.
  - apply Forall_forall. auto.
Qed.

Lemma sorted_by_value_fixes_sorted (l : list (string * Q)) :
  Sorted value_le l -> sorted_by_value l = l.
Proof.
  intros H. apply sorted_by_value_fixes.
  induction H as [|p l Hs IH Hhd]; constructor; [assumption|].
  destruct Hhd; constructor. now apply key_le_value_le.
Qed.

(** C9, as the code behaves.  For an ECS mapping (keys distinct) none of
    whose values is NaN, infinities included, the ordered mapping holds the
    same entries, in ascending order of ECS value, and for every value the
    entries having that value keep the order in which they were inserted.
    (Binary64.) *)
Theorem ordered_ECS_ascending_stable (ecs : dict float) :
  NoDup (dict_keys ecs) ->
  (forall k v, In (k, v) ecs -> PrimFloat.is_nan v = false) ->
  Permutation (ordered_ECS ecs) ecs /\
  StronglySorted float_le (ordered_ECS ecs) /\
  forall v, filter (has_float v) (ordered_ECS ecs) = filter (has_float v) ecs.
Proof.
  intros Hnd Hnan. rewrite (@ordered_ECS_sorted_items _ _ _ Hnd).
  pose proof (sorted_by_value_perm_any ecs) as Hperm.
  assert (Hok : keys_ok (fun x => PrimFloat.is_nan x = false) ecs).
  { apply Forall_forall. intros [k v] Hin. exact (Hnan k v Hin). }
  assert (Hasym : forall x y : float,
             PrimFloat.is_nan x = false -> PrimFloat.is_nan y = false ->
             fltb x y = true -> fltb y x = false)
    by (intros x y _ _; apply ltb_asym).
  assert (Hnt : forall x y z : float,
             PrimFloat.is_nan x = false -> PrimFloat.is_nan y = false ->
             PrimFloat.is_nan z = false ->
             fltb x y = false -> fltb y z = false -> fltb x z = false)
    by (intros x y z _ Hy _; now apply ltb_ntrans).
  split; [exact Hperm|]. split.
  - apply StronglySorted_among with (R := key_le);
      [|exact (sorted_by_value_sorted_ok Hasym Hnt Hok)].
    intros [ka a] [kb b] Ha Hb Hle.
    apply (Permutation_in _ Hperm) in Ha, Hb.
    unfold float_le, key_le in *. simpl in *.
    rewrite leb_not_below by eauto.
    change (fltb b a) with (PrimFloat.ltb b a) in Hle. now rewrite Hle.
  - intros v. destruct (PrimFloat.is_nan v) eqn:Hv.
    + rewrite !filter_none; [reflexivity | |];
        apply Forall_forall; intros p _; unfold has_float; now apply eqb_nan_r.
    + assert (Hsame : forall l : list (string * float),
                 (forall p, In p l -> PrimFloat.is_nan (snd p) = false) ->
                 filter (has_float v) l = filter (same_key v) l).
      { intros l Hl. apply filter_ext_in. intros p Hp. unfold has_float, same_key.
        now rewrite eqb_same by auto. }
      rewrite !Hsame.
      * apply sorted_by_value_stable_ok with (ok := fun x => PrimFloat.is_nan x = false);
          assumption.
      * intros [k x] Hp. exact (Hnan k x Hp).
      * intros [k x] Hp. apply (Permutation_in _ Hperm) in Hp. exact (Hnan k x Hp).
Qed.

(** C9 as stated fails: a mapping holding a NaN is left with a value of
    [3.0] before a value of [1.0].  No entry is less than the one before
    it, as [<] sees it, so the whole list is taken for one ascending run. *)
Lemma ordered_ECS_nan_not_ascending :
  NoDup (dict_keys Demo64.ecs_nan) /\
  ordered_ECS Demo64.ecs_nan = [("A", 3%float); ("B", nan); ("C", 1%float)] /\
  ~ StronglySorted key_le (ordered_ECS Demo64.ecs_nan).
Proof.
  assert (E : ordered_ECS Demo64.ecs_nan = [("A", 3%float); ("B", nan); ("C", 1%float)])
    by (vm_compute; reflexivity).
  split; [|split; [exact E|]].
  - repeat constructor; simpl; intuition discriminate.
  - rewrite E. intros H. inversion H as [|? ? _ Hall]; subst.
    inversion Hall as [|? ? _ Hall']; subst. inversion Hall' as [|? ? HAC _]; subst.
    vm_compute in HAC. discriminate HAC.
Qed.

(** The sorting scenario, in exact arithmetic and in binary64. *)
Example ordered_ECS_ABC :
  ordered_ECS Demo.ecs_ABC = [("B", 1.1); ("A", 3.2); ("C", 3.2)].
Proof. reflexivity. Qed.

Example ordered_ECS_ABC_binary64 :
  ordered_ECS Demo64.ecs_ABC = [("B", 1.1%float); ("A", 3.2%float); ("C", 3.2%float)].
Proof. vm_compute. reflexivity. Qed.

End SortFacts.

(** ** Catalogue keys *)

Section KeyFacts.

Lemma split_nonempty (sep : ascii) (s : string) : split sep s <> [].
Proof.
  destruct s as [|c s]; simpl; [discriminate|].
  destruct (Ascii.eqb c sep); [discriminate|].
  destruct (split sep s); discriminate.
Qed.

(** Splitting yields one field more than there are separators. *)
Lemma split_length (sep : ascii) (s : string) :
  List.length (split sep s) = S (count_char sep s).
Proof.
  induction s as [|c s IH]; simpl; [reflexivity|].
  destruct (Ascii.eqb c sep); simpl; [now rewrite IH|].
  destruct (split sep s) as [|w ws] eqn:E; [discriminate IH | exact IH].
Qed.

(** A field free of the separator is split off whole. *)
Lemma split_field (sep : ascii) (w s : string) :
  count_char sep w = 0%nat ->
  split sep (w ++ String sep s) = w :: split sep s.
Proof.
  induction w as [|c w IH]; simpl; intros Hw.
  - now rewrite Ascii.eqb_refl.
  - destruct (Ascii.eqb c sep); [discriminate Hw|].
    now rewrite IH by exact Hw.
Qed.

Lemma split_last_field (sep : ascii) (w : string) :
  count_char sep w = 0%nat -> split sep w = [w].
Proof.
  induction w as [|c w IH]; simpl; intros Hw; [reflexivity|].
  destruct (Ascii.eqb c sep); [discriminate Hw|].
  now rewrite IH by exact Hw.
Qed.

Lemma split_join (sep : ascii) (w : string) (ws : list string) :
  Forall (fun f => count_char sep f = 0%nat) (w :: ws) ->
  split sep (join sep (w :: ws)) = w :: ws.
Proof.
  revert w. induction ws as [|w' ws IH]; intros w Hall.
  - simpl. apply split_last_field. now inversion Hall.
  - inversion Hall as [|? ? Hw Hrest]; subst.
    change (join sep (w :: w' :: ws)) with (w ++ String sep (join sep (w' :: ws))).
    rewrite split_field by exact Hw. f_equal. now apply IH.
Qed.

Lemma model_name_of_dots (name : string) :
  (exists m, model_name_of name = Ok m) <-> (2 <= count_char "."%char name)%nat.
Proof.
  unfold model_name_of, index.
  pose proof (split_length "."%char name) as Hlen.
  destruct (nth_error (split "."%char name) 2) as [m|] eqn:E.
  - split; [intros _ | eauto].
    assert (H : (2 < List.length (split "."%char name))%nat)
      by (apply nth_error_Some; congruence).
    lia.
  - split; [intros [m Hm]; discriminate Hm|].
    apply nth_error_None in E. lia.
Qed.

Lemma model_name_of_raises (name : string) :
  (count_char "."%char name < 2)%nat -> model_name_of name = Raise IndexError.
Proof.
  intros Hdots. unfold model_name_of, index.
  destruct (nth_error (split "."%char name) 2) as [m|] eqn:E; [|reflexivity].
  assert (H : (2 < List.length (split "."%char name))%nat)
    by (apply nth_error_Some; congruence).
  rewrite split_length in H. lia.
Qed.

(** X4.  A key put together from fields that hold no dot is taken apart
    into the same fields, and its third field is the model name the
    notebook uses. *)
Theorem model_name_of_joined_fields (a b m : string) (rest : list string) :
  Forall (fun f => count_char "."%char f = 0%nat) (a :: b :: m :: rest) ->
  split "."%char (join "."%char (a :: b :: m :: rest)) = a :: b :: m :: rest /\
  model_name_of (join "."%char (a :: b :: m :: rest)) = Ok m.
Proof.
  intros Hall. pose proof (@split_join _ _ _ Hall) as Hsplit.
  split; [exact Hsplit|].
  unfold model_name_of. now rewrite Hsplit.
Qed.

Lemma prefix_spec (sub s : string) :
  String.prefix sub s = true <-> exists post, s = sub ++ post.
Proof.
  revert s. induction sub as [|a sub IH]; intros s; simpl.
  - destruct s; (split; [intros _; eexists; reflexivity | reflexivity]).
  - destruct s as [|b s]; simpl.
    + split; [discriminate | intros [post H]; discriminate H].
    + destruct (Ascii.ascii_dec a b) as [->|Hne].
      * rewrite IH. split; intros [post H]; exists post; [now rewrite H | now injection H].
      * split; [discriminate | intros [post H]; congruence].
Qed.

Lemma contains_cons (sub : string) (c : ascii) (s : string) :
  contains sub (String c s) = String.prefix sub (String c s) || contains sub s.
Proof. reflexivity. Qed.

(** X5.  [sub in s] holds exactly when [sub] occurs in [s] as a block of
    consecutive characters, at any position. *)
Theorem contains_spec (sub s : string) :
  contains sub s = true <-> exists pre post, s = pre ++ sub ++ post.
Proof.
  split.
  - induction s as [|c s IH].
    + change (contains sub "") with (String.prefix sub "" || false).
      rewrite orb_false_r. intros H. apply prefix_spec in H as [post H].
      exists "", post. exact H.
    + rewrite contains_cons. intros H. apply orb_prop in H as [H|H].
      * apply prefix_spec in H as [post H]. exists "", post. exact H.
      * destruct (IH H) as (pre & post & ->). exists (String c pre), post. reflexivity.
  - intros (pre & post & ->). induction pre as [|c pre IH].
    + assert (H : String.prefix sub (sub ++ post) = true)
        by (apply prefix_spec; eauto).
      change ("" ++ sub ++ post) with (sub ++ post).
      destruct (sub ++ post) as [|c r].
      * change (contains sub "") with (String.prefix sub "" || false). now rewrite H.
      * rewrite contains_cons, H. reflexivity.
    + change (String c pre ++ sub ++ post) with (String c (pre ++ sub ++ post)).
      rewrite contains_cons, IH. apply orb_true_r.
Qed.

End KeyFacts.

(** ** The first loop, run by run *)

(** Looking a key up after filtering on keys. *)
Lemma dict_get_filter_keys (V : Type) (p : string -> bool) (k : string) (d : dict V) :
  dict_get k (filter (fun kv => p (fst kv)) d) = if p k then dict_get k d else None.
Proof.
  induction d as [|[k0 v0] d IH]; simpl; [now destruct (p k)|].
  destruct (p k0) eqn:E0; simpl.
  - destruct (String.eqb_spec k k0) as [->|Hne]; [now rewrite E0 | exact IH].
  - destruct (String.eqb_spec k k0) as [->|Hne]; [now rewrite IH, E0 | exact IH].
Qed.

Lemma filter_idem (A : Type) (p : A -> bool) (l : list A) :
  filter p (filter p l) = filter p l.
Proof.
  induction l as [|x l IH]; simpl; [reflexivity|].
  destruct (p x) eqn:E; simpl; [now rewrite E, IH | exact IH].
Qed.

Lemma for_each_app (A S : Type) (body : A -> S -> result S) (l1 l2 : list A) (st : S) :
  for_each body (l1 ++ l2)%list st = bind (for_each body l1 st) (for_each body l2).
Proof.
  revert st. induction l1 as [|x l1 IH]; intros st; simpl; [reflexivity|].
  destruct (body x st) as [st1|e]; simpl; [apply IH | reflexivity].
Qed.

Lemma for_each_returns (A S : Type) (body : A -> S -> result S) (xs : list A) (st : S) :
  Forall (fun x => forall s, exists s', body x s = Ok s') xs ->
  exists st', for_each body xs st = Ok st'.
Proof.
  revert st. induction xs as [|x xs IH]; intros st H; simpl; [eauto|].
  inversion H as [|? ? Hx Hxs]; subst.
  destruct (Hx st) as (st1 & ->). simpl. now apply IH.
Qed.

Section FirstLoop.

Context {F : Type} {AF : Arith F}.
Variable cosdeg : F -> F.

(** X6.  The model name is taken from the key before anything else is
    looked at.  A key with fewer than two dots therefore stops the loop with
    [IndexError] wherever it stands, even when its run lacks a flux and
    would have been passed over. *)
Theorem malformed_key_aborts (tas before : dict (Dataset F)) (name : string)
    (ds_rad : Dataset F) (rest : dict (Dataset F)) (red : Reduced F) :
  reduce_all cosdeg before tas = Ok red ->
  (count_char "."%char name < 2)%nat ->
  reduce_all cosdeg (before ++ (name, ds_rad) :: rest)%list tas = Raise IndexError.
Proof.
  intros Hbefore Hdots. unfold reduce_all in *.
  eapply for_each_raises; [exact Hbefore|].
  unfold reduce_run. simpl fst. now rewrite model_name_of_raises by exact Hdots.
Qed.

Lemma dict_keys_app (V : Type) (d e : dict V) :
  dict_keys (d ++ e)%list = (dict_keys d ++ dict_keys e)%list.
Proof. unfold dict_keys. apply map_app. Qed.

Lemma reduce_loop_keys (tas items : dict (Dataset F)) (st st' : Reduced F) :
  NoDup (dict_keys (gmst_dict st) ++ dict_keys items)%list ->
  dict_keys (imbalance_dict st) = dict_keys (gmst_dict st) ->
  dict_keys (ds_dict st) = dict_keys (gmst_dict st) ->
  for_each (reduce_run cosdeg tas) items st = Ok st' ->
  dict_keys (gmst_dict st') =
    (dict_keys (gmst_dict st)
     ++ dict_keys (filter (fun item => has_fluxes (snd item)) items))%list /\
  dict_keys (imbalance_dict st') = dict_keys (gmst_dict st') /\
  dict_keys (ds_dict st') = dict_keys (gmst_dict st').
Proof.
  revert st. induction items as [|[name ds_rad] items IH]; intros st Hnd Hi Hd H.
  - simpl in H. injection H as <-. simpl. now rewrite app_nil_r.
  - simpl in H. apply bind_ok in H as (st1 & Hrun & Hrest).
    assert (Hfresh : ~ In name (dict_keys (gmst_dict st))).
    { intros Hin. simpl in Hnd. apply NoDup_remove_2 in Hnd. apply Hnd.
      apply in_or_app. now left. }
    apply reduce_run_inv in Hrun
      as (_ & [[Hflux ->]|(Hflux & _ & ds & gmst & imbalance & ->)]).
    + simpl filter. cbn [snd]. rewrite Hflux.
      apply IH; auto. simpl in Hnd. now apply NoDup_remove_1 in Hnd.
    + simpl filter. cbn [snd]. rewrite Hflux.
      assert (Hg : dict_keys (dict_set name gmst (gmst_dict st))
                   = (dict_keys (gmst_dict st) ++ [name])%list).
      { rewrite dict_set_fresh by exact Hfresh. now rewrite dict_keys_app. }
      apply IH in Hrest; cbn [gmst_dict imbalance_dict ds_dict] in *.
      * destruct Hrest as (Hk & Hi' & Hd'). split; [|now split].
        rewrite Hk, Hg, <- app_assoc. reflexivity.
      * rewrite Hg, <- app_assoc. exact Hnd.
      * now apply dict_keys_set_same_keys.
      * now apply dict_keys_set_same_keys.
Qed.

(** X7.  When the first loop returns, the three dictionaries it has filled
    have the same keys in the same order: the keys of the radiation
    collection whose dataset has the three fluxes, in the order of that
    collection. *)
Theorem reduce_all_keys_in_order (rad tas : dict (Dataset F)) (red : Reduced F) :
  NoDup (dict_keys rad) ->
  reduce_all cosdeg rad tas = Ok red ->
  dict_keys (gmst_dict red) = dict_keys (filter (fun item => has_fluxes (snd item)) rad) /\
  dict_keys (imbalance_dict red) = dict_keys (gmst_dict red) /\
  dict_keys (ds_dict red) = dict_keys (gmst_dict red).
Proof.
  intros Hnd Hrun. unfold reduce_all in Hrun.
  apply reduce_loop_keys in Hrun; simpl; auto.
Qed.

(** A coordinate variable that the dropping keeps is what [ds[k]] returns. *)
Lemma coordinate_kept (k : string) (ds : Dataset F) (c : list F) :
  str_in k ["lat"; "lon"; "time"] = true ->
  dict_get k (ds_coords ds) = Some c ->
  coordinate k (drop_redundant ds) = Ok c.
Proof.
  intros Hk Hc. unfold coordinate, drop_redundant. cbn [ds_coords].
  now rewrite (dict_get_filter_keys (fun k => str_in k ["lat"; "lon"; "time"])), Hk, Hc.
Qed.

Lemma dict_mem_true (V : Type) (k : string) (d : dict V) :
  dict_mem k d = true <-> exists v, dict_get k d = Some v.
Proof.
  unfold dict_mem. destruct (dict_get k d); split; eauto; try discriminate.
  intros [v H]; discriminate H.
Qed.

Lemma reduce_run_returns (tas : dict (Dataset F)) (name : string) (ds_rad : Dataset F)
    (st : Reduced F) :
  reducible tas (name, ds_rad) = true ->
  exists st', reduce_run cosdeg tas (name, ds_rad) st = Ok st'.
Proof.
  intros H. unfold reducible in H. cbn [fst snd] in H.
  apply andb_prop in H as [Hdots H]. apply Nat.leb_le in Hdots.
  apply model_name_of_dots in Hdots as [m Hm].
  unfold reduce_run. cbn [fst snd]. rewrite Hm. cbn [bind].
  destruct (has_fluxes ds_rad); cbn [negb orb] in *; [|eauto].
  repeat (apply andb_prop in H as [H ?]).
  apply negb_true_iff in H.
  destruct (dict_get name tas) as [ds_tas|] eqn:Htas; [|discriminate].
  unfold has_grid in *.
  repeat match goal with
         | Hc : _ && _ = true |- _ => apply andb_prop in Hc as [? ?]
         end.
  repeat match goal with
         | Hc : dict_mem _ _ = true |- _ => apply dict_mem_true in Hc as [? Hc]
         end.
  unfold getitem at 1. rewrite Htas. cbn [bind].
  unfold reconcile. rewrite H. cbn [bind]. unfold spatial_averages.
  repeat match goal with
         | Hc : dict_get ?k (ds_coords ?d) = Some ?c |- _ =>
             rewrite (@coordinate_kept k d c eq_refl Hc); cbn [bind]
         end.
  change (ds_vars (drop_redundant ds_tas)) with (ds_vars ds_tas).
  change (ds_vars (drop_redundant ds_rad)) with (ds_vars ds_rad).
  unfold getitem.
  repeat match goal with
         | Hc : dict_get ?k ?d = Some _ |- context [dict_get ?k ?d] =>
             rewrite Hc; cbn [bind]
         end.
  eauto.
Qed.

(** X8.  The first loop returns on a collection all of whose runs are
    reducible: every key has a model component, and every run that has the
    three fluxes has them as data variables, needs no renaming, has a
    temperature dataset under the same key with the variable [tas], and
    both its datasets carry [lat] and [lon].  Runs lacking a flux need
    nothing but a well-formed key. *)
Theorem reduce_all_returns_when_reducible (rad tas : dict (Dataset F)) :
  forallb (reducible tas) rad = true ->
  exists red, reduce_all cosdeg rad tas = Ok red.
Proof.
  intros Hall. unfold reduce_all. apply for_each_returns. apply Forall_forall.
  intros [name ds_rad] Hin s. apply reduce_run_returns.
  rewrite forallb_forall in Hall. now apply Hall.
Qed.

(** X9.  Dropping the redundant coordinates keeps exactly [lat], [lon]
    and [time] among the coordinates, each with its values; a second pass
    changes nothing. *)
Theorem drop_redundant_keeps_grid (ds : Dataset F) :
  (forall k, dict_get k (ds_coords (drop_redundant ds)) =
             if str_in k ["lat"; "lon"; "time"] then dict_get k (ds_coords ds) else None) /\
  drop_redundant (drop_redundant ds) = drop_redundant ds.
Proof.
  split.
  - intros k. unfold drop_redundant. cbn [ds_coords].
    apply (dict_get_filter_keys (fun k => str_in k ["lat"; "lon"; "time"])).
  - unfold drop_redundant. cbn [ds_dims ds_year ds_coords ds_vars].
    now rewrite filter_idem.
Qed.

End FirstLoop.

(** ** Renaming the spatial dimensions *)

Section RenameFacts.

Context {F : Type} {AF : Arith F}.

Lemma rename_key_spatial (k : string) :
  rename_key spatial_renaming k =
  if String.eqb k "longitude" then "lon"
  else if String.eqb k "latitude" then "lat" else k.
Proof.
  unfold rename_key, spatial_renaming. cbn [dict_get].
  destruct (String.eqb k "longitude"); [reflexivity|].
  now destruct (String.eqb k "latitude").
Qed.

(** No name is renamed to a long name. *)
Lemma renamed_is_short (k : string) :
  rename_key spatial_renaming k <> "longitude" /\
  rename_key spatial_renaming k <> "latitude".
Proof.
  rewrite rename_key_spatial.
  destruct (String.eqb_spec k "longitude"); [split; discriminate|].
  destruct (String.eqb_spec k "latitude"); [split; discriminate|].
  now split.
Qed.

Lemma str_in_map_false (k : string) (f : string -> string) (l : list string) :
  (forall x, f x <> k) -> str_in k (map f l) = false.
Proof.
  intros Hf. unfold str_in. induction l as [|x l IH]; simpl; [reflexivity|].
  rewrite IH, orb_false_r. apply String.eqb_neq. intros H. now apply (Hf x).
Qed.

Lemma str_in_map_true (k : string) (f : string -> string) (l : list string) :
  str_in k l = true -> str_in (f k) (map f l) = true.
Proof.
  unfold str_in. induction l as [|x l IH]; simpl; [discriminate|].
  intros H. apply orb_prop in H as [H|H].
  - apply String.eqb_eq in H as ->. now rewrite String.eqb_refl.
  - rewrite (IH H). apply orb_true_r.
Qed.

Lemma rename_ok_inv (m : dict string) (ds ds' : Dataset F) :
  rename m ds = Ok ds' ->
  distinct (map (rename_key m) (ds_keys ds)) = true /\
  ds_dims ds' = map (fun kv => (rename_key m (fst kv), snd kv)) (ds_dims ds) /\
  ds_coords ds' = map (fun kv => (rename_key m (fst kv), snd kv)) (ds_coords ds) /\
  ds_vars ds' = map (fun kv => (rename_key m (fst kv), snd kv)) (ds_vars ds).
Proof.
  unfold rename. destruct (negb (forallb _ _)); [discriminate|].
  destruct (distinct _); [|discriminate]. cbn [negb].
  now injection 1 as <-.
Qed.

Lemma has_dim_renamed (m : dict string) (k : string) (ds ds' : Dataset F) :
  ds_dims ds' = map (fun kv => (rename_key m (fst kv), snd kv)) (ds_dims ds) ->
  has_dim k ds' = str_in k (map (rename_key m) (dict_keys (ds_dims ds))).
Proof.
  intros H. unfold has_dim. rewrite H. clear H. unfold dict_mem, str_in, dict_keys.
  induction (ds_dims ds) as [|[k0 n] d IH]; simpl; [reflexivity|].
  destruct (String.eqb k (rename_key m k0)); [reflexivity | exact IH].
Qed.

Lemma has_dim_str_in (k : string) (ds : Dataset F) :
  has_dim k ds = str_in k (dict_keys (ds_dims ds)).
Proof.
  unfold has_dim, dict_mem, str_in, dict_keys.
  induction (ds_dims ds) as [|[k0 n] d IH]; simpl; [reflexivity|].
  destruct (String.eqb k k0); [reflexivity | exact IH].
Qed.

(** X10.  The renaming step does nothing unless the radiation dataset has
    both a [longitude] and a [latitude] dimension: with one of them only,
    both datasets go on as they are.  When it renames, the radiation dataset
    comes out with the dimensions [lon] and [lat], and neither dataset has a
    [longitude] or a [latitude] dimension left.  Either way the radiation
    dataset no longer has both, so running the step again changes
    nothing. *)
Theorem reconcile_settles_names (ds_rad ds_tas r t : Dataset F) :
  reconcile ds_rad ds_tas = Ok (r, t) ->
  (needs_rename ds_rad = false -> r = ds_rad /\ t = ds_tas) /\
  (needs_rename ds_rad = true ->
     has_dim "lon" r = true /\ has_dim "lat" r = true /\
     has_dim "longitude" r = false /\ has_dim "latitude" r = false /\
     has_dim "longitude" t = false /\ has_dim "latitude" t = false) /\
  needs_rename r = false /\
  reconcile r t = Ok (r, t).
Proof.
  intros H.
  assert (Hr : (needs_rename ds_rad = false -> r = ds_rad /\ t = ds_tas) /\
               (needs_rename ds_rad = true ->
                has_dim "lon" r = true /\ has_dim "lat" r = true /\
                has_dim "longitude" r = false /\ has_dim "latitude" r = false /\
                has_dim "longitude" t = false /\ has_dim "latitude" t = false) /\
               needs_rename r = false).
  { unfold reconcile in H. destruct (needs_rename ds_rad) eqn:Hnr.
    - apply bind_ok in H as (r' & Hrr & H). apply bind_ok in H as (t' & Hrt & H).
      injection H as -> ->.
      apply rename_ok_inv in Hrr as (_ & Hdr & _). apply rename_ok_inv in Hrt as (_ & Hdt & _).
      unfold needs_rename in *.
      apply andb_prop in Hnr as [Hlon Hlat]. rewrite has_dim_str_in in Hlon, Hlat.
      rewrite !(fun k => @has_dim_renamed _ k _ _ Hdr), !(fun k => @has_dim_renamed _ k _ _ Hdt).
      assert (Hno : forall k l, k = "longitude" \/ k = "latitude" ->
                      str_in k (map (rename_key spatial_renaming) l) = false).
      { intros k l Hk. apply str_in_map_false. intros x.
        destruct Hk as [-> | ->]; apply renamed_is_short. }
      rewrite !(Hno "longitude") by (now left).
      rewrite !(Hno "latitude") by (now right).
      split; [discriminate|]. split; [|reflexivity]. intros _.
      split; [exact (@str_in_map_true _ (rename_key spatial_renaming) _ Hlon)|].
      split; [exact (@str_in_map_true _ (rename_key spatial_renaming) _ Hlat)|].
      repeat split.
    - injection H as -> ->. split; [now split|]. split; [discriminate | exact Hnr]. }
  destruct Hr as (Hsame & Hdims & Hr). repeat (split; [assumption|]).
  unfold reconcile. now rewrite Hr.
Qed.

Lemma distinct_app_r (l1 l2 : list string) :
  distinct (l1 ++ l2) = true -> distinct l2 = true.
Proof.
  induction l1 as [|k l1 IH]; simpl; [auto|].
  intros H. apply andb_prop in H as [_ H]. auto.
Qed.

Lemma distinct_app_l (l1 l2 : list string) :
  distinct (l1 ++ l2) = true -> distinct l1 = true.
Proof.
  induction l1 as [|k l1 IH]; simpl; [auto|].
  intros H. apply andb_prop in H as [Hk H]. rewrite (IH H), andb_true_r.
  apply negb_true_iff. apply negb_true_iff in Hk.
  unfold str_in in *. rewrite existsb_app in Hk. now apply orb_false_elim in Hk.
Qed.

Lemma str_in_In (k : string) (l : list string) : str_in k l = true <-> In k l.
Proof.
  unfold str_in. rewrite existsb_exists. split.
  - intros (x & Hx & Hk). apply String.eqb_eq in Hk. now subst.
  - intros H. exists k. split; [exact H | apply String.eqb_refl].
Qed.

(** In a dictionary whose renamed keys are distinct, the value stored
    under [k] is found under the new name of [k]. *)
Lemma dict_get_renamed (V : Type) (f : string -> string) (k : string) (v : V) (d : dict V) :
  distinct (map f (dict_keys d)) = true ->
  dict_get k d = Some v ->
  dict_get (f k) (map (fun kv => (f (fst kv), snd kv)) d) = Some v.
Proof.
  unfold dict_keys. induction d as [|[k0 v0] d IH]; simpl; [discriminate|].
  intros Hd Hget. apply andb_prop in Hd as [Hk0 Hd]. apply negb_true_iff in Hk0.
  destruct (String.eqb_spec k k0) as [->|Hne].
  - now rewrite String.eqb_refl.
  - destruct (String.eqb_spec (f k) (f k0)) as [Heq|_]; [|now apply IH].
    exfalso. assert (Hin : str_in (f k0) (map f (map fst d)) = true).
    { rewrite <- Heq. apply str_in_map_true. apply str_in_In.
      apply (@dict_get_some_key _ _ _ _ Hget). }
    congruence.
Qed.

(** A name the renaming neither moves nor produces is looked up as before. *)
Lemma dict_get_untouched (V : Type) (k : string) (d : dict V) :
  ~ In k ["longitude"; "latitude"; "lon"; "lat"] ->
  dict_get k (map (fun kv => (rename_key spatial_renaming (fst kv), snd kv)) d)
  = dict_get k d.
Proof.
  intros Hk. induction d as [|[k0 v0] d IH]; simpl; [reflexivity|].
  rewrite IH. rewrite rename_key_spatial.
  destruct (String.eqb_spec k0 "longitude") as [->|H1].
  - destruct (String.eqb_spec k "lon") as [->|_]; [simpl in Hk; tauto|].
    destruct (String.eqb_spec k "longitude") as [->|_]; [simpl in Hk; tauto | reflexivity].
  - destruct (String.eqb_spec k0 "latitude") as [->|H2]; [|reflexivity].
    destruct (String.eqb_spec k "lat") as [->|_]; [simpl in Hk; tauto|].
    destruct (String.eqb_spec k "latitude") as [->|_]; [simpl in Hk; tauto | reflexivity].
Qed.

(** X11.  When [rename({'longitude':'lon','latitude':'lat'})] returns, the
    coordinate that was stored as [latitude] is found as [lat] and the one
    stored as [longitude] as [lon], with the same values; every variable
    and coordinate whose name is none of the four keeps its name and its
    values. *)
Theorem renamed_grid_is_found (ds ds' : Dataset F) :
  rename spatial_renaming ds = Ok ds' ->
  (forall lat, dict_get "latitude" (ds_coords ds) = Some lat ->
               dict_get "lat" (ds_coords ds') = Some lat) /\
  (forall lon, dict_get "longitude" (ds_coords ds) = Some lon ->
               dict_get "lon" (ds_coords ds') = Some lon) /\
  (forall k, ~ In k ["longitude"; "latitude"; "lon"; "lat"] ->
             dict_get k (ds_vars ds') = dict_get k (ds_vars ds) /\
             dict_get k (ds_coords ds') = dict_get k (ds_coords ds)).
Proof.
  intros H. apply rename_ok_inv in H as (Hd & _ & Hc & Hv).
  unfold ds_keys in Hd. rewrite map_app in Hd. apply distinct_app_r in Hd.
  rewrite Hc, Hv. split; [|split].
  - intros lat Hlat.
    exact (@dict_get_renamed _ (rename_key spatial_renaming) _ _ _ Hd Hlat).
  - intros lon Hlon.
    exact (@dict_get_renamed _ (rename_key spatial_renaming) _ _ _ Hd Hlon).
  - intros k Hk. split; now apply dict_get_untouched.
Qed.

End RenameFacts.

(** ** Renaming follows the radiation dataset *)

Section UnreconciledGrid.

Context {F : Type} {AF : Arith F}.
Variable cosdeg : F -> F.



End UnreconciledGrid.


(** ** The splitting cells *)

Section SplitFacts.

Context {F : Type} {AF : Arith F}.

(** One pass over the reduced datasets: it returns when every key is well
    formed, and keeps the models its test lets through. *)
Lemma select_datasets_spec tag allowed (items acc : dict (Dataset F)) :
  (forall name, In name (dict_keys items) -> exists m, model_name_of name = Ok m) ->
  exists acc',
    for_each (select_dataset tag allowed) items acc = Ok acc' /\
    forall m, In m (dict_keys acc') <->
              In m (dict_keys acc) \/
              exists name, In name (dict_keys items) /\ contains tag name = true /\
                           model_name_of name = Ok m /\ allowed m = true.
Proof.
  revert acc. induction items as [|[name ds] items IH]; intros acc Hwf.
  - exists acc. split; [reflexivity|]. intros m. split; [auto|].
    intros [H|(n & [] & _)]; exact H.
  - destruct (Hwf name (or_introl eq_refl)) as (m0 & Hm0).
    simpl for_each. unfold select_dataset at 1. cbn [fst snd]. rewrite Hm0. cbn [bind].
    destruct (negb (contains tag name) || negb (allowed m0)) eqn:Hskip; cbn [bind].
    + destruct (IH acc (fun n Hn => Hwf n (or_intror Hn))) as (acc' & Hrun & Hchar).
      exists acc'. split; [exact Hrun|]. intros m. rewrite Hchar. split.
      * intros [Hm|(n & Hn & Ht & Hmn & Ha)]; [now left|].
        right. exists n. simpl. auto.
      * intros [Hm|(n & [<-|Hn] & Ht & Hmn & Ha)]; [now left| |].
        -- cbn [fst] in *. rewrite Hm0 in Hmn. injection Hmn as <-.
           rewrite Ht, Ha in Hskip. discriminate.
        -- right. exists n. auto.
    + apply orb_false_elim in Hskip as [Ht Ha]. apply negb_false_iff in Ht, Ha.
      destruct (IH (dict_set m0 ds acc) (fun n Hn => Hwf n (or_intror Hn)))
        as (acc' & Hrun & Hchar).
      exists acc'. split; [exact Hrun|]. intros m. rewrite Hchar, dict_keys_set. split.
      * intros [[->|Hm]|(n & Hn & Ht' & Hmn & Ha')]; [|now left|].
        -- right. exists name. simpl. auto.
        -- right. exists n. simpl. auto.
      * intros [Hm|(n & [<-|Hn] & Ht' & Hmn & Ha')]; [now left; right| |].
        -- left. left. cbn [fst] in *. rewrite Hm0 in Hmn. now injection Hmn.
        -- right. exists n. auto.
Qed.

(** A run whose key either lacks the tag or belongs to another model
    leaves the entries of model [m] alone. *)
Lemma select_run_keeps tag allowed (imb : dict (Series F)) (n : string) (s : Series F)
    (acc acc' : dict (Series F) * dict (Series F)) (m : string) :
  select_run tag allowed imb (n, s) acc = Ok acc' ->
  (contains tag n = true -> model_name_of n <> Ok m) ->
  dict_get m (fst acc') = dict_get m (fst acc) /\
  dict_get m (snd acc') = dict_get m (snd acc).
Proof.
  unfold select_run. cbn [fst snd]. intros H Hother.
  apply bind_ok in H as (m' & Hm' & H).
  destruct (negb (contains tag n) || negb (allowed m')) eqn:Hskip.
  - injection H as <-. now split.
  - apply orb_false_elim in Hskip as [Ht _]. apply negb_false_iff in Ht.
    apply bind_ok in H as (i & _ & H). injection H as <-. cbn [fst snd].
    assert (Hne : m' <> m) by (intros ->; now apply (Hother Ht)).
    split; now apply dict_get_set_neq.
Qed.

Lemma select_loop_keeps tag allowed (imb : dict (Series F)) (items : dict (Series F))
    (acc acc' : dict (Series F) * dict (Series F)) (m : string) :
  for_each (select_run tag allowed imb) items acc = Ok acc' ->
  (forall n, In n (dict_keys items) -> contains tag n = true -> model_name_of n <> Ok m) ->
  dict_get m (fst acc') = dict_get m (fst acc) /\
  dict_get m (snd acc') = dict_get m (snd acc).
Proof.
  revert acc. induction items as [|[n s] items IH]; intros acc H Hother; simpl in H.
  - injection H as <-. now split.
  - apply bind_ok in H as (acc1 & Hstep & Hrest).
    apply select_run_keeps with (m := m) in Hstep as [H1 H2];
      [|apply Hother; simpl; auto].
    apply IH in Hrest as [H3 H4]; [|intros; apply Hother; simpl; auto].
    split; congruence.
Qed.

(** Of the runs a pass lets through for model [m], the last one is the one
    whose series the pass returns, temperature and imbalance alike. *)
Lemma select_runs_last tag allowed (imb : dict (Series F))
    (items1 : dict (Series F)) (name : string) (s : Series F) (items2 : dict (Series F))
    (acc acc' : dict (Series F) * dict (Series F)) (m : string) :
  for_each (select_run tag allowed imb) (items1 ++ (name, s) :: items2)%list acc = Ok acc' ->
  contains tag name = true ->
  model_name_of name = Ok m ->
  allowed m = true ->
  (forall n, In n (dict_keys items2) -> contains tag n = true -> model_name_of n <> Ok m) ->
  dict_get m (fst acc') = Some s /\
  exists i, dict_get name imb = Some i /\ dict_get m (snd acc') = Some i.
Proof.
  intros H Ht Hm Ha Hother. rewrite for_each_app in H.
  apply bind_ok in H as (acc1 & _ & H). simpl for_each in H.
  apply bind_ok in H as (acc2 & Hstep & Hrest).
  unfold select_run in Hstep. cbn [fst snd] in Hstep.
  rewrite Hm in Hstep. cbn [bind] in Hstep. rewrite Ht, Ha in Hstep. cbn in Hstep.
  apply bind_ok in Hstep as (i & Hi & Hstep). apply getitem_ok in Hi.
  injection Hstep as <-.
  apply select_loop_keeps with (m := m) in Hrest as [H1 H2]; [|exact Hother].
  cbn [fst snd] in *. rewrite dict_get_set_eq in H1, H2.
  split; [exact H1|]. now exists i.
Qed.

(** A pass adds no model its test rejects. *)
Lemma select_runs_allowed tag allowed (imb : dict (Series F)) (items : dict (Series F))
    (acc acc' : dict (Series F) * dict (Series F)) (m : string) :
  for_each (select_run tag allowed imb) items acc = Ok acc' ->
  In m (dict_keys (fst acc')) ->
  In m (dict_keys (fst acc)) \/ allowed m = true.
Proof.
  revert acc. induction items as [|[n s] items IH]; intros acc H Hin; simpl in H.
  - injection H as <-. now left.
  - apply bind_ok in H as (acc1 & Hstep & Hrest).
    destruct (IH _ Hrest Hin) as [Hin1|Ha]; [|now right].
    unfold select_run in Hstep. cbn [fst snd] in Hstep.
    apply bind_ok in Hstep as (m' & _ & Hstep).
    destruct (negb (contains tag n) || negb (allowed m')) eqn:Hskip.
    + injection Hstep as <-. now left.
    + apply orb_false_elim in Hskip as [_ Ha]. apply negb_false_iff in Ha.
      apply bind_ok in Hstep as (i & _ & Hstep). injection Hstep as <-.
      cbn [fst] in Hin1. apply dict_keys_set in Hin1 as [->|Hin1]; auto.
Qed.

(** X12.  When the catalogue holds several control runs of one model (the
    same model under two grids, say), the series kept for the model are
    those of the last such run in the order of the collection, and the
    temperature series and the imbalance series kept are those of the same
    run. *)
Theorem later_control_run_replaces_earlier (imb : dict (Series F))
    (g1 : dict (Series F)) (name : string) (s : Series F) (g2 : dict (Series F))
    (runs : Runs F) (m : string) :
  split_runs (g1 ++ (name, s) :: g2)%list imb = Ok runs ->
  contains "piControl" name = true ->
  model_name_of name = Ok m ->
  In m (dict_keys (ctrl_gmst_dict runs)) ->
  (forall n, In n (dict_keys g2) -> contains "piControl" n = true ->
             model_name_of n <> Ok m) ->
  dict_get m (ctrl_gmst_dict runs) = Some s /\
  exists i, dict_get name imb = Some i /\
            dict_get m (ctrl_imbalance_dict runs) = Some i.
Proof.
  intros H Ht Hm Hin Hother. unfold split_runs, select_runs in H.
  apply bind_ok in H as (ctrl0 & _ & H).
  apply bind_ok in H as (abrupt & _ & H).
  apply bind_ok in H as (ctrl & Hctrl & H).
  injection H as <-. cbn [ctrl_gmst_dict ctrl_imbalance_dict] in *.
  destruct (@select_runs_allowed _ _ _ _ _ _ _ Hctrl Hin) as [[]|Ha].
  exact (@select_runs_last _ _ _ _ _ _ _ _ _ _ Hctrl Ht Hm Ha Hother).
Qed.

Variable cosdeg : F -> F.
Variable polyfit : list F -> list F -> result (F * F).

(** The reduced datasets are stored under the keys of the series. *)
Lemma reduce_all_ds_keys (rad tas : dict (Dataset F)) (red : Reduced F) :
  reduce_all cosdeg rad tas = Ok red ->
  dict_keys (ds_dict red) = dict_keys (gmst_dict red).
Proof.
  unfold reduce_all.
  apply (@for_each_invariant _ _ (reduce_run cosdeg tas)
           (fun st => dict_keys (ds_dict st) = dict_keys (gmst_dict st))
           (fun _ => True)).
  - intros [name ds_rad] st st' _ Hkeys Hrun.
    apply reduce_run_inv in Hrun
      as (_ & [[_ ->]|(_ & _ & ds & gmst & imbalance & ->)]); [assumption|].
    simpl. now apply dict_keys_set_same_keys.
  - apply Forall_forall. auto.
  - reflexivity.
Qed.

(** The models of the quadrupling-run dictionaries are the eligible ones. *)
Lemma split_runs_abrupt_keys (g imb : dict (Series F)) (runs : Runs F) :
  dict_keys g = dict_keys imb ->
  (forall name, In name (dict_keys g) -> exists m, model_name_of name = Ok m) ->
  split_runs g imb = Ok runs ->
  forall m, In m (dict_keys (abrupt_gmst_dict runs)) <-> eligible g m.
Proof.
  intros Hkeys Hwf Hsplit.
  assert (Hwf' : forall name, In name (map fst g) ->
            In name (dict_keys imb) /\ exists m, model_name_of name = Ok m).
  { intros n Hn. split; [rewrite <- Hkeys; exact Hn | apply Hwf; exact Hn]. }
  unfold split_runs, select_runs in Hsplit.
  destruct (select_runs_spec "piControl" (fun _ => true) imb g ([], []) Hwf' eq_refl)
    as (c0 & Hc0run & _ & Hc0). rewrite Hc0run in Hsplit. cbn [bind] in Hsplit.
  destruct (select_runs_spec "abrupt-4xCO2" (fun m => dict_mem m (fst c0)) imb g ([], [])
              Hwf' eq_refl) as (ab & Habrun & _ & Hab).
  rewrite Habrun in Hsplit. cbn [bind] in Hsplit.
  apply bind_ok in Hsplit as (c & _ & Hsplit). injection Hsplit as <-.
  cbn [abrupt_gmst_dict]. intros m. rewrite Hab. unfold eligible, has_run. split.
  - intros [[]|(n & Hn & Ht & Hm & Ha)].
    apply dict_mem_keys, Hc0 in Ha as [[]|(n' & Hn' & Ht' & Hm' & _)].
    split; [exists n' | exists n]; auto.
  - intros [(n' & Hn' & Ht' & Hm') (n & Hn & Ht & Hm)].
    right. exists n. repeat split; auto.
    apply dict_mem_keys, Hc0. right. exists n'. auto.
Qed.

(** X13.  Once the first loop has returned, the cell that splits the
    reduced datasets returns too.  Its [ctrl_dict] holds every model with
    a control run, also those without a quadrupling run; its [abrupt_dict]
    holds the models with both runs, the very models of the four series
    dictionaries. *)
Theorem split_datasets_keeps_control_only_models
    (rad tas : dict (Dataset F)) (red : Reduced F) :
  reduce_all cosdeg rad tas = Ok red ->
  exists ctrl_dict abrupt_dict runs,
    split_datasets (ds_dict red) = Ok (ctrl_dict, abrupt_dict) /\
    split_runs (gmst_dict red) (imbalance_dict red) = Ok runs /\
    (forall m, In m (dict_keys ctrl_dict) <-> has_run "piControl" (gmst_dict red) m) /\
    (forall m, In m (dict_keys abrupt_dict) <-> eligible (gmst_dict red) m) /\
    (forall m, In m (dict_keys abrupt_dict) <-> In m (dict_keys (ctrl_gmst_dict runs))).
Proof.
  intros Hred.
  pose proof (@reduce_all_ds_keys _ _ _ Hred) as Hds.
  destruct (reduce_all_series cosdeg rad tas Hred) as (Hkeys & Hall).
  assert (Hwf : forall name, In name (dict_keys (gmst_dict red)) ->
                             exists m, model_name_of name = Ok m)
    by (intros n Hn; now apply Hall).
  assert (Hwfd : forall name, In name (dict_keys (ds_dict red)) ->
                              exists m, model_name_of name = Ok m)
    by (rewrite Hds; exact Hwf).
  destruct (split_runs_spec (gmst_dict red) (imbalance_dict red) Hkeys Hwf)
    as (runs & Hsplit & Helig & _).
  unfold split_datasets.
  destruct (select_datasets_spec "piControl" (fun _ => true) (ds_dict red) [] Hwfd)
    as (c & -> & Hc). cbn [bind].
  destruct (select_datasets_spec "abrupt-4xCO2" (fun m => dict_mem m c) (ds_dict red) []
              Hwfd) as (ab & -> & Hab). cbn [bind].
  exists c, ab, runs. split; [reflexivity|]. split; [exact Hsplit|].
  assert (Hctrl : forall m, In m (dict_keys c) <-> has_run "piControl" (gmst_dict red) m).
  { intros m. rewrite Hc, Hds. unfold has_run. split.
    - intros [[]|(n & Hn & Ht & Hm & _)]. exists n. auto.
    - intros (n & Hn & Ht & Hm). right. exists n. auto. }
  assert (Habrupt : forall m, In m (dict_keys ab) <-> eligible (gmst_dict red) m).
  { intros m. rewrite Hab, Hds. unfold eligible. split.
    - intros [[]|(n & Hn & Ht & Hm & Ha)].
      apply dict_mem_keys, Hctrl in Ha. split; [exact Ha | exists n; auto].
    - intros [Hctl (n & Hn & Ht & Hm)]. right. exists n. repeat split; auto.
      now apply dict_mem_keys, Hctrl. }
  split; [exact Hctrl|]. split; [exact Habrupt|].
  intros m. now rewrite Habrupt, Helig.
Qed.

(** A step of a model that has its four series raises what the grouping of
    one of them raises, or what the fit raises. *)
Lemma ecs_step_raise limits (runs : Runs F) name (res : Results F) e :
  In name (dict_keys (ctrl_gmst_dict runs)) ->
  In name (dict_keys (ctrl_imbalance_dict runs)) ->
  In name (dict_keys (abrupt_gmst_dict runs)) ->
  In name (dict_keys (abrupt_imbalance_dict runs)) ->
  ecs_step polyfit limits runs name res = Raise e ->
  (e = ValueError /\ exists s, short_series runs name s) \/
  exists x y, polyfit x y = Raise e.
Proof.
  intros H1 H2 H3 H4 H.
  apply dict_key_get in H1 as (cg & Hcg). apply dict_key_get in H2 as (ci & Hci).
  apply dict_key_get in H3 as (ag & Hag). apply dict_key_get in H4 as (ai & Hai).
  unfold ecs_step, getitem in H. rewrite Hcg, Hci, Hag, Hai in H.
  cbn [bind] in H.
  destruct (groupby_year cg) as [ctrl_g|e1] eqn:G1; cbn [bind] in H;
    [|injection H as ->; apply groupby_year_raises in G1 as [-> Hl];
      left; split; [reflexivity|]; exists cg; split; auto].
  destruct (groupby_year ci) as [ctrl_i|e2] eqn:G2; cbn [bind] in H;
    [|injection H as ->; apply groupby_year_raises in G2 as [-> Hl];
      left; split; [reflexivity|]; exists ci; split; auto].
  destruct (groupby_year ag) as [abrupt_g|e3] eqn:G3; cbn [bind] in H;
    [|injection H as ->; apply groupby_year_raises in G3 as [-> Hl];
      left; split; [reflexivity|]; exists ag; split; auto].
  destruct (groupby_year ai) as [abrupt_i|e4] eqn:G4; cbn [bind] in H;
    [|injection H as ->; apply groupby_year_raises in G4 as [-> Hl];
      left; split; [reflexivity|]; exists ai; split; auto].
  cbv zeta in H. right.
  destruct (snd limits <=? _)%nat; [|discriminate H].
  match type of H with
  | bind (polyfit ?x ?y) _ = _ => destruct (polyfit x y) as [[a b]|e'] eqn:Hfit
  end; cbn [bind] in H; [discriminate H|].
  injection H as ->. eauto.
Qed.

Lemma estimate_loop_raise limits (runs : Runs F) (keys : list string) (res0 : Results F) e :
  (forall m, In m keys ->
     In m (dict_keys (ctrl_gmst_dict runs)) /\
     In m (dict_keys (ctrl_imbalance_dict runs)) /\
     In m (dict_keys (abrupt_gmst_dict runs)) /\
     In m (dict_keys (abrupt_imbalance_dict runs))) ->
  for_each (ecs_step polyfit limits runs) keys res0 = Raise e ->
  (e = ValueError /\ exists m s, In m keys /\ short_series runs m s) \/
  exists x y, polyfit x y = Raise e.
Proof.
  revert res0. induction keys as [|k keys IH]; intros res0 Hseries H; simpl in H.
  - discriminate H.
  - destruct (ecs_step polyfit limits runs k res0) as [res1|e'] eqn:Hstep; cbn [bind] in H.
    + destruct (IH res1) as [(He & m & s & Hm & Hs)|Hfit];
        [intros; apply Hseries; simpl; auto | exact H | |now right].
      left. split; [exact He|]. exists m, s. split; [now right | exact Hs].
    + injection H as ->.
      destruct (Hseries k (or_introl eq_refl)) as (H1 & H2 & H3 & H4).
      destruct (@ecs_step_raise _ _ _ _ _ H1 H2 H3 H4 Hstep) as [(He & s & Hs)|Hfit];
        [|now right].
      left. split; [exact He|]. exists k, s. split; [now left | exact Hs].
Qed.

(** X14.  Once the first loop has returned, the splitting cell returns and
    the four series dictionaries hold the same models, so no lookup of the
    ECS loop fails.  An exception that ends the notebook is then the
    [ValueError] of grouping a series that has at most one time step, or one
    that [np.polyfit] raised. *)
Theorem after_reduction_only_grouping_or_fit_raises
    (rad tas : dict (Dataset F)) (red : Reduced F) :
  reduce_all cosdeg rad tas = Ok red ->
  exists runs,
    split_runs (gmst_dict red) (imbalance_dict red) = Ok runs /\
    (forall m, In m (dict_keys (ctrl_gmst_dict runs)) <->
               In m (dict_keys (abrupt_gmst_dict runs))) /\
    dict_keys (ctrl_imbalance_dict runs) = dict_keys (ctrl_gmst_dict runs) /\
    dict_keys (abrupt_imbalance_dict runs) = dict_keys (abrupt_gmst_dict runs) /\
    forall limits e,
      notebook cosdeg polyfit limits rad tas = Raise e ->
      (e = ValueError /\
       exists m s, In m (dict_keys (ctrl_gmst_dict runs)) /\ short_series runs m s) \/
      exists x y, polyfit x y = Raise e.
Proof.
  intros Hred.
  destruct (reduce_all_series cosdeg rad tas Hred) as (Hkeys & Hall).
  assert (Hwf : forall name, In name (dict_keys (gmst_dict red)) ->
                             exists m, model_name_of name = Ok m)
    by (intros n Hn; now apply Hall).
  destruct (split_runs_spec (gmst_dict red) (imbalance_dict red) Hkeys Hwf)
    as (runs & Hsplit & Helig & Hci & Hai & Hsub).
  pose proof (@split_runs_abrupt_keys _ _ _ Hkeys Hwf Hsplit) as Hab.
  exists runs. split; [exact Hsplit|].
  split; [intros m; now rewrite Helig, Hab|].
  split; [exact Hci|]. split; [exact Hai|].
  intros limits e Hnb. unfold notebook in Hnb.
  rewrite Hred in Hnb. cbn [bind] in Hnb. rewrite Hsplit in Hnb. cbn [bind] in Hnb.
  unfold estimate_ecs in Hnb.
  apply estimate_loop_raise in Hnb; [exact Hnb|].
  intros m Hm. rewrite Hci, Hai. auto.
Qed.

End SplitFacts.

(** ** Annual means *)

Section GroupbyFacts.

Context {F : Type} {AF : Arith F}.









End GroupbyFacts.

Lemma Forall2_map_In (A B : Type) (R : B -> B -> Prop) (f g : A -> B) (l : list A) :
  (forall x, In x l -> R (f x) (g x)) -> Forall2 R (map f l) (map g l).
Proof.
  induction l as [|x l IH]; simpl; intros H; constructor; auto.
Qed.


(** ** The per-model loop: what it stores, and when it cannot fit *)

Section LoopFacts.

Context {F : Type} {AF : Arith F}.
Variable polyfit : list F -> list F -> result (F * F).
Variable limits : nat * nat.
Variable runs : Runs F.

Lemma dict_get_fresh (V : Type) (k : string) (d : dict V) :
  ~ In k (dict_keys d) -> dict_get k d = None.
Proof.
  intros Hk. destruct (dict_get k d) as [v|] eqn:E; [|reflexivity].
  exfalso. apply Hk. exact (@dict_get_some_key _ _ _ _ E).
Qed.

(** The step of model [name] stores what [stored_for] lists. *)
Lemma ecs_step_stores name (res res' : Results F) :
  ecs_step polyfit limits runs name res = Ok res' ->
  stored_for polyfit limits runs res' name.
Proof.
  intros H. apply ecs_step_inv in H as (cg & ci & ag & ai & Hcg & Hci & Hag & Hai & H).
  cbv zeta in H. destruct H as (H1 & H2 & H3 & H4 & HE).
  exists cg, ci, ag, ai. repeat (split; [assumption|]).
  rewrite H1, H2, H3, H4, !dict_get_set_eq. repeat (split; [reflexivity|]).
  intros Hlong. destruct HE as [(_ & a & b & Hfit & HE)|(Hguard & _)].
  - exists a, b. split; [exact Hfit|]. rewrite HE. apply dict_get_set_eq.
  - apply Nat.leb_gt in Hguard. lia.
Qed.

(** The step of another model leaves what is stored for [m] in place. *)
Lemma ecs_step_keeps name (res res' : Results F) (m : string) :
  ecs_step polyfit limits runs name res = Ok res' ->
  stored_for polyfit limits runs res m ->
  stored_for polyfit limits runs res' m.
Proof.
  intros H Hm. destruct (String.eqb_spec name m) as [Heq|Hne].
  - subst m. eapply ecs_step_stores; eassumption.
  - apply ecs_step_inv in H as (cg0 & ci0 & ag0 & ai0 & _ & _ & _ & _ & H).
    cbv zeta in H. destruct H as (H1 & H2 & H3 & H4 & HE).
    destruct Hm as (cg & ci & ag & ai & Hcg & Hci & Hag & Hai & G1 & G2 & G3 & G4 & GE).
    exists cg, ci, ag, ai. repeat (split; [assumption|]).
    rewrite H1, H2, H3, H4, !dict_get_set_neq by exact Hne.
    repeat (split; [assumption|]).
    intros Hlong. destruct (GE Hlong) as (a & b & Hfit & Hget).
    exists a, b. split; [exact Hfit|].
    destruct HE as [(_ & a' & b' & _ & ->)|(_ & ->)]; [|exact Hget].
    now rewrite dict_get_set_neq by exact Hne.
Qed.

Lemma estimate_loop_stores (keys : list string) (res0 res : Results F) :
  for_each (ecs_step polyfit limits runs) keys res0 = Ok res ->
  forall m, In m keys \/ stored_for polyfit limits runs res0 m ->
            stored_for polyfit limits runs res m.
Proof.
  revert res0. induction keys as [|k keys IH]; intros res0 H m Hm; simpl in H.
  - injection H as <-. destruct Hm as [[]|Hm]. exact Hm.
  - apply bind_ok in H as (res1 & Hstep & Hrest).
    apply (IH _ Hrest). destruct Hm as [[->|Hm]|Hm].
    + right. eapply ecs_step_stores; eassumption.
    + now left.
    + right. eapply ecs_step_keeps; eassumption.
Qed.

(** The loop returns only when the series of every model it visits can be
    grouped. *)
Lemma estimate_loop_grouped (keys : list string) (res0 res : Results F) :
  for_each (ecs_step polyfit limits runs) keys res0 = Ok res ->
  forall m, In m keys -> has_annual_series runs m.
Proof.
  revert res0. induction keys as [|k keys IH]; intros res0 H m Hm; simpl in H.
  - destruct Hm.
  - apply bind_ok in H as (res1 & Hstep & Hrest). destruct Hm as [<-|Hm].
    + eapply ecs_step_grouped; eassumption.
    + eapply IH; eassumption.
Qed.

(** X17.  When the ECS loop returns, every model it was handed has its
    series stored, fitted or not: the two annual control series, the two
    anomaly series and, if the imbalance anomaly series has at least
    [limits[1]] time steps, the ECS [b/(-a)/2.0] of the slope and intercept
    the fit returned on the window.  A model whose series is shorter has
    its series stored and no ECS entry. *)
Theorem every_model_series_stored (res : Results F) :
  estimate_ecs polyfit limits runs = Ok res ->
  forall m, In m (dict_keys (ctrl_gmst_dict runs)) ->
    stored_for polyfit limits runs res m /\
    (~ long_enough limits runs m -> dict_get m (ECS res) = None).
Proof.
  unfold estimate_ecs. intros H m Hm. split.
  - apply (@estimate_loop_stores _ _ _ H). now left.
  - intros Hshort. apply dict_get_fresh. intros Hin.
    apply (@estimate_loop_keys _ _ _ _ _ _ _ _ H) in Hin as [[]|[_ Hlong]].
    now apply Hshort.
Qed.

Lemma anomaly_whole_control (abrupt ctrl : list F) :
  fst limits = 0%nat -> (List.length ctrl <= snd limits)%nat ->
  anomaly limits abrupt ctrl = example_anomaly abrupt ctrl.
Proof.
  intros H0 Hlen. unfold anomaly, example_anomaly, slice. rewrite H0.
  cbn [skipn]. now rewrite Nat.sub_0_r, firstn_all2.
Qed.

(** The example cell finds the chosen model when it is among the keys. *)
Lemma example_loop_finds (model : string) (keys : list string) (st : option (Example F))
    cg ci ag ai :
  dict_get model (ctrl_gmst_dict runs) = Some cg ->
  dict_get model (ctrl_imbalance_dict runs) = Some ci ->
  dict_get model (abrupt_gmst_dict runs) = Some ag ->
  dict_get model (abrupt_imbalance_dict runs) = Some ai ->
  has_annual_series runs model ->
  In model keys ->
  for_each (example_step model runs) keys st =
  Ok (Some {| ex_ctrl_gmst := groupby_year_mean cg;
              ex_ctrl_imbalance := groupby_year_mean ci;
              ex_abrupt_gmst :=
                example_anomaly (groupby_year_mean ag) (groupby_year_mean cg);
              ex_abrupt_imbalance :=
                example_anomaly (groupby_year_mean ai) (groupby_year_mean ci) |}).
Proof.
  intros Hcg Hci Hag Hai Hall.
  match goal with |- _ -> _ = Ok (Some ?r) => set (ex := r) end.
  assert (Hhit : forall st', example_step model runs model st' = Ok (Some ex)).
  { intros st'. unfold example_step, getitem. rewrite String.eqb_refl.
    rewrite Hcg, Hci, Hag, Hai. cbn [bind].
    rewrite (groupby_year_long cg) by (apply Hall; auto). cbn [bind].
    rewrite (groupby_year_long ci) by (apply Hall; auto). cbn [bind].
    rewrite (groupby_year_long ag) by (apply Hall; auto). cbn [bind].
    rewrite (groupby_year_long ai) by (apply Hall; auto). reflexivity. }
  assert (Hkeep : forall ks,
            for_each (example_step model runs) ks (Some ex) = Ok (Some ex)).
  { induction ks as [|k ks IH]; [reflexivity|]. simpl for_each.
    destruct (String.eqb_spec model k) as [<-|Hne].
    - rewrite Hhit. exact IH.
    - unfold example_step at 1. apply String.eqb_neq in Hne. rewrite Hne. exact IH. }
  revert st. induction keys as [|k keys IH]; intros st Hin; [destruct Hin|].
  simpl for_each. destruct (String.eqb_spec model k) as [<-|Hne].
  - rewrite Hhit. apply Hkeep.
  - destruct Hin as [->|Hin]; [contradiction|].
    unfold example_step at 1. apply String.eqb_neq in Hne. rewrite Hne. now apply IH.
Qed.

(** X18.  The example cell and the loop agree on a model whose annual
    control series are no longer than the window's end, for a window that
    starts at 0 (with [gregory_limits = [0,150]]: a control run of at most
    150 years): the example cell assigns its four variables, its fit is the
    loop's fit, and the ECS it prints is the loop's ECS entry. *)
Theorem example_agrees_with_loop (res : Results F) (model : string) cg ci ag ai :
  estimate_ecs polyfit limits runs = Ok res ->
  In model (dict_keys (ctrl_gmst_dict runs)) ->
  dict_get model (ctrl_gmst_dict runs) = Some cg ->
  dict_get model (ctrl_imbalance_dict runs) = Some ci ->
  dict_get model (abrupt_gmst_dict runs) = Some ag ->
  dict_get model (abrupt_imbalance_dict runs) = Some ai ->
  fst limits = 0%nat ->
  (List.length (groupby_year_mean cg) <= snd limits)%nat ->
  (List.length (groupby_year_mean ci) <= snd limits)%nat ->
  (snd limits <= List.length (groupby_year_mean ai))%nat ->
  exists ex v,
    example_cell model runs = Ok (Some ex) /\
    example_ecs polyfit limits ex = Ok v /\
    dict_get model (ECS res) = Some v.
Proof.
  intros Hres Hin Hcg Hci Hag Hai H0 Hlg Hli Hlong.
  unfold estimate_ecs in Hres.
  destruct (@estimate_loop_stores _ _ _ Hres model (or_introl Hin))
    as (cg' & ci' & ag' & ai' & Hcg' & Hci' & Hag' & Hai' & _ & _ & _ & _ & HE).
  rewrite Hcg in Hcg'. rewrite Hci in Hci'. rewrite Hag in Hag'. rewrite Hai in Hai'.
  injection Hcg' as <-. injection Hci' as <-. injection Hag' as <-. injection Hai' as <-.
  destruct HE as (a & b & Hfit & Hget); [now rewrite anomaly_length|].
  rewrite !anomaly_whole_control in Hfit by assumption.
  eexists. exists (ECS_of_fit a b).
  split; [unfold example_cell; apply example_loop_finds with (cg := cg) (ci := ci)
                                        (ag := ag) (ai := ai); try assumption;
          exact (@estimate_loop_grouped _ _ _ Hres model Hin)|].
  split; [|exact Hget].
  unfold example_ecs. cbn [ex_abrupt_gmst ex_abrupt_imbalance]. now rewrite Hfit.
Qed.

End LoopFacts.

(** C4 as stated fails at the single-model example cell: with a control
    run that drifts and the window [1, 3), the baseline the cell subtracts
    is the mean of the whole annual control series, not the mean over the
    window. *)
Lemma example_cell_baseline_not_windowed :
  exists ex,
    example_cell "W" Demo.runs_W = Ok (Some ex) /\
    is_window 1 3 [0; 10; 20; 60]%Q [10; 20]%Q /\
    ex_abrupt_gmst ex = map (fun s => fsub s (fmean [0; 10; 20; 60]%Q)) [1; 2; 3; 4]%Q /\
    ex_abrupt_gmst ex <> map (fun s => fsub s (fmean [10; 20]%Q)) [1; 2; 3; 4]%Q.
Proof.
  eexists. split; [vm_compute; reflexivity|].
  split; [intros [|[|[|k]]]; reflexivity|].
  split; [vm_compute; reflexivity|].
  vm_compute. discriminate.
Qed.

(** ** The fit window and the derived ECS, in exact arithmetic *)

Section WindowFacts.

Local Open Scope Q_scope.

Variable zero_abscissae : list Q -> list Q -> result (Q * Q).

(** X19.  A window that is empty ([limits[1] <= limits[0]]) does not make
    the loop skip: the size test passes for every model (its series having
    a time dimension) with at least [limits[1]] years, the fit is handed
    empty vectors and raises [TypeError]. *)
Theorem empty_window_raises limits (runs : Runs Q) name (res : Results Q) cg ci ag ai :
  dict_get name (ctrl_gmst_dict runs) = Some cg ->
  dict_get name (ctrl_imbalance_dict runs) = Some ci ->
  dict_get name (abrupt_gmst_dict runs) = Some ag ->
  dict_get name (abrupt_imbalance_dict runs) = Some ai ->
  has_annual_series runs name ->
  (snd limits <= fst limits)%nat ->
  (snd limits <= List.length (groupby_year_mean ai))%nat ->
  ecs_step (polyfit_exact zero_abscissae) limits runs name res = Raise TypeError.
Proof.
  intros Hcg Hci Hag Hai Hall Hempty Hlong.
  rewrite (ecs_step_annual _ limits res Hcg Hci Hag Hai Hall). cbv zeta.
  rewrite anomaly_length. apply Nat.leb_le in Hlong. rewrite Hlong.
  unfold slice. replace (snd limits - fst limits)%nat with 0%nat by lia.
  reflexivity.
Qed.

(** X20.  The ECS is half the temperature at which the fitted line
    [a * x + b] crosses zero imbalance, and it is positive exactly when
    slope and intercept have opposite signs.  (Exact arithmetic, slope not
    zero.) *)
Theorem ecs_is_half_the_zero_crossing (a b : Q) :
  ~ a == 0 ->
  a * (2 * ECS_of_fit a b) + b == 0 /\
  (0 < ECS_of_fit a b <-> a * b < 0).
Proof.
  intros Ha.
  assert (HE : ECS_of_fit a b == - b / (2 * a)).
  { unfold ECS_of_fit. exact_ops. now field. }
  split; [rewrite HE; now field|].
  assert (Hk : 0 < 2 * (a * a)).
  { pose proof (Qsquare_nonneg a) as Hsq.
    destruct (Qlt_le_dec 0 (a * a)) as [Hpos|Hle]; [lra|].
    exfalso. apply Ha. apply Qsquare_zero. lra. }
  assert (Hprod : ECS_of_fit a b * (2 * (a * a)) == - (a * b)).
  { rewrite HE. now field. }
  split.
  - intros Hpos. pose proof (Qmult_lt_0_compat _ _ Hpos Hk) as H. lra.
  - intros Hneg. destruct (Qlt_le_dec 0 (ECS_of_fit a b)) as [Hpos|Hle]; [exact Hpos|].
    exfalso.
    assert (H : ECS_of_fit a b * (2 * (a * a)) <= 0 * (2 * (a * a)))
      by (apply Qmult_le_compat_r; [exact Hle | lra]).
    lra.
Qed.

End WindowFacts.

(** ** The ordered mapping holds the same entries, in any arithmetic *)

Section SortAnyArith.

Context {F : Type} {AF : Arith F}.

Lemma dict_get_In (V : Type) (k : string) (v : V) (d : dict V) :
  dict_get k d = Some v -> In (k, v) d.
Proof.
  induction d as [|[k0 v0] d IH]; simpl; [discriminate|].
  destruct (String.eqb_spec k k0) as [->|_]; [injection 1 as ->; now left | auto].
Qed.

Lemma In_dict_get (V : Type) (k : string) (v : V) (d : dict V) :
  NoDup (dict_keys d) -> In (k, v) d -> dict_get k d = Some v.
Proof.
  unfold dict_keys. induction d as [|[k0 v0] d IH]; simpl; [intros _ []|].
  intros Hnd Hin. inversion Hnd as [|? ? Hfresh Hnd']; subst.
  destruct Hin as [Heq|Hin].
  - injection Heq as -> ->. now rewrite String.eqb_refl.
  - destruct (String.eqb_spec k k0) as [->|_]; [|now apply IH].
    exfalso. apply Hfresh. change k0 with (fst (k0, v)). now apply in_map.
Qed.

(** Lookups do not depend on the order of a dictionary's entries. *)
Lemma dict_get_perm (V : Type) (d d' : dict V) :
  NoDup (dict_keys d) -> Permutation d' d ->
  forall k, dict_get k d' = dict_get k d.
Proof.
  intros Hnd Hperm k.
  assert (Hnd' : NoDup (dict_keys d')).
  { unfold dict_keys in *. eapply Permutation_NoDup; [|exact Hnd].
    apply Permutation_map. now symmetry. }
  destruct (dict_get k d) as [v|] eqn:E.
  - apply In_dict_get; [exact Hnd'|].
    apply (Permutation_in _ (Permutation_sym Hperm)). now apply dict_get_In.
  - destruct (dict_get k d') as [v'|] eqn:E'; [|reflexivity].
    apply dict_get_In in E'. apply (Permutation_in _ Hperm) in E'.
    apply (@In_dict_get _ _ _ _ Hnd) in E'. congruence.
Qed.

(** X21.  Ordering the ECS mapping loses and invents nothing, whatever the
    values and however they compare (binary64 with NaN included): the
    ordered mapping has the same entries, its keys are distinct, and every
    model is looked up to the value it had. *)
Theorem ordered_ECS_same_entries (ecs : dict F) :
  NoDup (dict_keys ecs) ->
  Permutation (ordered_ECS ecs) ecs /\
  NoDup (dict_keys (ordered_ECS ecs)) /\
  forall k, dict_get k (ordered_ECS ecs) = dict_get k ecs.
Proof.
  intros Hnd.
  assert (Hsame : ordered_ECS ecs = sorted_by_value ecs)
    by exact (@ordered_ECS_sorted_items _ _ _ Hnd).
  rewrite Hsame. pose proof (sorted_by_value_perm_any ecs) as Hperm.
  split; [exact Hperm|]. split.
  - unfold dict_keys in *. eapply Permutation_NoDup; [|exact Hnd].
    apply Permutation_map. now symmetry.
  - now apply dict_get_perm.
Qed.

End SortAnyArith.

(** ** Ordering an ordered mapping *)

Section SortAgain.

Local Open Scope Q_scope.

(** X22.  A mapping already in ascending order of ECS is left exactly as
    it is, so ordering twice gives what ordering once gives.  (Exact
    values.) *)
Theorem ordered_ECS_fixes_sorted (ecs : dict Q) :
  NoDup (dict_keys ecs) ->
  (Sorted value_le ecs -> ordered_ECS ecs = ecs) /\
  ordered_ECS (ordered_ECS ecs) = ordered_ECS ecs.
Proof.
  intros Hnd.
  assert (Hfix : forall d, NoDup (dict_keys d) -> Sorted value_le d -> ordered_ECS d = d).
  { intros d Hd Hs. rewrite (@ordered_ECS_sorted_items _ _ _ Hd).
    now apply sorted_by_value_fixes_sorted. }
  split; [now apply Hfix|].
  rewrite (@ordered_ECS_sorted_items _ _ _ Hnd). apply Hfix.
  - unfold dict_keys in *. eapply Permutation_NoDup; [|exact Hnd].
    apply Permutation_map. symmetry. apply sorted_by_value_perm.
  - apply sorted_by_value_sorted.
Qed.

End SortAgain.

(** ** The bin edges of the histogram *)

Section HistogramFacts.

Local Open Scope Q_scope.

(** What the scan of [max] returns: an item of the list no smaller than
    any other. *)
Lemma py_max_scan (rest : list Q) (x : Q) :
  let r := fold_left (fun m y => if fltb m y then y else m) rest x in
  x <= r /\ (forall y, In y rest -> y <= r) /\ In r (x :: rest).
Proof.
  revert x. induction rest as [|y ys IH]; intros x; cbn [fold_left].
  - cbv zeta. split; [apply Qle_refl|]. split; [intros y []|now left].
  - specialize (IH (if fltb x y then y else x)). cbv zeta in *.
    destruct IH as (Hx' & Hys & Hin).
    change (fltb x y) with (negb (Qle_bool y x)) in *.
    destruct (Qle_bool y x) eqn:E; cbn [negb] in *.
    + apply Qle_bool_iff in E. split; [exact Hx'|]. split.
      * intros z [<-|Hz]; [now apply Qle_trans with x | now apply Hys].
      * destruct Hin as [Hin|Hin]; [now left | right; now right].
    + assert (Hxy : x <= y).
      { destruct (Qlt_le_dec x y) as [Hlt|Hle]; [now apply Qlt_le_weak|].
        apply Qle_bool_iff in Hle. congruence. }
      split; [now apply Qle_trans with y|]. split.
      * intros z [<-|Hz]; [exact Hx' | now apply Hys].
      * destruct Hin as [Hin|Hin]; [right; now left | right; now right].
Qed.

Lemma seq_map_ext_Qeq (f g : nat -> Q) (n : nat) :
  (forall i, f i == g i) -> Forall2 Qeq (map f (seq 0 n)) (map g (seq 0 n)).
Proof. intros H. apply Forall2_map_In. intros i _. apply H. Qed.

(** X23.  The histogram cell raises [ValueError] exactly when no model
    has an ECS.  Otherwise [max] returns one of the ECS values, none being
    larger, and when that maximum [m] is not negative the bin edges are the
    integers [0, 1, .., K] with [m <= K < m + 1]: every ECS value between 0
    and the maximum lies within the edges.  (Exact arithmetic.) *)
Theorem histogram_bins_cover (ecs : dict Q) :
  (hist_bins ecs = Raise ValueError <-> ecs = []) /\
  forall m, py_max (map snd ecs) = Ok m ->
    (forall k v, In (k, v) ecs -> v <= m) /\
    (exists k, In (k, m) ecs) /\
    (0 <= m ->
     exists (K : nat) (bins : list Q),
       hist_bins ecs = Ok bins /\
       Forall2 Qeq bins (map (fun i => inject_Z (Z.of_nat i)) (seq 0 (S K))) /\
       m <= inject_Z (Z.of_nat K) /\ inject_Z (Z.of_nat K) < m + 1).
Proof.
  split.
  - unfold hist_bins. destruct ecs as [|[k v] ecs]; cbn [map py_max bind].
    + split; reflexivity.
    + split; discriminate.
  - intros m Hm. destruct ecs as [|[k0 v0] ecs]; [discriminate Hm|].
    assert (Hscan : v0 <= m /\ (forall y, In y (map snd ecs) -> y <= m) /\
                    In m (v0 :: map snd ecs)).
    { cbn [map py_max snd] in Hm. injection Hm as <-.
      exact (py_max_scan (map snd ecs) v0). }
    destruct Hscan as (H0 & Hrest & Hin). split; [|split].
    + intros k v [Heq|Hkv].
      * injection Heq as _ <-. exact H0.
      * apply Hrest. change v with (snd (k, v)). now apply in_map.
    + destruct Hin as [<-|Hin].
      * exists k0. now left.
      * apply in_map_iff in Hin as ([k v] & Hv & Hkv). cbn [snd] in Hv. subst v.
        exists k. now right.
    + intros Hpos. unfold hist_bins. rewrite Hm. cbn [bind].
      unfold arange_exact.
      set (c := Qceiling ((m + 1 - 0) / 1)).
      assert (Hc : c = Qceiling (m + 1)) by (apply Qceiling_comp; field).
      pose proof (Qle_ceiling (m + 1)) as Hup.
      pose proof (Qceiling_lt (m + 1)) as Hlow.
      rewrite <- Hc in Hup, Hlow.
      assert (Hc1 : (1 <= c)%Z).
      { rewrite Zle_Qle. change (inject_Z 1) with 1.
        apply Qle_trans with (m + 1); [lra | exact Hup]. }
      exists (Z.to_nat (c - 1)). eexists. split; [reflexivity|].
      replace (Z.to_nat c) with (S (Z.to_nat (c - 1))) by lia.
      rewrite Z2Nat.id by lia.
      assert (Hinj : inject_Z (c - 1) == inject_Z c - 1).
      { unfold Zminus. rewrite inject_Z_plus. reflexivity. }
      split; [|split].
      * apply seq_map_ext_Qeq. intros i. ring.
      * lra.
      * lra.
Qed.

End HistogramFacts.

(** ** The range of the area-weighted mean *)

Section GlobalMeanRange.

Local Open Scope Q_scope.

Variable cosdeg : Q -> Q.

Lemma Qsum_rows_le (f g : nat -> nat -> Q) (rows cols : list nat) :
  (forall i j, In i rows -> In j cols -> f i j <= g i j) ->
  Qsum (flat_map (fun i => map (f i) cols) rows) <=
  Qsum (flat_map (fun i => map (g i) cols) rows).
Proof.
  induction rows as [|i rows IH]; intros Hfg; simpl; [apply Qle_refl|].
  rewrite !Qsum_app. apply Qplus_le_compat; [|apply IH; intros; apply Hfg; simpl; auto].
  assert (Hrow : forall j, In j cols -> f i j <= g i j) by (intros; apply Hfg; simpl; auto).
  clear -Hrow. induction cols as [|j cols IHc]; simpl; [apply Qle_refl|].
  apply Qplus_le_compat; [apply Hrow; simpl; auto | apply IHc; intros; apply Hrow; simpl; auto].
Qed.

Lemma grid_sum_le nlat nlon (f g : nat -> nat -> Q) :
  (forall i j, (i < nlat)%nat -> (j < nlon)%nat -> f i j <= g i j) ->
  grid_sum nlat nlon f <= grid_sum nlat nlon g.
Proof.
  intros H. rewrite !grid_sum_exact. apply Qsum_rows_le.
  intros i j Hi Hj. apply in_seq in Hi, Hj. apply H; lia.
Qed.

(** X24.  With weights that are not negative (latitudes between the
    poles) and not all zero, the area-weighted mean of a field lies between
    the smallest and the largest value the field takes on the grid.  (Exact
    arithmetic.) *)
Theorem global_mean_within_range (lat lon : list Q)
    (field : nat -> nat -> nat -> Q) (lo hi : Q) (t : nat) :
  (forall i, (i < List.length lat)%nat -> 0 <= cosdeg (nth i lat 0)) ->
  ~ total_weight cosdeg lat lon == 0 ->
  (forall i j, (i < List.length lat)%nat -> (j < List.length lon)%nat ->
               lo <= field t i j /\ field t i j <= hi) ->
  lo <= global_mean cosdeg lat lon field t /\
  global_mean cosdeg lat lon field t <= hi.
Proof.
  intros Hcos Hw Hrange. unfold global_mean. fold (total_weight cosdeg lat lon).
  set (W := total_weight cosdeg lat lon) in *.
  set (w := cos_lat_2d cosdeg lat).
  assert (Hwpos : forall i j, (i < List.length lat)%nat -> 0 <= w i j).
  { intros i j Hi. unfold w, cos_lat_2d. exact_ops.
    change (@fzero Q exact) with 0. specialize (Hcos i Hi). lra. }
  assert (HW0 : 0 <= W).
  { assert (H0 : grid_sum (List.length lat) (List.length lon) (fun i j => 0 * w i j)
                 == 0 * W) by apply grid_sum_scale.
    assert (Hle : grid_sum (List.length lat) (List.length lon) (fun i j => 0 * w i j)
                  <= W).
    { unfold W, total_weight. fold w. apply grid_sum_le.
      intros i j Hi _. specialize (Hwpos i j Hi). lra. }
    lra. }
  assert (HWpos : 0 < W).
  { destruct (Qlt_le_dec 0 W) as [H|H]; [exact H|]. exfalso. apply Hw. lra. }
  set (N := grid_sum (List.length lat) (List.length lon)
              (fun i j => fmul (field t i j) (w i j))).
  assert (Hlo : lo * W <= N).
  { unfold W, total_weight, N. fold w. rewrite <- grid_sum_scale.
    apply grid_sum_le. intros i j Hi Hj. exact_ops.
    destruct (Hrange i j Hi Hj) as [Hl _]. specialize (Hwpos i j Hi).
    setoid_replace (field t i j * w i j) with (lo * w i j + (field t i j - lo) * w i j)
      by ring.
    assert (0 <= (field t i j - lo) * w i j) by (apply Qmult_le_0_compat; lra).
    lra. }
  assert (Hhi : N <= hi * W).
  { unfold W, total_weight, N. fold w. rewrite <- grid_sum_scale.
    apply grid_sum_le. intros i j Hi Hj. exact_ops.
    destruct (Hrange i j Hi Hj) as [_ Hh]. specialize (Hwpos i j Hi).
    setoid_replace (hi * w i j) with (field t i j * w i j + (hi - field t i j) * w i j)
      by ring.
    assert (0 <= (hi - field t i j) * w i j) by (apply Qmult_le_0_compat; lra).
    lra. }
  exact_ops. split.
  - now apply Qle_shift_div_l.
  - now apply Qle_shift_div_r.
Qed.

End GlobalMeanRange.

(** ** A grid without cells, in binary64 *)

Section EmptyGrid.

Lemma flat_map_empty_rows (A B : Type) (l : list A) :
  flat_map (fun _ : A => @nil B) l = [].
Proof. induction l as [|x l IH]; simpl; [reflexivity | exact IH]. Qed.

(** X25.  On a grid with no latitude or no longitude the weights sum to
    zero and the global mean is [0.0/0.0]: the cell does not raise, it
    yields NaN at every time step. *)
Theorem global_mean_empty_grid_is_nan (cosdeg : float -> float) (lat lon : list float)
    (field : nat -> nat -> nat -> float) (t : nat) :
  lat = [] \/ lon = [] ->
  global_mean cosdeg lat lon field t = nan.
Proof.
  intros [->| ->]; unfold global_mean, grid_sum.
  - reflexivity.
  - cbn [List.length seq map]. now rewrite !flat_map_empty_rows.
Qed.

End EmptyGrid.

(** ** The time axes of the two series of a run *)

Section TimeAxes.

Context {F : Type} {AF : Arith F}.
Variable cosdeg : F -> F.

Lemma map_nth_seq (A : Type) (l : list A) (d : A) :
  map (fun i => nth i l d) (seq 0 (List.length l)) = l.
Proof.
  induction l as [|x l IH]; simpl; [reflexivity|].
  f_equal. rewrite <- seq_shift, map_map. exact IH.
Qed.

(** A reduced series has one entry per time step, labelled with the year
    of the step. *)
Lemma global_mean_series_years (years : list Z) (lat lon : list F)
    (field : nat -> nat -> nat -> F) :
  map fst (global_mean_series cosdeg years lat lon field) = years.
Proof.
  unfold global_mean_series. rewrite map_map. cbn [fst]. apply map_nth_seq.
Qed.

Lemma rename_year (m : dict string) (ds ds' : Dataset F) :
  rename m ds = Ok ds' -> ds_year ds' = ds_year ds.
Proof.
  unfold rename. destruct (negb (forallb _ _)); [discriminate|].
  destruct (negb (distinct _)); [discriminate|]. now injection 1 as <-.
Qed.

Lemma reconcile_year (ds_rad ds_tas r t : Dataset F) :
  reconcile ds_rad ds_tas = Ok (r, t) ->
  ds_year r = ds_year ds_rad /\ ds_year t = ds_year ds_tas.
Proof.
  unfold reconcile. destruct (needs_rename ds_rad).
  - intros H. apply bind_ok in H as (r' & Hr & H). apply bind_ok in H as (t' & Ht & H).
    injection H as -> ->. split; eapply rename_year; eassumption.
  - injection 1 as -> ->. now split.
Qed.

(** X26.  Of a run that is reduced, the temperature series has one entry
    per time step of the temperature dataset and the imbalance series one
    per time step of the radiation dataset, each labelled with the calendar
    year of its step.  Nothing aligns the two time axes: the two series of
    one run can differ in length. *)
Theorem reduced_series_follow_time_axes (tas : dict (Dataset F)) (name : string)
    (ds_rad : Dataset F) (st st' : Reduced F) :
  reduce_run cosdeg tas (name, ds_rad) st = Ok st' ->
  has_fluxes ds_rad = true ->
  exists ds_tas gmst imbalance,
    dict_get name tas = Some ds_tas /\
    dict_get name (gmst_dict st') = Some gmst /\
    map fst gmst = ds_year ds_tas /\
    dict_get name (imbalance_dict st') = Some imbalance /\
    map fst imbalance = ds_year ds_rad.
Proof.
  unfold reduce_run. cbn [fst snd]. intros H Hflux.
  apply bind_ok in H as (m & _ & H). rewrite Hflux in H. cbn [negb] in H.
  apply bind_ok in H as (ds_tas & Htas & H). apply getitem_ok in Htas.
  apply bind_ok in H as ([r t] & Hrec & H). apply reconcile_year in Hrec as [Hyr Hyt].
  cbv zeta in H.
  apply bind_ok in H as (lat_t & _ & H). apply bind_ok in H as (lon_t & _ & H).
  apply bind_ok in H as (tas_v & _ & H). apply bind_ok in H as (rsdt & _ & H).
  apply bind_ok in H as (rsut & _ & H). apply bind_ok in H as (rlut & _ & H).
  apply bind_ok in H as (lat_r & _ & H). apply bind_ok in H as (lon_r & _ & H).
  injection H as <-. cbn [gmst_dict imbalance_dict].
  do 3 eexists. split; [exact Htas|].
  rewrite !dict_get_set_eq. split; [reflexivity|].
  unfold squeeze. rewrite !global_mean_series_years. cbn [drop_redundant ds_year].
  split; [exact Hyt|]. split; [reflexivity | exact Hyr].
Qed.

End TimeAxes.

(** ** Anomalies and a common offset *)

Section OffsetFacts.

Local Open Scope Q_scope.

Lemma fmean_exact (l : list Q) : fmean l == Qsum l / count l.
Proof.
  unfold fmean. change (fun x : Q => negb (fisnan x)) with (fun _ : Q => true).
  rewrite filter_true. exact_ops. rewrite fsum_exact. reflexivity.
Qed.

Lemma Qsum_offset (c : Q) (l : list Q) :
  Qsum (map (fun x => x + c) l) == Qsum l + count l * c.
Proof.
  induction l as [|x l IH]; simpl.
  - unfold count; simpl. ring.
  - rewrite IH, count_cons. ring.
Qed.

Lemma fmean_offset (c : Q) (l : list Q) :
  l <> [] -> fmean (map (fun x => x + c) l) == fmean l + c.
Proof.
  intros Hl. rewrite !fmean_exact, Qsum_offset.
  assert (Hn : ~ count l == 0).
  { destruct l as [|x l]; [contradiction|]. pose proof (count_pos x l). lra. }
  unfold count in *. rewrite length_map. now field.
Qed.

Lemma slice_map (A B : Type) (f : A -> B) (y0 y1 : nat) (l : list A) :
  slice y0 y1 (map f l) = map f (slice y0 y1 l).
Proof. unfold slice. now rewrite skipn_map, firstn_map. Qed.

(** X27.  A constant added to both runs of a model (the same series in
    kelvin instead of degrees Celsius, say) cancels in the anomaly, as long
    as the baseline window holds at least one control year.  (Exact
    arithmetic.) *)
Theorem anomaly_offset_free (limits : nat * nat) (abrupt ctrl : list Q) (c : Q) :
  slice (fst limits) (snd limits) ctrl <> [] ->
  Forall2 Qeq
    (anomaly limits (map (fun x => x + c) abrupt) (map (fun x => x + c) ctrl))
    (anomaly limits abrupt ctrl).
Proof.
  intros Hwin. unfold anomaly. rewrite slice_map, map_map.
  apply Forall2_map_In. intros s _. exact_ops.
  rewrite (fmean_offset c Hwin). ring.
Qed.

End OffsetFacts.

(** ** A baseline window that holds no control year, in binary64 *)

Section EmptyBaseline.

Lemma is_nan_of_nan (r : float) : Prim2SF r = S754_nan -> PrimFloat.is_nan r = true.
Proof.
  intros H. unfold PrimFloat.is_nan. rewrite FloatAxioms.eqb_spec, H. reflexivity.
Qed.

(** Subtracting NaN gives NaN. *)
Lemma sub_nan (s : float) : PrimFloat.is_nan (s - nan)%float = true.
Proof.
  apply is_nan_of_nan. rewrite sub_spec.
  change (Prim2SF nan) with S754_nan.
  destruct (Prim2SF s) as [sg|sg| |sg m e]; reflexivity.
Qed.

Lemma slice_beyond (A : Type) (y0 y1 : nat) (l : list A) :
  (List.length l <= y0)%nat \/ (y1 <= y0)%nat -> slice y0 y1 l = [].
Proof.
  unfold slice. intros [H|H].
  - rewrite skipn_all2 by exact H. apply firstn_nil.
  - replace (y1 - y0)%nat with 0%nat by lia. reflexivity.
Qed.

(** X29.  When the baseline window holds no year of the control series
    (the control run has at most [limits[0]] years, or the window is
    empty), the baseline is the mean of nothing, NaN, and every value of
    the anomaly series is NaN.  The series keeps its length, so the size
    test of the loop does not see it. *)
Theorem empty_baseline_gives_nan (limits : nat * nat) (abrupt ctrl : list float) :
  (List.length ctrl <= fst limits)%nat \/ (snd limits <= fst limits)%nat ->
  List.length (anomaly limits abrupt ctrl) = List.length abrupt /\
  Forall (fun v => PrimFloat.is_nan v = true) (anomaly limits abrupt ctrl).
Proof.
  intros H. split; [apply anomaly_length|].
  unfold anomaly. rewrite (slice_beyond _ H).
  change (fmean (@nil float)) with nan.
  apply Forall_forall. intros v Hv. apply in_map_iff in Hv as (s & <- & _).
  apply sub_nan.
Qed.

End EmptyBaseline.

(** ** The theorems at concrete inputs *)

Section Witnesses.

Local Open Scope Q_scope.

(** X30 at slope 0 and intercept 8. *)
Lemma ECS_of_fit_zero_slope_witness :
  PrimFloat.is_finite (ECS_of_fit 0%float 8%float) = false.
Proof. apply (@ECS_of_fit_zero_slope 0%float 8%float). reflexivity. Defined.

(** C3 at four points, of which those of the window [1, 3) lie on the
    line [y = 8 - 2 x] and the two others do not. *)
Lemma linear_data_fit_recovered_witness :
  exists a b,
    polyfit_exact Demo.no_fit (slice 1 3 Demo.bent_X) (slice 1 3 Demo.bent_Y) = Ok (a, b) /\
    a == -2 /\ b == 8 /\
    (~ -2 == 0 -> ECS_of_fit a b == 8 / (- -2) / 2).
Proof.
  apply (@linear_data_fit_recovered Demo.no_fit Demo.inner_limits Demo.bent_X Demo.bent_Y
           (-2) 8).
  - simpl. lia.
  - simpl. lia.
  - intros [|[|[|t]]] x y Ht Hx Hy; simpl in Ht; try lia;
      simpl in Hx, Hy; injection Hx as <-; injection Hy as <-; vm_compute; reflexivity.
  - exists 1%nat, 2%nat, 1, 2. simpl. repeat split; try lia. discriminate.
Defined.

(** C4 at a control run that drifts, window [1, 3): the baselines are the
    means of the second and third control years. *)
Lemma baseline_differencing_witness :
  exists cg ci ag ai anom_g anom_i window_g window_i,
    dict_get "W" (ctrl_gmst_dict Demo.runs_W) = Some cg /\
    dict_get "W" (ctrl_imbalance_dict Demo.runs_W) = Some ci /\
    dict_get "W" (abrupt_gmst_dict Demo.runs_W) = Some ag /\
    dict_get "W" (abrupt_imbalance_dict Demo.runs_W) = Some ai /\
    dict_get "W" (abrupt_gmst Demo.step_W) = Some anom_g /\
    dict_get "W" (abrupt_imbalance Demo.step_W) = Some anom_i /\
    is_window 1 3 (groupby_year_mean cg) window_g /\
    is_window 1 3 (groupby_year_mean ci) window_i /\
    forall t,
      nth_error anom_g t =
        option_map (fun s => fsub s (fmean window_g)) (nth_error (groupby_year_mean ag) t) /\
      nth_error anom_i t =
        option_map (fun s => fsub s (fmean window_i)) (nth_error (groupby_year_mean ai) t).
Proof.
  apply (@baseline_differencing Q exact (polyfit_exact Demo.no_fit) Demo.inner_limits
           Demo.runs_W "W" no_results Demo.step_W).
  vm_compute. reflexivity.
Defined.

(** C5's failing input: models C, S and D, the quadrupling run of S with
    one time step. *)
Lemma one_step_series_aborts_witness :
  estimate_ecs (polyfit_exact Demo.no_fit) Demo.three_limits Demo.one_step_runs
  = Raise ValueError.
Proof.
  apply (@one_step_series_aborts Q exact (polyfit_exact Demo.no_fit) Demo.three_limits
           Demo.one_step_runs ["C"] ["D"] "S" Demo.one_step_after_C (Demo.series [1])).
  - reflexivity.
  - vm_compute. reflexivity.
  - simpl. auto.
  - simpl. auto.
  - simpl. auto.
  - split; [right; right; left; reflexivity | simpl; lia].
Defined.

(** X31 at the three-model batch. *)
Lemma ecs_only_for_eligible_models_witness :
  (forall name, In name (dict_keys (gmst_dict Demo.three_reduced)) ->
     exists ds_rad, In (name, ds_rad) Demo.three_rad /\ has_fluxes ds_rad = true /\
                    dict_mem name Demo.three_tas = true) /\
  exists runs,
    split_runs (gmst_dict Demo.three_reduced) (imbalance_dict Demo.three_reduced) = Ok runs /\
    (forall m, In m (dict_keys (ctrl_gmst_dict runs)) <->
               eligible (gmst_dict Demo.three_reduced) m) /\
    (forall res,
       estimate_ecs (polyfit_exact Demo.no_fit) Demo.three_limits runs = Ok res ->
       forall m, In m (dict_keys (ECS res)) <->
                 eligible (gmst_dict Demo.three_reduced) m /\
                 long_enough Demo.three_limits runs m) /\
    ((forall m, eligible (gmst_dict Demo.three_reduced) m -> has_annual_series runs m) ->
     (forall m, eligible (gmst_dict Demo.three_reduced) m ->
                long_enough Demo.three_limits runs m ->
                fit_returns (polyfit_exact Demo.no_fit) Demo.three_limits runs m) ->
     exists res, estimate_ecs (polyfit_exact Demo.no_fit) Demo.three_limits runs = Ok res).
Proof.
  apply (@ecs_only_for_eligible_models Q exact Demo.unit_cos (polyfit_exact Demo.no_fit)
           Demo.three_limits Demo.three_rad Demo.three_tas Demo.three_reduced).
  vm_compute. reflexivity.
Defined.

(** C7 (exact arithmetic) on three latitudes with uneven weights. *)
Lemma constant_field_mean_exact_witness :
  global_mean Demo.rough_cos Demo.lat3 Demo.lon2 (Demo.const (5 # 2)) 0 == 5 # 2.
Proof.
  apply (@constant_field_mean_exact Demo.rough_cos Demo.lat3 Demo.lon2
           (Demo.const (5 # 2)) (5 # 2) 0%nat).
  - intros i j _ _. reflexivity.
  - vm_compute. discriminate.
Defined.

(** C8 (exact arithmetic) on the same grid, fluxes varying in space and
    time. *)
Lemma net_toa_mean_linear_exact_witness :
  global_mean Demo.rough_cos Demo.lat3 Demo.lon2
    (net_toa (Demo.tilted 340) (Demo.tilted 100) (Demo.tilted 239)) 1 ==
  net_toa_of_means Demo.rough_cos Demo.lat3 Demo.lon2
    (Demo.tilted 340) (Demo.tilted 100) (Demo.tilted 239) 1.
Proof.
  apply (@net_toa_mean_linear_exact Demo.rough_cos Demo.lat3 Demo.lon2
           (Demo.tilted 340) (Demo.tilted 100) (Demo.tilted 239) 1%nat).
  vm_compute. discriminate.
Defined.

(** C9 at the A/B/C scenario, in binary64. *)
Lemma ordered_ECS_ascending_stable_witness :
  Permutation (ordered_ECS Demo64.ecs_ABC) Demo64.ecs_ABC /\
  StronglySorted float_le (ordered_ECS Demo64.ecs_ABC) /\
  forall v, filter (has_float v) (ordered_ECS Demo64.ecs_ABC) =
            filter (has_float v) Demo64.ecs_ABC.
Proof.
  apply (@ordered_ECS_ascending_stable Demo64.ecs_ABC).
  - repeat constructor; simpl; intuition discriminate.
  - intros k v [H|[H|[H|[]]]]; injection H as _ <-; reflexivity.
Defined.


(** X1 at model C with a two-year temperature series. *)
Lemma short_temperature_series_raises_witness :
  ecs_step (polyfit_exact Demo.no_fit) Demo.three_limits Demo.runs_short_tas "C" no_results
  = Raise TypeError.
Proof.
  apply (@short_temperature_series_raises Demo.no_fit Demo.three_limits Demo.runs_short_tas
           "C" no_results (Demo.series [0; 0; 0]) (Demo.series [1; 1; 1])
           (Demo.series [1; 2]) (Demo.series [7; 5; 3]));
    try reflexivity; try (vm_compute; lia).
  intros s [H|[H|[H|H]]]; vm_compute in H; injection H as <-; simpl; lia.
Defined.

(** The line [y = 8 - 2 x] is the least-squares line of its own points. *)
Lemma polyfit_exact_least_squares_witness :
  forall a' b', sq_residual (-2) 8 Demo.line_X Demo.line_Y
                <= sq_residual a' b' Demo.line_X Demo.line_Y.
Proof.
  apply (@polyfit_exact_least_squares Demo.no_fit Demo.line_X Demo.line_Y (-2) 8).
  - vm_compute. discriminate.
  - vm_compute. reflexivity.
Defined.

(** X2 at a run without [rlut]. *)
Lemma reduce_run_missing_flux_witness :
  reduce_run Demo.unit_cos Demo.both_tas
    ("CMIP.X.A.piControl.Amon.gn",
     Demo.one_cell 2 [("rsdt", Demo.const 5); ("rsut", Demo.const 1)])
    {| ds_dict := []; gmst_dict := []; imbalance_dict := [] |}
  = Ok {| ds_dict := []; gmst_dict := []; imbalance_dict := [] |}.
Proof.
  apply (@reduce_run_missing_flux Q exact Demo.unit_cos Demo.both_tas
           "CMIP.X.A.piControl.Amon.gn" _ _ "A"); reflexivity.
Defined.

(** C6's failing input: run A has no temperature dataset, run B is
    complete. *)
Lemma missing_temperature_aborts_witness :
  reduce_all Demo.unit_cos
    ([] ++ ("CMIP.X.A.piControl.Amon.gn",
            Demo.one_cell 2 [("rsdt", Demo.const 5); ("rsut", Demo.const 1);
                             ("rlut", Demo.const 3)])
        :: [("CMIP.X.B.piControl.Amon.gn",
             Demo.one_cell 2 [("rsdt", Demo.const 5); ("rsut", Demo.const 1);
                              ("rlut", Demo.const 3)])])%list
    Demo.only_B_tas
  = Raise KeyError.
Proof.
  apply (@missing_temperature_aborts Q exact Demo.unit_cos Demo.only_B_tas []
           "CMIP.X.A.piControl.Amon.gn" _ _ "A"
           {| ds_dict := []; gmst_dict := []; imbalance_dict := [] |});
    reflexivity.
Defined.

(** X4 at the key of the CESM2 control run. *)
Lemma model_name_of_joined_fields_witness :
  split "."%char (join "."%char ["CMIP"; "NCAR"; "CESM2"; "piControl"; "Amon"; "gn"])
  = ["CMIP"; "NCAR"; "CESM2"; "piControl"; "Amon"; "gn"] /\
  model_name_of (join "."%char ["CMIP"; "NCAR"; "CESM2"; "piControl"; "Amon"; "gn"])
  = Ok "CESM2".
Proof.
  apply (@model_name_of_joined_fields "CMIP" "NCAR" "CESM2" ["piControl"; "Amon"; "gn"]).
  repeat constructor.
Defined.

(** X6 at a key with one dot, its run lacking every flux. *)
Lemma malformed_key_aborts_witness :
  reduce_all Demo.unit_cos
    ([] ++ ("CESM2.piControl", Demo.one_cell 2 []) :: Demo.two_runs_rad)%list Demo.both_tas
  = Raise IndexError.
Proof.
  apply (@malformed_key_aborts Q exact Demo.unit_cos Demo.both_tas [] "CESM2.piControl"
           (Demo.one_cell 2 []) Demo.two_runs_rad Demo.nothing_reduced).
  - reflexivity.
  - simpl. lia.
Defined.

(** X7 at the three-model batch. *)
Lemma reduce_all_keys_in_order_witness :
  dict_keys (gmst_dict Demo.three_reduced)
  = dict_keys (filter (fun item => has_fluxes (snd item)) Demo.three_rad) /\
  dict_keys (imbalance_dict Demo.three_reduced) = dict_keys (gmst_dict Demo.three_reduced) /\
  dict_keys (ds_dict Demo.three_reduced) = dict_keys (gmst_dict Demo.three_reduced).
Proof.
  apply (@reduce_all_keys_in_order Q exact Demo.unit_cos Demo.three_rad Demo.three_tas
           Demo.three_reduced).
  - repeat constructor; simpl; intuition discriminate.
  - vm_compute. reflexivity.
Defined.

(** X8 at the three-model batch. *)
Lemma reduce_all_returns_when_reducible_witness :
  exists red, reduce_all Demo.unit_cos Demo.three_rad Demo.three_tas = Ok red.
Proof.
  apply (@reduce_all_returns_when_reducible Q exact Demo.unit_cos Demo.three_rad
           Demo.three_tas).
  reflexivity.
Defined.

(** X10 at two datasets on the long names. *)
Lemma reconcile_settles_names_witness :
  (needs_rename Demo.rad_long_names = false ->
     Demo.rad_renamed = Demo.rad_long_names /\ Demo.tas_renamed = Demo.tas_long_names) /\
  (needs_rename Demo.rad_long_names = true ->
     has_dim "lon" Demo.rad_renamed = true /\ has_dim "lat" Demo.rad_renamed = true /\
     has_dim "longitude" Demo.rad_renamed = false /\
     has_dim "latitude" Demo.rad_renamed = false /\
     has_dim "longitude" Demo.tas_renamed = false /\
     has_dim "latitude" Demo.tas_renamed = false) /\
  needs_rename Demo.rad_renamed = false /\
  reconcile Demo.rad_renamed Demo.tas_renamed = Ok (Demo.rad_renamed, Demo.tas_renamed).
Proof.
  apply (@reconcile_settles_names Q Demo.rad_long_names Demo.tas_long_names
           Demo.rad_renamed Demo.tas_renamed).
  reflexivity.
Defined.

(** X11 at the temperature dataset on the long names. *)
Lemma renamed_grid_is_found_witness :
  (forall lat, dict_get "latitude" (ds_coords Demo.tas_long_names) = Some lat ->
               dict_get "lat" (ds_coords Demo.tas_renamed) = Some lat) /\
  (forall lon, dict_get "longitude" (ds_coords Demo.tas_long_names) = Some lon ->
               dict_get "lon" (ds_coords Demo.tas_renamed) = Some lon) /\
  (forall k, ~ In k ["longitude"; "latitude"; "lon"; "lat"] ->
             dict_get k (ds_vars Demo.tas_renamed) = dict_get k (ds_vars Demo.tas_long_names) /\
             dict_get k (ds_coords Demo.tas_renamed)
             = dict_get k (ds_coords Demo.tas_long_names)).
Proof.
  apply (@renamed_grid_is_found Q Demo.tas_long_names Demo.tas_renamed).
  reflexivity.
Defined.

(** X12 at a model with a control run on each of two grids. *)
Lemma later_control_run_replaces_earlier_witness :
  dict_get "M" (ctrl_gmst_dict Demo.twice_runs) = Some (Demo.series [5; 5]) /\
  exists i, dict_get "CMIP.X.M.piControl.Amon.gr" Demo.twice_imbalance = Some i /\
            dict_get "M" (ctrl_imbalance_dict Demo.twice_runs) = Some i.
Proof.
  apply (@later_control_run_replaces_earlier Q Demo.twice_imbalance
           [("CMIP.X.M.piControl.Amon.gn", Demo.series [0; 0])]
           "CMIP.X.M.piControl.Amon.gr" (Demo.series [5; 5])
           [("CMIP.X.M.abrupt-4xCO2.Amon.gn", Demo.series [1; 2])]
           Demo.twice_runs "M").
  - reflexivity.
  - reflexivity.
  - reflexivity.
  - simpl. auto.
  - intros n [<-|[]] Hc. vm_compute in Hc. discriminate Hc.
Defined.

(** X13 at the three-model batch. *)
Lemma split_datasets_keeps_control_only_models_witness :
  exists ctrl_dict abrupt_dict runs,
    split_datasets (ds_dict Demo.three_reduced) = Ok (ctrl_dict, abrupt_dict) /\
    split_runs (gmst_dict Demo.three_reduced) (imbalance_dict Demo.three_reduced) = Ok runs /\
    (forall m, In m (dict_keys ctrl_dict) <->
               has_run "piControl" (gmst_dict Demo.three_reduced) m) /\
    (forall m, In m (dict_keys abrupt_dict) <-> eligible (gmst_dict Demo.three_reduced) m) /\
    (forall m, In m (dict_keys abrupt_dict) <-> In m (dict_keys (ctrl_gmst_dict runs))).
Proof.
  apply (@split_datasets_keeps_control_only_models Q exact Demo.unit_cos Demo.three_rad
           Demo.three_tas Demo.three_reduced).
  vm_compute. reflexivity.
Defined.

(** X14 at the three-model batch. *)
Lemma after_reduction_only_grouping_or_fit_raises_witness :
  exists runs,
    split_runs (gmst_dict Demo.three_reduced) (imbalance_dict Demo.three_reduced) = Ok runs /\
    (forall m, In m (dict_keys (ctrl_gmst_dict runs)) <->
               In m (dict_keys (abrupt_gmst_dict runs))) /\
    dict_keys (ctrl_imbalance_dict runs) = dict_keys (ctrl_gmst_dict runs) /\
    dict_keys (abrupt_imbalance_dict runs) = dict_keys (abrupt_gmst_dict runs) /\
    forall limits e,
      notebook Demo.unit_cos (polyfit_exact Demo.no_fit) limits Demo.three_rad Demo.three_tas
      = Raise e ->
      (e = ValueError /\
       exists m s, In m (dict_keys (ctrl_gmst_dict runs)) /\ short_series runs m s) \/
      exists x y, polyfit_exact Demo.no_fit x y = Raise e.
Proof.
  apply (@after_reduction_only_grouping_or_fit_raises Q exact Demo.unit_cos
           (polyfit_exact Demo.no_fit) Demo.three_rad Demo.three_tas Demo.three_reduced).
  vm_compute. reflexivity.
Defined.


(** X17 at model C. *)
Lemma every_model_series_stored_witness :
  stored_for (polyfit_exact Demo.no_fit) Demo.three_limits Demo.runs_C Demo.step_C "C" /\
  (~ long_enough Demo.three_limits Demo.runs_C "C" -> dict_get "C" (ECS Demo.step_C) = None).
Proof.
  apply (@every_model_series_stored Q exact (polyfit_exact Demo.no_fit) Demo.three_limits
           Demo.runs_C Demo.step_C).
  - vm_compute. reflexivity.
  - simpl. auto.
Defined.

(** X18 at model C: three control years and a window of three. *)
Lemma example_agrees_with_loop_witness :
  exists ex v,
    example_cell "C" Demo.runs_C = Ok (Some ex) /\
    example_ecs (polyfit_exact Demo.no_fit) Demo.three_limits ex = Ok v /\
    dict_get "C" (ECS Demo.step_C) = Some v.
Proof.
  apply (@example_agrees_with_loop Q exact (polyfit_exact Demo.no_fit) Demo.three_limits
           Demo.runs_C Demo.step_C "C" (Demo.series [0; 0; 0]) (Demo.series [1; 1; 1])
           (Demo.series [1; 2; 3]) (Demo.series [7; 5; 3]));
    try reflexivity.
  simpl. auto.
Defined.

(** X19 at model C and the window [2, 2). *)
Lemma empty_window_raises_witness :
  ecs_step (polyfit_exact Demo.no_fit) Demo.empty_limits Demo.runs_C "C" no_results
  = Raise TypeError.
Proof.
  apply (@empty_window_raises Demo.no_fit Demo.empty_limits Demo.runs_C "C" no_results
           (Demo.series [0; 0; 0]) (Demo.series [1; 1; 1])
           (Demo.series [1; 2; 3]) (Demo.series [7; 5; 3]));
    try reflexivity; try (vm_compute; lia).
  intros s [H|[H|[H|H]]]; vm_compute in H; injection H as <-; simpl; lia.
Defined.

(** X20 at the line [y = 8 - 2 x]: it crosses zero at 4, and the ECS is 2. *)
Lemma ecs_is_half_the_zero_crossing_witness :
  -2 * (2 * ECS_of_fit (-2) 8) + 8 == 0 /\
  (0 < ECS_of_fit (-2) 8 <-> -2 * 8 < 0).
Proof.
  apply (@ecs_is_half_the_zero_crossing (-2) 8). discriminate.
Defined.

(** X21 at the A/B/C scenario in binary64. *)
Lemma ordered_ECS_same_entries_witness :
  Permutation (ordered_ECS Demo64.ecs_ABC) Demo64.ecs_ABC /\
  NoDup (dict_keys (ordered_ECS Demo64.ecs_ABC)) /\
  forall k, dict_get k (ordered_ECS Demo64.ecs_ABC) = dict_get k Demo64.ecs_ABC.
Proof.
  apply (@ordered_ECS_same_entries float binary64 Demo64.ecs_ABC).
  repeat constructor; simpl; intuition discriminate.
Defined.

(** X22 at the A/B/C scenario. *)
Lemma ordered_ECS_fixes_sorted_witness :
  (Sorted value_le Demo.ecs_ABC -> ordered_ECS Demo.ecs_ABC = Demo.ecs_ABC) /\
  ordered_ECS (ordered_ECS Demo.ecs_ABC) = ordered_ECS Demo.ecs_ABC.
Proof.
  apply (@ordered_ECS_fixes_sorted Demo.ecs_ABC).
  repeat constructor; simpl; intuition discriminate.
Defined.

(** X24 on three latitudes with uneven weights. *)
Lemma global_mean_within_range_witness :
  341 <= global_mean Demo.rough_cos Demo.lat3 Demo.lon2 (Demo.tilted 340) 1 /\
  global_mean Demo.rough_cos Demo.lat3 Demo.lon2 (Demo.tilted 340) 1 <= 348.
Proof.
  apply (@global_mean_within_range Demo.rough_cos Demo.lat3 Demo.lon2 (Demo.tilted 340)
           341 348 1%nat).
  - intros [|[|[|i]]] Hi; simpl in Hi; try lia; vm_compute; discriminate.
  - vm_compute. discriminate.
  - intros [|[|[|i]]] [|[|j]] Hi Hj; simpl in Hi, Hj; try lia;
      split; vm_compute; discriminate.
Defined.

(** X25 on a grid with two longitudes and no latitude. *)
Lemma global_mean_empty_grid_is_nan_witness :
  global_mean Demo64.unit_cos [] Demo64.lon2 Demo64.tenth 0 = nan.
Proof.
  apply (@global_mean_empty_grid_is_nan Demo64.unit_cos [] Demo64.lon2 Demo64.tenth 0%nat).
  now left.
Defined.

(** X26 at a run with two years of temperature and three of radiation. *)
Lemma reduced_series_follow_time_axes_witness :
  exists ds_tas gmst imbalance,
    dict_get Demo.uneven_key Demo.uneven_tas = Some ds_tas /\
    dict_get Demo.uneven_key (gmst_dict Demo.uneven_reduced) = Some gmst /\
    map fst gmst = ds_year ds_tas /\
    dict_get Demo.uneven_key (imbalance_dict Demo.uneven_reduced) = Some imbalance /\
    map fst imbalance = ds_year Demo.uneven_rad.
Proof.
  apply (@reduced_series_follow_time_axes Q exact Demo.unit_cos Demo.uneven_tas
           Demo.uneven_key Demo.uneven_rad Demo.nothing_reduced Demo.uneven_reduced).
  - vm_compute. reflexivity.
  - reflexivity.
Defined.

(** X27: temperatures in kelvin instead of degrees Celsius. *)
Lemma anomaly_offset_free_witness :
  Forall2 Qeq
    (anomaly Demo.three_limits (map (fun x => x + 273.15) [1; 2; 3])
                               (map (fun x => x + 273.15) [0; 0; 0]))
    (anomaly Demo.three_limits [1; 2; 3] [0; 0; 0]).
Proof.
  apply (@anomaly_offset_free Demo.three_limits [1; 2; 3] [0; 0; 0] 273.15).
  discriminate.
Defined.

(** X29: a control run of three years against the window [100, 150). *)
Lemma empty_baseline_gives_nan_witness :
  List.length (anomaly Demo.scenario_limits [1; 2]%float [0; 0; 0]%float)
  = List.length [1; 2]%float /\
  Forall (fun v => PrimFloat.is_nan v = true)
         (anomaly Demo.scenario_limits [1; 2]%float [0; 0; 0]%float).
Proof.
  apply (@empty_baseline_gives_nan Demo.scenario_limits [1; 2]%float [0; 0; 0]%float).
  left. simpl. lia.
Defined.

End Witnesses.
